(** * XRAYanalysis: VLESS framing helpers, SplitHTTP dialer, WireGuard forwarder

  A shallow embedding of the Go sources

  - [proxy/vless/encoding] (addons codec, length-packet readers and
    writers, [PopulateSeed], [CheckSeed]),
  - [transport/internet/splithttp] ([Dial] and its upload producer),
  - [proxy/wireguard] ([forwardConnection]),

  together with the properties the specification states about them.
  Go integers are [Z] with their wrap-around written out, byte slices are
  [list byte], Go strings are [string], nil-able pointers are [option],
  and an [error] result is an [option] of an error value ([None] is
  [nil]). *)

From Stdlib Require Import ZArith List String Ascii Bool Lia FinFun.
From Stdlib.Strings Require Import Byte.
From Stdlib Require Import Decimal DecimalString DecimalPos DecimalZ.
Import ListNotations.

Local Open Scope string_scope.
Local Open Scope list_scope.
Local Open Scope Z_scope.

(* ================================================================= *)
(** ** Go scalars *)

Module Go.

(** [int32(x)]: the two's-complement value of the low 32 bits. *)
Definition wrap32 (z : Z) : Z := (z + 2 ^ 31) mod 2 ^ 32 - 2 ^ 31.

(** [int64(x)]: the two's-complement value of the low 64 bits. *)
Definition wrap64 (z : Z) : Z := (z + 2 ^ 63) mod 2 ^ 64 - 2 ^ 63.

(** [byte(x)]: the low eight bits of an integer. *)
Definition to_byte (z : Z) : byte :=
  match Byte.of_N (Z.to_N (z mod 256)) with
  | Some b => b
  | None => x00
  end.

(** [int32(b)] for a byte [b]. *)
Definition of_byte (b : byte) : Z := Z.of_N (Byte.to_N b).

(** [len(s)] of a slice, as an integer. *)
Definition len {A : Type} (l : list A) : Z := Z.of_nat (List.length l).

(** [len(s) > 0] of a string. *)
Definition nonempty (s : string) : bool :=
  match s with
  | EmptyString => false
  | String _ _ => true
  end.

(** [bytes.Equal]. *)
Fixpoint bytes_Equal (a b : list byte) : bool :=
  match a, b with
  | [], [] => true
  | x :: a', y :: b' => Byte.eqb x y && bytes_Equal a' b'
  | _, _ => false
  end.

(** [strconv.FormatInt(n, 10)]. *)
Definition FormatInt (n : Z) : string := NilZero.string_of_int (Z.to_int n).

(** A Go [error] value: a message, possibly wrapping the error it was
    built on ([newError(msg).Base(err)]). *)
Inductive error : Type :=
| newError (msg : string)
| Base (msg : string) (inner : error).

(** The usual [(value, error)] result of a function whose value is nil
    when the error is not. *)
Inductive result (A : Type) : Type :=
| Ok (a : A)
| Err (e : error).

Arguments Ok {A} a.
Arguments Err {A} e.

End Go.

Import Go.

(* ================================================================= *)
(** ** Package [io]: byte streams *)

Module IO.

(** A reader is the sequence of bytes it will still deliver before it
    reports end of file. *)
Definition Reader : Type := list byte.

Definition EOF : error := newError "EOF".
Definition ErrUnexpectedEOF : error := newError "unexpected EOF".

(** [io.ReadFull(r, p)] with [len(p) = n]: reads exactly [n] bytes, or
    fails with [EOF] when nothing could be read and with
    [ErrUnexpectedEOF] after a short read.  Returns the bytes stored in
    [p], the reader left behind and the error. *)
Definition ReadFull (r : Reader) (n : Z) : list byte * Reader * option error :=
  if n <=? 0 then ([], r, None)
  else if n <=? len r then (firstn (Z.to_nat n) r, skipn (Z.to_nat n) r, None)
  else match r with
       | [] => ([], [], Some EOF)
       | _ => (r, [], Some ErrUnexpectedEOF)
       end.

(** The [io.Writer] interface. *)
Class Writer (W : Type) : Type :=
  { Write : W -> list byte -> W * (Z * option error) }.

(** An in-memory writer: the bytes written so far, and whether the far
    end was closed (writes then fail). *)
Record Sink : Type := mkSink { written : list byte; closed : bool }.

Definition ErrClosedPipe : error := newError "io: read/write on closed pipe".

#[global] Instance Sink_Writer : Writer Sink :=
  { Write w data :=
      if closed w then (w, (0, Some ErrClosedPipe))
      else (mkSink (written w ++ data) false, (len data, None)) }.

End IO.

(* ================================================================= *)
(** ** Package [common/buf]: fixed-capacity buffers *)

Module Buf.

(** Modelled from the spec: package [common/buf] is not among the sources.
    The spec calls a buffer a fixed-capacity byte buffer and a multi-buffer
    an ordered vector of them; [Size] ([BufSize]) is the capacity of a
    pooled buffer.  A buffer is its backing capacity [len(b.v)], the offset
    [b.start] of its first unread byte and the bytes [b.v[b.start:b.end]]
    it holds. *)
Record Buffer : Type := mkBuffer
  { v_len : Z;
    start : Z;
    payload : list byte }.

(** Modelled from the spec: the offset [b.end] of a buffer of [common/buf]. *)
Definition end_ (b : Buffer) : Z := start b + len (payload b).

(** Modelled from the spec: [buf.New()] of [common/buf], an empty pooled
    buffer of capacity [Size]. *)
Definition New (Size : Z) : Buffer := mkBuffer Size 0 [].

(** Modelled from the spec: [b.Len()] of [common/buf], an [int32]. *)
Definition Len (b : Buffer) : Z := len (payload b).

(** Modelled from the spec: [b.Bytes()] of [common/buf]. *)
Definition Bytes (b : Buffer) : list byte := payload b.

(** Modelled from the spec: [b.IsEmpty()] of [common/buf]. *)
Definition IsEmpty (b : Buffer) : bool := Len b =? 0.

(** Modelled from the spec: [b.IsFull()] of [common/buf], for a buffer of
    fixed capacity. *)
Definition IsFull (b : Buffer) : bool := end_ b =? v_len b.

(** Modelled from the spec: [b.Clear()] of [common/buf]. *)
Definition Clear (b : Buffer) : Buffer := mkBuffer (v_len b) 0 [].

(** Modelled from the spec: [b.Byte(i)] of [common/buf]; the sources call
    it only on an index they have just filled. *)
Definition Byte (b : Buffer) (i : Z) : byte := nth (Z.to_nat i) (payload b) x00.

(** Modelled from the spec: [b.WriteByte(c)] of [common/buf]; it fails on
    a full buffer. *)
Definition WriteByte (b : Buffer) (c : byte) : Buffer * option error :=
  if IsFull b then (b, Some (newError "buffer full"))
  else (mkBuffer (v_len b) (start b) (payload b ++ [c]), None).

(** Modelled from the spec: [b.Write(data)] of [common/buf]; it copies as
    much of [data] as the fixed capacity allows and reports the number of
    bytes copied. *)
Definition Write (b : Buffer) (data : list byte) : Buffer * (Z * option error) :=
  let n := Z.max 0 (Z.min (len data) (v_len b - end_ b)) in
  (mkBuffer (v_len b) (start b) (payload b ++ firstn (Z.to_nat n) data), (n, None)).

(** Modelled from the spec: [b.ReadFullFrom(reader, size)] of
    [common/buf]; it appends exactly [size] bytes of the reader, or fails
    when they do not fit or the reader runs short. *)
Definition ReadFullFrom (b : Buffer) (reader : IO.Reader) (size : Z)
  : Buffer * IO.Reader * (Z * option error) :=
  if end_ b + size >? v_len b then (b, reader, (0, Some (newError "out of bound")))
  else
    let '(got, reader', err) := IO.ReadFull reader size in
    (mkBuffer (v_len b) (start b) (payload b ++ got), reader', (len got, err)).

(** Modelled from the spec: [buf.MultiBuffer], an ordered vector of
    buffers; none of its elements is nil. *)
Definition MultiBuffer : Type := list Buffer.

(** Modelled from the spec: [mb.Len()] of [common/buf], the [int32] sum of
    the elements' lengths. *)
Definition MultiBuffer_Len (mb : MultiBuffer) : Z :=
  fold_left (fun size b => wrap32 (size + Len b)) mb 0.

(** Modelled from the spec: [mb.IsEmpty()] of [common/buf]; no element
    holds a byte. *)
Definition MultiBuffer_IsEmpty (mb : MultiBuffer) : bool := forallb IsEmpty mb.

(** The bytes of a multi-buffer, in order. *)
Definition MultiBuffer_Bytes (mb : MultiBuffer) : list byte := flat_map Bytes mb.

(** Modelled from the spec: the [buf.Writer] interface of [common/buf]. *)
Class Writer (W : Type) : Type :=
  { WriteMultiBuffer : W -> MultiBuffer -> W * option error }.

(** An in-memory [buf.Writer]: the multi-buffers committed so far, in
    order, and whether it was closed. *)
Record Log : Type := mkLog { committed : list MultiBuffer; closed : bool }.

#[global] Instance Log_Writer : Writer Log :=
  { WriteMultiBuffer w mb :=
      if closed w then (w, Some IO.ErrClosedPipe)
      else (mkLog (committed w ++ [mb]) false, None) }.

End Buf.

(* ================================================================= *)
(** ** The addons message and its binary schema *)

Module Pb.

(** Modelled from the spec: the enum [SeedMode] of the generated message
    code, an [int32] in Go. *)
Definition SeedMode : Type := Z.

(** Modelled from the spec: the sub-records [Padding {RegularMin,
    RegularMax, LongMin, LongMax}], [Delay {IsRandom, MinMillis,
    MaxMillis}] and [Scheduler {TimeoutMillis}] of the generated message
    code. *)
Record PaddingConfig : Type := mkPaddingConfig
  { RegularMin : Z;
    RegularMax : Z;
    LongMin : Z;
    LongMax : Z }.

Record DelayConfig : Type := mkDelayConfig
  { IsRandom : bool;
    MinMillis : Z;
    MaxMillis : Z }.

Record SchedulerConfig : Type := mkSchedulerConfig
  { TimeoutMillis : Z }.

(** Modelled from the spec: the message types are generated code that is
    not among the sources.  The spec gives the record: [Flow] (string),
    [Seed] (bytes), [Mode] (enum), [Duration] (string) and the sub-records
    [Padding], [Delay] and [Scheduler], each a nil-able pointer. *)
Record Addons : Type := mkAddons
  { Flow : string;
    Seed : list byte;
    Mode : SeedMode;
    Duration : string;
    Padding : option PaddingConfig;
    Delay : option DelayConfig;
    Scheduler : option SchedulerConfig }.

(** [new(Addons)]: every field at its zero value. *)
Definition new_Addons : Addons := mkAddons "" [] 0 "" None None None.

(** *** The wire format

    The serialization of the protobuf library is outside the sources; the
    following instance of it is modelled from the spec, which gives the
    binary schema of the addons record: field 1 [Flow] = string, field 2
    [Seed] = bytes, field 3 [Mode] = varint, field 4 [Duration] = string,
    fields 5 to 7 the sub-records, length-delimited.  The fields of a
    sub-record are numbered in the order the spec lists them.  Scalars at
    their zero value are not emitted; a sub-record that is present is
    emitted even when empty. *)

(** Modelled from the spec: a base-128 varint, low group first. *)
Fixpoint put_varint (fuel : nat) (n : Z) : list byte :=
  match fuel with
  | O => []
  | S fuel' =>
      if n <? 128 then [to_byte n]
      else to_byte (Z.lor (Z.land n 127) 128) :: put_varint fuel' (Z.shiftr n 7)
  end.

(** Modelled from the spec: the varint of an unsigned 64-bit value, at
    most ten bytes. *)
Definition varint (n : Z) : list byte := put_varint 10 (n mod 2 ^ 64).

(** Modelled from the spec: the key of a field, its number and wire type. *)
Definition tag (field wire : Z) : list byte := varint (Z.lor (Z.shiftl field 3) wire).

(** Modelled from the spec: the encoders of a bytes, string, varint, bool
    and sub-record field of the schema. *)
Definition put_bytes (field : Z) (bs : list byte) : list byte :=
  match bs with
  | [] => []
  | _ => tag field 2 ++ varint (len bs) ++ bs
  end.

Definition put_string (field : Z) (s : string) : list byte :=
  put_bytes field (list_byte_of_string s).

Definition put_int (field : Z) (v : Z) : list byte :=
  if v =? 0 then [] else tag field 0 ++ varint v.

Definition put_bool (field : Z) (v : bool) : list byte :=
  put_int field (if v then 1 else 0).

Definition put_message (field : Z) (m : option (list byte)) : list byte :=
  match m with
  | None => []
  | Some body => tag field 2 ++ varint (len body) ++ body
  end.

(** Modelled from the spec: the serialization of the three sub-records and
    of the addons record, by the schema. *)
Definition Marshal_Padding (p : PaddingConfig) : list byte :=
  put_int 1 (RegularMin p) ++ put_int 2 (RegularMax p)
  ++ put_int 3 (LongMin p) ++ put_int 4 (LongMax p).

Definition Marshal_Delay (d : DelayConfig) : list byte :=
  put_bool 1 (IsRandom d) ++ put_int 2 (MinMillis d) ++ put_int 3 (MaxMillis d).

Definition Marshal_Scheduler (s : SchedulerConfig) : list byte :=
  put_int 1 (TimeoutMillis s).

Definition Marshal (a : Addons) : result (list byte) :=
  Ok (put_string 1 (Flow a) ++ put_bytes 2 (Seed a) ++ put_int 3 (Mode a)
      ++ put_string 4 (Duration a)
      ++ put_message 5 (option_map Marshal_Padding (Padding a))
      ++ put_message 6 (option_map Marshal_Delay (Delay a))
      ++ put_message 7 (option_map Marshal_Scheduler (Scheduler a))).

(** Modelled from the spec: reading a varint back. *)

Fixpoint get_varint (fuel : nat) (bs : list byte) : option (Z * list byte) :=
  match fuel, bs with
  | S fuel', b :: rest =>
      let v := of_byte b in
      if v <? 128 then Some (v, rest)
      else match get_varint fuel' rest with
           | Some (hi, rest') => Some (Z.lor (Z.land v 127) (Z.shiftl hi 7), rest')
           | None => None
           end
  | _, _ => None
  end.

(** Modelled from the spec: what a field carries, a varint or a run of
    bytes. *)
Inductive wire_value : Type :=
| VInt (v : Z)
| VBytes (bs : list byte).

(** Modelled from the spec: the fields of a message, in the order they
    were sent; [None] when the input is cut short or uses a wire type the
    schema has no use for. *)
Fixpoint get_fields (fuel : nat) (bs : list byte) : option (list (Z * wire_value)) :=
  match bs with
  | [] => Some []
  | _ =>
      match fuel with
      | O => None
      | S fuel' =>
          match get_varint 10 bs with
          | None => None
          | Some (key, rest) =>
              let field := Z.shiftr key 3 in
              match Z.land key 7 with
              | 0 =>
                  match get_varint 10 rest with
                  | None => None
                  | Some (v, rest') =>
                      option_map (cons (field, VInt v)) (get_fields fuel' rest')
                  end
              | 2 =>
                  match get_varint 10 rest with
                  | None => None
                  | Some (n, rest') =>
                      if n <=? len rest' then
                        option_map (cons (field, VBytes (firstn (Z.to_nat n) rest')))
                                   (get_fields fuel' (skipn (Z.to_nat n) rest'))
                      else None
                  end
              | _ => None
              end
          end
      end
  end.

(** Modelled from the spec: the fields of a whole message; every field
    takes at least one byte. *)
Definition fields (bs : list byte) : option (list (Z * wire_value)) :=
  get_fields (List.length bs) bs.

(** Modelled from the spec: storing a field read into the record it
    belongs to; fields the schema does not know are skipped. *)
Definition set_Padding (p : PaddingConfig) (f : Z * wire_value) : PaddingConfig :=
  match f with
  | (1, VInt v) => mkPaddingConfig v (RegularMax p) (LongMin p) (LongMax p)
  | (2, VInt v) => mkPaddingConfig (RegularMin p) v (LongMin p) (LongMax p)
  | (3, VInt v) => mkPaddingConfig (RegularMin p) (RegularMax p) v (LongMax p)
  | (4, VInt v) => mkPaddingConfig (RegularMin p) (RegularMax p) (LongMin p) v
  | _ => p
  end.

Definition set_Delay (d : DelayConfig) (f : Z * wire_value) : DelayConfig :=
  match f with
  | (1, VInt v) => mkDelayConfig (negb (v =? 0)) (MinMillis d) (MaxMillis d)
  | (2, VInt v) => mkDelayConfig (IsRandom d) v (MaxMillis d)
  | (3, VInt v) => mkDelayConfig (IsRandom d) (MinMillis d) v
  | _ => d
  end.

Definition set_Scheduler (s : SchedulerConfig) (f : Z * wire_value) : SchedulerConfig :=
  match f with
  | (1, VInt v) => mkSchedulerConfig v
  | _ => s
  end.

(** Modelled from the spec: a sub-record sent again is merged into the
    one already read. *)
Definition merge {A : Type} (zero : A) (set : A -> Z * wire_value -> A)
  (old : option A) (body : list byte) : option (option A) :=
  match fields body with
  | None => None
  | Some fs =>
      Some (Some (fold_left set fs (match old with Some x => x | None => zero end)))
  end.

Definition set_Addons (acc : option Addons) (f : Z * wire_value) : option Addons :=
  match acc with
  | None => None
  | Some a =>
      match f with
      | (1, VBytes bs) =>
          Some (mkAddons (string_of_list_byte bs) (Seed a) (Mode a) (Duration a)
                         (Padding a) (Delay a) (Scheduler a))
      | (2, VBytes bs) =>
          Some (mkAddons (Flow a) bs (Mode a) (Duration a)
                         (Padding a) (Delay a) (Scheduler a))
      | (3, VInt v) =>
          Some (mkAddons (Flow a) (Seed a) (wrap32 v) (Duration a)
                         (Padding a) (Delay a) (Scheduler a))
      | (4, VBytes bs) =>
          Some (mkAddons (Flow a) (Seed a) (Mode a) (string_of_list_byte bs)
                         (Padding a) (Delay a) (Scheduler a))
      | (5, VBytes bs) =>
          option_map (fun p => mkAddons (Flow a) (Seed a) (Mode a) (Duration a)
                                        p (Delay a) (Scheduler a))
                     (merge (mkPaddingConfig 0 0 0 0) set_Padding (Padding a) bs)
      | (6, VBytes bs) =>
          option_map (fun d => mkAddons (Flow a) (Seed a) (Mode a) (Duration a)
                                        (Padding a) d (Scheduler a))
                     (merge (mkDelayConfig false 0 0) set_Delay (Delay a) bs)
      | (7, VBytes bs) =>
          option_map (fun s => mkAddons (Flow a) (Seed a) (Mode a) (Duration a)
                                        (Padding a) (Delay a) s)
                     (merge (mkSchedulerConfig 0) set_Scheduler (Scheduler a) bs)
      | _ => Some a
      end
  end.

(** Modelled from the spec: the deserialization of the addons record, by
    the schema. *)
Definition Unmarshal (bs : list byte) : result Addons :=
  match fields bs with
  | None => Err (newError "proto: cannot parse invalid wire-format data")
  | Some fs =>
      match fold_left set_Addons fs (Some new_Addons) with
      | Some a => Ok a
      | None => Err (newError "proto: cannot parse invalid wire-format data")
      end
  end.

End Pb.

Import Pb.

(* ================================================================= *)
(** ** Package [proxy/vless/encoding] *)

Module Encoding.

(** Modelled from the spec: [vless.XRV], the flow name the spec quotes. *)
Definition XRV : string := "xtls-rprx-vision".

Section Codec.

(** [buf.Size], the capacity of a pooled buffer, a constant of
    [common/buf]. *)
Variable Size : Z.

(** [proto.Marshal] and [proto.Unmarshal] at the addons message, from the
    protobuf library; [Pb.Marshal] and [Pb.Unmarshal] are the instance
    the examples use. *)
Variable Marshal : Addons -> result (list byte).
Variable Unmarshal : list byte -> result Addons.

(** The enum constant [SeedMode_PaddingPlusDelay], from generated code. *)
Variable SeedMode_PaddingPlusDelay : SeedMode.

(** [EncodeHeaderAddons(buffer, addons)]: the buffer after the call and the
    error returned. *)
Definition EncodeHeaderAddons (buffer : Buf.Buffer) (addons : Addons)
  : Buf.Buffer * option error :=
  if String.eqb (Flow addons) XRV || (len (Seed addons) >? 0) then
    match Marshal addons with
    | Err err => (buffer, Some (Base "failed to marshal addons protobuf value" err))
    | Ok bytes =>
        match Buf.WriteByte buffer (to_byte (len bytes)) with
        | (buffer1, Some err) =>
            (buffer1, Some (Base "failed to write addons protobuf length" err))
        | (buffer1, None) =>
            match Buf.Write buffer1 bytes with
            | (buffer2, (_, Some err)) =>
                (buffer2, Some (Base "failed to write addons protobuf value" err))
            | (buffer2, (_, None)) => (buffer2, None)
            end
        end
    end
  else
    match Buf.WriteByte buffer (to_byte 0) with
    | (buffer1, Some err) =>
        (buffer1, Some (Base "failed to write addons protobuf length" err))
    | (buffer1, None) => (buffer1, None)
    end.

(** [DecodeHeaderAddons(buffer, reader)]: the result, and the buffer and
    the reader after the call. *)
Definition DecodeHeaderAddons (buffer : Buf.Buffer) (reader : IO.Reader)
  : result Addons * Buf.Buffer * IO.Reader :=
  let addons := new_Addons in
  let buffer := Buf.Clear buffer in
  match Buf.ReadFullFrom buffer reader 1 with
  | (buffer, reader, (_, Some err)) =>
      (Err (Base "failed to read addons protobuf length" err), buffer, reader)
  | (buffer, reader, (_, None)) =>
      let length := of_byte (Buf.Byte buffer 0) in
      if negb (length =? 0) then
        let buffer := Buf.Clear buffer in
        match Buf.ReadFullFrom buffer reader length with
        | (buffer, reader, (_, Some err)) =>
            (Err (Base "failed to read addons protobuf value" err), buffer, reader)
        | (buffer, reader, (_, None)) =>
            match Unmarshal (Buf.Bytes buffer) with
            | Err err =>
                (Err (Base "failed to unmarshal addons protobuf value" err),
                 buffer, reader)
            | Ok addons => (Ok addons, buffer, reader)
            end
        end
      else (Ok addons, buffer, reader)
  end.

(** *** [MultiLengthPacketWriter] *)

Record MultiLengthPacketWriter (W : Type) : Type := mkMultiLengthPacketWriter
  { MLP_Writer : W }.

Arguments mkMultiLengthPacketWriter {W} _.
Arguments MLP_Writer {W} _.

Definition NewMultiLengthPacketWriter {W : Type} (writer : W)
  : MultiLengthPacketWriter W :=
  mkMultiLengthPacketWriter writer.

(** One turn of the loop of [WriteMultiBuffer]: the buffer [eb] appended
    to [mb2Write] for the element [b], or [None] when the turn ends in
    [continue]. *)
Definition frame (b : Buf.Buffer) : option Buf.Buffer :=
  let length := Buf.Len b in
  if (length =? 0) || (wrap32 (length + 2) >? Size) then None
  else
    let eb := Buf.New Size in
    match Buf.WriteByte eb (to_byte (Z.shiftr length 8)) with
    | (_, Some _) => None
    | (eb, None) =>
        match Buf.WriteByte eb (to_byte length) with
        | (_, Some _) => None
        | (eb, None) =>
            match Buf.Write eb (Buf.Bytes b) with
            | (_, (_, Some _)) => None
            | (eb, (_, None)) => Some eb
            end
        end
    end.

(** The loop: [mb2Write] after all elements of [mb]. *)
Definition frames (mb : Buf.MultiBuffer) : Buf.MultiBuffer :=
  fold_left
    (fun mb2Write b =>
       match frame b with
       | None => mb2Write
       | Some eb => mb2Write ++ [eb]
       end)
    mb [].

(** [MultiLengthPacketWriter.WriteMultiBuffer(mb)]. *)
Definition MultiLengthPacketWriter_WriteMultiBuffer {W : Type} `{Buf.Writer W}
  (w : MultiLengthPacketWriter W) (mb : Buf.MultiBuffer)
  : MultiLengthPacketWriter W * option error :=
  let mb2Write := frames mb in
  if Buf.MultiBuffer_IsEmpty mb2Write then (w, None)
  else
    let '(inner, err) := Buf.WriteMultiBuffer (MLP_Writer w) mb2Write in
    (mkMultiLengthPacketWriter inner, err).

(** *** [LengthPacketWriter] *)

Record LengthPacketWriter (W : Type) : Type := mkLengthPacketWriter
  { LPW_Writer : W;
    LPW_cache : list byte }.

Arguments mkLengthPacketWriter {W} _ _.
Arguments LPW_Writer {W} _.
Arguments LPW_cache {W} _.

Definition NewLengthPacketWriter {W : Type} (writer : W) : LengthPacketWriter W :=
  mkLengthPacketWriter writer [].

(** The contents of [w.cache] when it is handed to [w.Write]. *)
Definition packet (cache : list byte) (mb : Buf.MultiBuffer) : list byte :=
  let length := Buf.MultiBuffer_Len mb in
  let cache := cache ++ [to_byte (Z.shiftr length 8); to_byte length] in
  fold_left (fun cache b => cache ++ Buf.Bytes b) mb cache.

(** [LengthPacketWriter.WriteMultiBuffer(mb)]; the deferred reset of the
    cache runs on every return after the length test. *)
Definition LengthPacketWriter_WriteMultiBuffer {W : Type} `{IO.Writer W}
  (w : LengthPacketWriter W) (mb : Buf.MultiBuffer)
  : LengthPacketWriter W * option error :=
  let length := Buf.MultiBuffer_Len mb in
  if length =? 0 then (w, None)
  else
    match IO.Write (LPW_Writer w) (packet (LPW_cache w) mb) with
    | (inner, (_, Some err)) =>
        (mkLengthPacketWriter inner [], Some (Base "failed to write a packet" err))
    | (inner, (_, None)) => (mkLengthPacketWriter inner [], None)
    end.

(** *** [LengthPacketReader]

    The cache is a slice of length two, here a pair of bytes. *)

Record LengthPacketReader : Type := mkLengthPacketReader
  { LPR_Reader : IO.Reader;
    LPR_cache : byte * byte }.

Definition NewLengthPacketReader (reader : IO.Reader) : LengthPacketReader :=
  mkLengthPacketReader reader (x00, x00).

(** [io.ReadFull(r.Reader, r.cache)]: the cache keeps its old bytes where
    the reader ran short. *)
Definition read_cache (r : LengthPacketReader) : LengthPacketReader * option error :=
  match IO.ReadFull (LPR_Reader r) 2 with
  | (c0 :: c1 :: _, reader, err) => (mkLengthPacketReader reader (c0, c1), err)
  | ([c0], reader, err) => (mkLengthPacketReader reader (c0, snd (LPR_cache r)), err)
  | ([], reader, err) => (mkLengthPacketReader reader (LPR_cache r), err)
  end.

(** The loop [for length > 0] of [ReadMultiBuffer], with the multi-buffer
    [mb] built so far.  Every turn takes at least one byte when [Size] is
    positive; [None] stands for a loop that does not end. *)
Fixpoint read_payload (fuel : nat) (length : Z) (reader : IO.Reader)
  (mb : Buf.MultiBuffer) : option (result Buf.MultiBuffer * IO.Reader) :=
  if length >? 0 then
    match fuel with
    | O => None
    | S fuel' =>
        let size := if length >? Size then Size else length in
        let length := wrap32 (length - size) in
        let b := Buf.New Size in
        match Buf.ReadFullFrom b reader size with
        | (_, reader, (_, Some err)) =>
            Some (Err (Base "failed to read packet payload" err), reader)
        | (b, reader, (_, None)) => read_payload fuel' length reader (mb ++ [b])
        end
    end
  else Some (Ok mb, reader).

(** [LengthPacketReader.ReadMultiBuffer()]. *)
Definition LengthPacketReader_ReadMultiBuffer (r : LengthPacketReader)
  : option (result Buf.MultiBuffer * LengthPacketReader) :=
  match read_cache r with
  | (r, Some err) => Some (Err (Base "failed to read packet length" err), r)
  | (r, None) =>
      let length := Z.lor (Z.shiftl (of_byte (fst (LPR_cache r))) 8)
                          (of_byte (snd (LPR_cache r))) in
      match read_payload (Z.to_nat length) length (LPR_Reader r) [] with
      | None => None
      | Some (res, reader) => Some (res, mkLengthPacketReader reader (LPR_cache r))
      end
  end.

(** *** Seeds *)

(** [PopulateSeed(seed, addons)]: the record [addons] points to after the
    call. *)
Definition PopulateSeed (seed : string) (addons : Addons) : Addons :=
  if nonempty seed then
    mkAddons (Flow addons)
             [x01]
             SeedMode_PaddingPlusDelay
             "0-8"
             (Some (mkPaddingConfig 0 256 900 1400))
             (Some (mkDelayConfig true 100 500))
             (Some (mkSchedulerConfig 600))
  else addons.

(** [CheckSeed(requestAddons, responseAddons)]; the values some messages
    carry along are left out. *)
Definition CheckSeed (requestAddons responseAddons : Addons) : option error :=
  if negb (bytes_Equal (Seed requestAddons) (Seed responseAddons)) then
    Some (newError "Seed bytes not match")
  else if negb (Mode requestAddons =? Mode responseAddons) then
    Some (newError "Mode not match")
  else if negb (String.eqb (Duration requestAddons) (Duration responseAddons)) then
    Some (newError "Duration not match")
  else
    match
      match Padding requestAddons, Padding responseAddons with
      | Some p, Some q =>
          if negb (RegularMin p =? RegularMin q)
             || negb (RegularMax p =? RegularMax q)
             || negb (LongMin p =? LongMin q)
             || negb (LongMax p =? LongMax q)
          then Some (newError "Padding not match")
          else None
      | None, None => None
      | _, _ => Some (newError "Padding of one is nil but the other is not nil")
      end
    with
    | Some err => Some err
    | None =>
        match
          match Delay requestAddons, Delay responseAddons with
          | Some p, Some q =>
              if negb (Bool.eqb (IsRandom p) (IsRandom q))
                 || negb (MinMillis p =? MinMillis q)
                 || negb (MaxMillis p =? MaxMillis q)
              then Some (newError "Delay not match")
              else None
          | None, None => None
          | _, _ => Some (newError "Delay of one is nil but the other is not nil")
          end
        with
        | Some err => Some err
        | None =>
            match Scheduler requestAddons, Scheduler responseAddons with
            | Some p, Some q =>
                if negb (TimeoutMillis p =? TimeoutMillis q)
                then Some (newError "Scheduler not match")
                else None
            | None, None => None
            | _, _ =>
                Some (newError "Scheduler of one is nil but the other is not nil")
            end
        end
    end.

End Codec.

Arguments mkMultiLengthPacketWriter {W} _.
Arguments MLP_Writer {W} _.
Arguments mkLengthPacketWriter {W} _ _.
Arguments LPW_Writer {W} _.
Arguments LPW_cache {W} _.

Section Body.

(** [protocol.RequestCommandUDP], a constant of [common/protocol]. *)
Variable RequestCommandUDP : Z.

(** What the body codec reads of a [protocol.RequestHeader]: its command. *)
Record RequestHeader : Type := mkRequestHeader
  { Command : Z }.

(** The writer [EncodeBodyAddons] returns: a [MultiLengthPacketWriter] over
    the writer it was given, or [buf.NewWriter(writer)], bare or wrapped by
    [proxy.NewVisionWriter]. *)
Inductive BodyWriter (W : Type) : Type :=
| MultiLengthWriter (w : MultiLengthPacketWriter W)
| PlainWriter (writer : W)
| VisionWriter (writer : W).

Arguments MultiLengthWriter {W} w.
Arguments PlainWriter {W} writer.
Arguments VisionWriter {W} writer.

(** [EncodeBodyAddons(writer, request, requestAddons, state, context)]. *)
Definition EncodeBodyAddons {W : Type} (writer : W) (request : RequestHeader)
  (requestAddons : Addons) : BodyWriter W :=
  if Command request =? RequestCommandUDP then
    MultiLengthWriter (NewMultiLengthPacketWriter writer)
  else if String.eqb (Flow requestAddons) XRV then VisionWriter writer
  else PlainWriter writer.

(** The reader [DecodeBodyAddons] returns: a [LengthPacketReader] over the
    reader it was given, or [buf.NewReader(reader)]. *)
Inductive BodyReader : Type :=
| LengthReader (r : LengthPacketReader)
| PlainReader (reader : IO.Reader).

(** [DecodeBodyAddons(reader, request, addons)]. *)
Definition DecodeBodyAddons (reader : IO.Reader) (request : RequestHeader)
  (addons : Addons) : BodyReader :=
  if Command request =? RequestCommandUDP then
    LengthReader (NewLengthPacketReader reader)
  else PlainReader reader.

End Body.

Arguments MultiLengthWriter {W} w.
Arguments PlainWriter {W} writer.
Arguments VisionWriter {W} writer.

End Encoding.

(* ================================================================= *)
(** ** Package [transport/internet/splithttp] *)

Module Splithttp.

(** An HTTP response as [Dial] looks at it: the status code, the status
    line and the body, a stream of bytes. *)
Record Response : Type := mkResponse
  { StatusCode : Z;
    Status : string;
    Body : IO.Reader }.

(** What [Dial] reads from its arguments: whether TLS settings are
    present, the configured host and normalized path, the upload limits
    and the address of the destination. *)
Record Settings : Type := mkSettings
  { hasTLS : bool;
    Host : string;
    NormalizedPath : string;
    NormalizedMaxConcurrentUploads : Z;
    NormalizedMaxUploadSize : Z;
    NetAddr : string }.

(** What the outside world answers: the session id drawn, whether the
    request can be built, the outcome of the download GET and the
    addresses the connection trace reports. *)
Record World : Type := mkWorld
  { sessionId : string;
    NewRequest : string -> string -> option error;
    Do : string -> string -> result Response;
    remoteAddr : option string;
    localAddr : option string }.

(** [requestURL.String()] for a URL made of a scheme, a host and a path;
    escaping is left out. *)
Definition URL_String (scheme host path : string) : string :=
  String.append scheme (String.append "://" (String.append host path)).

(** The upload goroutine as [Dial] starts it: the prefix of its URLs, the
    size of its semaphore and the size limit of its pipe. *)
Record Uploader : Type := mkUploader
  { uploadUrl : string;
    maxConcurrentUploads : Z;
    maxUploadSize : Z }.

(** The connection returned: its reader is the response body as the
    dialer left it. *)
Record splitConn : Type := mkSplitConn
  { reader : IO.Reader;
    conn_remoteAddr : option string;
    conn_localAddr : option string }.

(** [Dial(ctx, dest, streamSettings)]: the result, and the upload
    goroutine when the call got as far as starting it. *)
Definition Dial (world : World) (settings : Settings)
  : result splitConn * option Uploader :=
  let maxConcurrentUploads := NormalizedMaxConcurrentUploads settings in
  let maxUploadSize := NormalizedMaxUploadSize settings in
  let scheme := if hasTLS settings then "https" else "http" in
  let host := if String.eqb (Host settings) "" then NetAddr settings
              else Host settings in
  let requestURL := URL_String scheme host (NormalizedPath settings) in
  let url := String.append requestURL (String.append "?session=" (sessionId world)) in
  match NewRequest world "GET" url with
  | Some err => (Err err, None)
  | None =>
      match Do world "GET" url with
      | Err err => (Err err, None)
      | Ok downResponse =>
          if negb (StatusCode downResponse =? 200) then
            (Err (newError (String.append "invalid status code on download:"
                                          (Status downResponse))),
             None)
          else
            let uploadUrl := String.append url "&seq=" in
            let uploader := mkUploader uploadUrl maxConcurrentUploads maxUploadSize in
            match IO.ReadFull (Body downResponse) 2 with
            | (_, _, Some _) =>
                (Err (newError "failed to read initial response"), Some uploader)
            | (_, body, None) =>
                (Ok (mkSplitConn body (remoteAddr world) (localAddr world)),
                 Some uploader)
            end
      end
  end.

(** *** The upload goroutine

    The producer loop and the tasks it starts, as a transition system over
    the interleavings of their steps. *)

(** Modelled from the spec: package [common/signal/semaphore] is not among
    the sources.  A counting semaphore sized to [n] holds [n] permits;
    [Wait] takes one when there is one and [Signal] gives one back. *)
Definition semaphore_New (n : Z) : Z := n.

(** Where the producer stands: about to read the pipe, waiting for a
    permit with a chunk in hand, holding the permit before the [go]
    statement, or out of its loop. *)
Inductive Producer : Type :=
| AtRead
| AtWait (chunk : Buf.MultiBuffer)
| AtLaunch (chunk : Buf.MultiBuffer)
| Exited.

(** An upload task in flight: the URL and the chunk it captured. *)
Record Task : Type := mkTask
  { task_url : string;
    task_chunk : Buf.MultiBuffer }.

(** How an upload task ends. *)
Inductive Outcome : Type :=
| RequestFailed (err : error)
| DoFailed (err : error)
| BadStatus (status : string)
| Succeeded.

Record State : Type := mkState
  { requestsLimiter : Z;
    requestCounter : Z;
    producer : Producer;
    inflight : list Task;
    posts : list string;
    logged : list error }.

Inductive Event : Type :=
| PipeRead (chunk : Buf.MultiBuffer)
| PipeClosed
| Acquire
| Launch
| TaskExit (i : nat) (o : Outcome).

Definition start (u : Uploader) : State :=
  mkState (semaphore_New (maxConcurrentUploads u)) 0 AtRead [] [] [].

(** What a task writes to the log on its way out. *)
Definition task_log (o : Outcome) : list error :=
  match o with
  | RequestFailed err => [Base "failed to send upload" err]
  | DoFailed err => [Base "failed to send upload" err]
  | BadStatus status =>
      [newError (String.append "failed to send upload, bad status code:" status)]
  | Succeeded => []
  end.

(** Removing the element at index [i]. *)
Fixpoint remove_nth {A : Type} (i : nat) (l : list A) : list A :=
  match i, l with
  | _, [] => []
  | O, _ :: l' => l'
  | S i', x :: l' => x :: remove_nth i' l'
  end.

(** One step; [None] when the step cannot be taken in that state. *)
Definition step (u : Uploader) (s : State) (e : Event) : option State :=
  match e, producer s with
  | PipeRead chunk, AtRead =>
      Some (mkState (requestsLimiter s) (requestCounter s) (AtWait chunk)
                    (inflight s) (posts s) (logged s))
  | PipeClosed, AtRead =>
      Some (mkState (requestsLimiter s) (requestCounter s) Exited
                    (inflight s) (posts s) (logged s))
  | Acquire, AtWait chunk =>
      if 0 <? requestsLimiter s then
        Some (mkState (requestsLimiter s - 1) (requestCounter s) (AtLaunch chunk)
                      (inflight s) (posts s) (logged s))
      else None
  | Launch, AtLaunch chunk =>
      let url := String.append (uploadUrl u) (FormatInt (requestCounter s)) in
      Some (mkState (requestsLimiter s) (wrap64 (requestCounter s + 1)) AtRead
                    (inflight s ++ [mkTask url chunk]) (posts s ++ [url])
                    (logged s))
  | TaskExit i o, _ =>
      match nth_error (inflight s) i with
      | None => None
      | Some _ =>
          if requestsLimiter s <? maxConcurrentUploads u then
            Some (mkState (requestsLimiter s + 1) (requestCounter s) (producer s)
                          (remove_nth i (inflight s)) (posts s)
                          (logged s ++ task_log o))
          else None
      end
  | _, _ => None
  end.

(** A run: the steps of a list of events, one after the other. *)
Fixpoint run (u : Uploader) (s : State) (es : list Event) : option State :=
  match es with
  | [] => Some s
  | e :: es' =>
      match step u s e with
      | None => None
      | Some s' => run u s' es'
      end
  end.

(** The permits held: one by each task in flight, one by the producer
    between [Wait] and the [go] statement. *)
Definition held (s : State) : Z :=
  len (inflight s) + match producer s with AtLaunch _ => 1 | _ => 0 end.

(** *** The HTTP client of a dial *)

(** The key of [globalDialerMap]: the destination and the address of the
    stream settings. *)
Record dialerConf : Type := mkDialerConf
  { conf_Destination : string;
    conf_StreamSettings : Z }.

Definition dialerConf_eqb (a b : dialerConf) : bool :=
  String.eqb (conf_Destination a) (conf_Destination b)
  && (conf_StreamSettings a =? conf_StreamSettings b).

(** What [getHTTPClient] reads of the stream settings: their address, the
    TLS settings [tls.ConfigFromStreamSettings] finds in them, with the
    name of the fingerprint, and the socket settings. *)
Record MemoryStreamConfig : Type := mkMemoryStreamConfig
  { settings_address : Z;
    settings_TLS : option string;
    SocketSettings : Z }.

(** The round tripper of a client: an [http2.Transport] with its
    [DialTLSContext], or an [http.Transport] with [DialTLSContext] and
    [DialContext]; all of them run the [dialContext] of the call. *)
Inductive Transport : Type :=
| HTTP2_Transport
| HTTP_Transport.

(** An [*http.Client]: its address, its transport, and the destination and
    the stream settings its [dialContext] has captured. *)
Record Client : Type := mkClient
  { client_address : Z;
    client_Transport : Transport;
    client_dest : string;
    client_settings : MemoryStreamConfig }.

(** The package variables: [globalDialerMap], nil before the first call,
    and the next address the allocator hands out. *)
Record Globals : Type := mkGlobals
  { globalDialerMap : option (list (dialerConf * Client));
    next_address : Z }.

(** [m[key]] of a Go map kept as a list of bindings, one per key. *)
Fixpoint map_lookup (m : list (dialerConf * Client)) (key : dialerConf)
  : option Client :=
  match m with
  | [] => None
  | (k, v) :: m' => if dialerConf_eqb k key then Some v else map_lookup m' key
  end.

(** [m[key] = v]. *)
Fixpoint map_store (m : list (dialerConf * Client)) (key : dialerConf)
  (v : Client) : list (dialerConf * Client) :=
  match m with
  | [] => [(key, v)]
  | (k, v') :: m' =>
      if dialerConf_eqb k key then (key, v) :: m'
      else (k, v') :: map_store m' key v
  end.

(** [getHTTPClient(ctx, dest, streamSettings)]: the client returned and the
    package variables after the call.  The lookup in the map is commented
    out in the source. *)
Definition getHTTPClient (g : Globals) (dest : string)
  (streamSettings : MemoryStreamConfig) : Client * Globals :=
  let m := match globalDialerMap g with
           | None => []
           | Some m => m
           end in
  let tlsConfig := settings_TLS streamSettings in
  let httpTransport := match tlsConfig with
                       | Some _ => HTTP2_Transport
                       | None => HTTP_Transport
                       end in
  let client := mkClient (next_address g) httpTransport dest streamSettings in
  (client,
   mkGlobals
     (Some (map_store m (mkDialerConf dest (settings_address streamSettings))
                      client))
     (next_address g + 1)).

(** A connection as [dialContext] returns it: the one the system dialer
    made, bare, or wrapped by [tls.Client], or by [tls.UClient] with a
    fingerprint. *)
Inductive Conn : Type :=
| SystemConn (id : Z)
| TLS_Client (id : Z)
| TLS_UClient (id : Z) (fingerprint : string).

(** What the dialing meets: the system dialer, the lookup of a fingerprint
    by name, and the handshake of a fingerprinted client. *)
Record Network : Type := mkNetwork
  { DialSystem : string -> Z -> result Z;
    GetFingerprint : string -> option string;
    HandshakeContext : Z -> string -> option error }.

(** The closure [dialContext] of [getHTTPClient], as a client runs it.
    [GetTLSConfig] of [transport/internet/tls] returns a configuration,
    never nil, so [gotlsConfig] is there exactly when the TLS settings
    are. *)
Definition dialContext (net : Network) (client : Client) : result Conn :=
  match DialSystem net (client_dest client)
                   (SocketSettings (client_settings client)) with
  | Err err => Err err
  | Ok conn =>
      match settings_TLS (client_settings client) with
      | Some name =>
          match GetFingerprint net name with
          | Some fingerprint =>
              match HandshakeContext net conn fingerprint with
              | Some err => Err err
              | None => Ok (TLS_UClient conn fingerprint)
              end
          | None => Ok (TLS_Client conn)
          end
      | None => Ok (SystemConn conn)
      end
  end.

End Splithttp.

(* ================================================================= *)
(** ** Package [proxy/wireguard] *)

Module Wireguard.

Inductive Level : Type := AtError | AtDebug.

(** The two ends of a dispatcher link. *)
Record Link : Type := mkLink
  { Reader : Z;
    Writer : Z }.

(** The timeouts of policy level 0. *)
Record Timeouts : Type := mkTimeouts
  { ConnectionIdle : Z;
    UplinkOnly : Z;
    DownlinkOnly : Z }.

(** What the function does that others can see. *)
Inductive Event : Type :=
| Log (level : Level) (msg : string)
| CancelAfterInactivity (timeout : Z)
| Dispatch (dest : string)
| CopyRequest (writer : Z)
| CopyResponse (reader : Z)
| SetTimeout (timeout : Z)
| Close (writer : Z)
| Interrupt (endpoint : Z)
| Cancel
| ConnClose.

(** How the call ends: it returns, or it panics on a nil pointer. *)
Inductive Outcome : Type :=
| Returned
| Panicked.

(** What the surroundings answer: the dispatcher (nil or not) with its
    answer for a destination, the timeouts, and the outcome of the two
    copies. *)
Record World : Type := mkWorld
  { dispatcher : option (string -> option Link * option error);
    timeouts : Timeouts;
    requestCopy : option error;
    responseCopy : option error }.

(** [requestDonePost]: the request half, with its deferred timer change
    and, on success, the closing of [link.Writer]. *)
Definition requestDonePost (w : World) (link : Link) : list Event * option error :=
  match requestCopy w with
  | Some err =>
      ([CopyRequest (Writer link); SetTimeout (DownlinkOnly (timeouts w))],
       Some (Base "failed to transport all TCP request" err))
  | None =>
      ([CopyRequest (Writer link); SetTimeout (DownlinkOnly (timeouts w));
        Close (Writer link)],
       None)
  end.

(** [responseDone]: the response half. *)
Definition responseDone (w : World) (link : Link) : list Event * option error :=
  ([CopyResponse (Reader link); SetTimeout (UplinkOnly (timeouts w))],
   match responseCopy w with
   | Some err => Some (Base "failed to transport all TCP response" err)
   | None => None
   end).

(** [task.Run(ctx, requestDonePost, responseDone)]: both halves run; the
    events of the two are listed one half after the other, and the error
    is that of a half that failed. *)
Definition task_Run (w : World) (link : Link) : list Event * option error :=
  let '(t1, e1) := requestDonePost w link in
  let '(t2, e2) := responseDone w link in
  (t1 ++ t2, match e1 with Some e => Some e | None => e2 end).

(** [forwardConnection(info, dest, conn)]: the events in order, the
    deferred calls last, and how the call ends. *)
Definition forwardConnection (w : World) (dest : string) : list Event * Outcome :=
  match dispatcher w with
  | None => ([Log AtError "unexpected: dispatcher == nil"], Returned)
  | Some dispatch =>
      let timer := [CancelAfterInactivity (ConnectionIdle (timeouts w))] in
      let '(link, err) := dispatch dest in
      let logged := match err with
                    | Some _ => [Log AtError "dispatch connection"]
                    | None => []
                    end in
      match link with
      | None =>
          (timer ++ [Dispatch dest] ++ logged ++ [Cancel; ConnClose], Panicked)
      | Some link =>
          let '(halves, err) := task_Run w link in
          let ending := match err with
                        | Some _ =>
                            [Interrupt (Reader link); Interrupt (Writer link);
                             Log AtDebug "connection ends"]
                        | None => []
                        end in
          (timer ++ [Dispatch dest] ++ logged ++ halves ++ ending
           ++ [Cancel; ConnClose],
           Returned)
      end
  end.

(** *** The two forwarders of [setConnectionHandler] *)

(** What a forwarder reads of [r.ID()]: the two ends of the flow. *)
Record TransportEndpointID : Type := mkTransportEndpointID
  { LocalPort : Z;
    LocalAddress : string;
    RemotePort : Z;
    RemoteAddress : string }.

(** Modelled from the spec: [net.TCPDestination(address, port)] of
    [common/net], kept as its text, network first. *)
Definition TCPDestination (address : string) (port : Z) : string :=
  String.append "tcp:" (String.append address (String.append ":" (FormatInt port))).

(** Modelled from the spec: [net.UDPDestination(address, port)] of
    [common/net], kept as its text, network first. *)
Definition UDPDestination (address : string) (port : Z) : string :=
  String.append "udp:" (String.append address (String.append ":" (FormatInt port))).

(** What a forwarder does that others can see: its own calls, and the
    events of the [forwardConnection] it runs. *)
Inductive HandlerEvent : Type :=
| Logged (level : Level) (msg : string)
| Complete (sendReset : bool)
| SetKeepAlive (v : bool)
| SetLinger (enabled : bool) (seconds : Z)
| Forward (e : Event)
| EndpointClose.

(** The goroutine of the TCP forwarder for a request with flow [id];
    [created] is what [r.CreateEndpoint] answers, nil or the text of its
    error.  The deferred [ep.Close] runs last, also when
    [forwardConnection] panics. *)
Definition tcpForwarder (w : World) (id : TransportEndpointID)
  (created : option string) : list HandlerEvent * Outcome :=
  match created with
  | Some err => ([Logged AtError err; Complete true], Returned)
  | None =>
      let '(events, outcome) :=
        forwardConnection w (TCPDestination (LocalAddress id) (LocalPort id)) in
      ([Complete false; SetKeepAlive true] ++ map Forward events
       ++ [EndpointClose],
       outcome)
  end.

(** The goroutine of the UDP forwarder. *)
Definition udpForwarder (w : World) (id : TransportEndpointID)
  (created : option string) : list HandlerEvent * Outcome :=
  match created with
  | Some err => ([Logged AtError err], Returned)
  | None =>
      let '(events, outcome) :=
        forwardConnection w (UDPDestination (LocalAddress id) (LocalPort id)) in
      ([SetLinger true 15] ++ map Forward events ++ [EndpointClose],
       outcome)
  end.

(** *** [Process] *)

(** An element of [readQueue]: the buffer of the receiver that waits, the
    number of bytes, the endpoint and the error [Process] leaves in it, and
    whether its waiter has been released. *)
Record netReadInfo : Type := mkNetReadInfo
  { buff : list byte;
    bytes : Z;
    endpoint : option Z;
    err : option error;
    done : bool }.

(** What the call meets: what [ParseEndpoint] answers for the remote
    address, what the packet reader of the connection returns call after
    call (a call after the last one listed never returns), the elements
    of [readQueue] in the order the channel hands them out, and whether the
    channel is closed once they are taken. *)
Record Inbound : Type := mkInbound
  { ParseEndpoint : result Z;
    reads : list (Buf.MultiBuffer * option error);
    readQueue : list netReadInfo;
    queueClosed : bool }.

(** How [Process] ends: it returns its error, or it waits for ever. *)
Inductive Ending : Type :=
| Return (e : option error)
| Blocked.

(** What a call of [Process] leaves: [s.info.dispatcher], how it ended, the
    elements it handed back, the elements still in the queue, and the
    connection the parsed endpoint holds ([None] for nil, and when no
    endpoint was parsed). *)
Record Processed : Type := mkProcessed
  { info_dispatcher : Z;
    ending : Ending;
    delivered : list netReadInfo;
    remaining : list netReadInfo;
    nep_conn : option Z }.

Section Process.

(** [payload.Read(data)] of [common/buf]: the contents of [data] after the
    call, the count and the error. *)
Variable payload_Read : Buf.Buffer -> list byte -> list byte * Z * option error.

(** [errors.Is(err, target)]. *)
Variable errors_Is : error -> error -> bool.

(** Lines 126 to 131: one payload read into one element of the queue. *)
Definition fill (nep : Z) (payload : Buf.Buffer) (v : netReadInfo) : netReadInfo :=
  let '(data, i, e) := payload_Read payload (buff v) in
  mkNetReadInfo data i (Some nep) e true.

(** The test of line 132. *)
Definition is_EOF (v : netReadInfo) : bool :=
  match err v with
  | Some e => errors_Is e IO.EOF
  | None => false
  end.

(** The inner loop over the payloads of one multi-buffer.  The last
    component is [None] when the loop ran to its end, and otherwise how
    [Process] ends, with whether [nep.conn] was set to nil. *)
Fixpoint range_mpayload (nep : Z) (closed : bool) (mpayload : list Buf.Buffer)
  (queue : list netReadInfo)
  : list netReadInfo * list netReadInfo * option (Ending * bool) :=
  match mpayload with
  | [] => ([], queue, None)
  | payload :: rest =>
      match queue with
      | [] => ([], [], Some (if closed then Return None else Blocked, false))
      | v :: queue' =>
          let v' := fill nep payload v in
          if is_EOF v' then ([v'], queue', Some (Return None, true))
          else
            let '(out, later, stop) := range_mpayload nep closed rest queue' in
            (v' :: out, later, stop)
      end
  end.

(** The outer loop over the calls of [reader.ReadMultiBuffer]. *)
Fixpoint read_loop (nep : Z) (closed : bool)
  (calls : list (Buf.MultiBuffer * option error)) (queue : list netReadInfo)
  : list netReadInfo * list netReadInfo * (Ending * bool) :=
  match calls with
  | [] => ([], queue, (Blocked, false))
  | (_, Some e) :: _ => ([], queue, (Return (Some e), false))
  | (mpayload, None) :: calls' =>
      match range_mpayload nep closed mpayload queue with
      | (out, later, Some stop) => (out, later, stop)
      | (out, later, None) =>
          let '(out', later', stop) := read_loop nep closed calls' later in
          (out ++ out', later', stop)
      end
  end.

(** [s.Process(ctx, network, conn, dispatcher)]. *)
Definition Process (inb : Inbound) (conn : Z) (dispatcher : Z) : Processed :=
  match ParseEndpoint inb with
  | Err e => mkProcessed dispatcher (Return (Some e)) [] (readQueue inb) None
  | Ok nep =>
      let '(out, later, (how, cleared)) :=
        read_loop nep (queueClosed inb) (reads inb) (readQueue inb) in
      mkProcessed dispatcher how out later
                  (if cleared then None else Some conn)
  end.

End Process.

End Wireguard.

(* ================================================================= *)
(** ** The vocabulary of the statements *)

(** What it means for two sub-records to disagree: exactly one of them is
    there, or both are and some compared field differs. *)
Definition Padding_differs (p q : option PaddingConfig) : Prop :=
  match p, q with
  | Some x, Some y =>
      RegularMin x <> RegularMin y \/ RegularMax x <> RegularMax y
      \/ LongMin x <> LongMin y \/ LongMax x <> LongMax y
  | None, None => False
  | _, _ => True
  end.

Definition Delay_differs (p q : option DelayConfig) : Prop :=
  match p, q with
  | Some x, Some y =>
      IsRandom x <> IsRandom y \/ MinMillis x <> MinMillis y
      \/ MaxMillis x <> MaxMillis y
  | None, None => False
  | _, _ => True
  end.

Definition Scheduler_differs (p q : option SchedulerConfig) : Prop :=
  match p, q with
  | Some x, Some y => TimeoutMillis x <> TimeoutMillis y
  | None, None => False
  | _, _ => True
  end.

Definition mismatch (a b : Addons) : Prop :=
  Seed a <> Seed b \/ Mode a <> Mode b \/ Duration a <> Duration b
  \/ Padding_differs (Padding a) (Padding b)
  \/ Delay_differs (Delay a) (Delay b)
  \/ Scheduler_differs (Scheduler a) (Scheduler b).

(** The three sub-record tests of [CheckSeed], one at a time. *)
Definition check_Padding (p q : option PaddingConfig) : option error :=
  match p, q with
  | Some p, Some q =>
      if negb (RegularMin p =? RegularMin q)
         || negb (RegularMax p =? RegularMax q)
         || negb (LongMin p =? LongMin q)
         || negb (LongMax p =? LongMax q)
      then Some (newError "Padding not match")
      else None
  | None, None => None
  | _, _ => Some (newError "Padding of one is nil but the other is not nil")
  end.

Definition check_Delay (p q : option DelayConfig) : option error :=
  match p, q with
  | Some p, Some q =>
      if negb (Bool.eqb (IsRandom p) (IsRandom q))
         || negb (MinMillis p =? MinMillis q)
         || negb (MaxMillis p =? MaxMillis q)
      then Some (newError "Delay not match")
      else None
  | None, None => None
  | _, _ => Some (newError "Delay of one is nil but the other is not nil")
  end.

Definition check_Scheduler (p q : option SchedulerConfig) : option error :=
  match p, q with
  | Some p, Some q =>
      if negb (TimeoutMillis p =? TimeoutMillis q)
      then Some (newError "Scheduler not match")
      else None
  | None, None => None
  | _, _ => Some (newError "Scheduler of one is nil but the other is not nil")
  end.

(** The record [PopulateSeed] leaves behind for a seed that is not empty. *)
Definition populated (mode : SeedMode) (a : Addons) : Addons :=
  mkAddons (Flow a) [x01] mode "0-8"
           (Some (mkPaddingConfig 0 256 900 1400))
           (Some (mkDelayConfig true 100 500))
           (Some (mkSchedulerConfig 600)).

(** A buffer has room for [n] more bytes. *)
Definition has_room (b : Buf.Buffer) (n : Z) : Prop :=
  Buf.end_ b + n <= Buf.v_len b.

(** The buffer [b] with the bytes [bs] appended. *)
Definition appended (b : Buf.Buffer) (bs : list byte) : Buf.Buffer :=
  Buf.mkBuffer (Buf.v_len b) (Buf.start b) (Buf.payload b ++ bs).

(** The elements [WriteMultiBuffer] keeps. *)
Definition retained (Size : Z) (b : Buf.Buffer) : bool :=
  negb ((Buf.Len b =? 0) || (Buf.Len b + 2 >? Size)).

(** The fresh buffer made for a kept element: the two bytes of its length,
    high byte first, then its bytes. *)
Definition framed (Size : Z) (b : Buf.Buffer) : Buf.Buffer :=
  Buf.mkBuffer Size 0
    (to_byte (Z.shiftr (Buf.Len b) 8) :: to_byte (Buf.Len b) :: Buf.Bytes b).

(** The lengths an [int32] can take part in [length+2] without wrapping. *)
Definition int32_len (b : Buf.Buffer) : Prop := Buf.Len b + 2 < 2 ^ 31.

(** A byte sequence cut into pieces of [Size] bytes, the last one possibly
    shorter. *)
Fixpoint chunks_fuel (fuel : nat) (Size : Z) (bs : list byte) : list (list byte) :=
  match fuel, bs with
  | S fuel', _ :: _ =>
      firstn (Z.to_nat Size) bs :: chunks_fuel fuel' Size (skipn (Z.to_nat Size) bs)
  | _, _ => []
  end.

Definition chunks (Size : Z) (bs : list byte) : list (list byte) :=
  chunks_fuel (List.length bs) Size bs.

(** The pooled buffer a chunk is read into. *)
Definition fresh (Size : Z) (bs : list byte) : Buf.Buffer := Buf.mkBuffer Size 0 bs.

(** The test that opens [EncodeHeaderAddons]. *)
Definition carries_addons (a : Addons) : Prop :=
  Flow a = Encoding.XRV \/ Seed a <> [].

(** The URL of the download GET. *)
Definition download_url (world : Splithttp.World) (settings : Splithttp.Settings)
  : string :=
  String.append
    (Splithttp.URL_String
       (if Splithttp.hasTLS settings then "https" else "http")
       (if String.eqb (Splithttp.Host settings) "" then Splithttp.NetAddr settings
        else Splithttp.Host settings)
       (Splithttp.NormalizedPath settings))
    (String.append "?session=" (Splithttp.sessionId world)).

(** The upload goroutine [Dial] starts once the status is 200. *)
Definition uploader_of (world : Splithttp.World) (settings : Splithttp.Settings)
  : Splithttp.Uploader :=
  Splithttp.mkUploader
    (String.append (download_url world settings) "&seq=")
    (Splithttp.NormalizedMaxConcurrentUploads settings)
    (Splithttp.NormalizedMaxUploadSize settings).

(** The URL of the upload with sequence number [n]. *)
Definition post_url (u : Splithttp.Uploader) (n : nat) : string :=
  String.append (Splithttp.uploadUrl u) (FormatInt (Z.of_nat n)).

(** The same, with the counter an [int64]. *)
Definition post_url64 (u : Splithttp.Uploader) (n : nat) : string :=
  String.append (Splithttp.uploadUrl u) (FormatInt (wrap64 (Z.of_nat n))).

(** What holds of every state the goroutine reaches: permits are neither
    lost nor made, and the URLs launched so far are numbered from zero. *)
Record reachable_inv (u : Splithttp.Uploader) (s : Splithttp.State) : Prop :=
  { inv_permits :
      Splithttp.requestsLimiter s + Splithttp.held s
      = Splithttp.maxConcurrentUploads u;
    inv_counter :
      Splithttp.requestCounter s = wrap64 (len (Splithttp.posts s));
    inv_posts :
      Splithttp.posts s
      = map (post_url64 u) (seq 0 (List.length (Splithttp.posts s))) }.

(** The world [w] with a dispatcher that answers [dest] with the same
    link and no error. *)
Definition without_error (w : Wireguard.World) (l : option Wireguard.Link)
  : Wireguard.World :=
  Wireguard.mkWorld (Some (fun _ => (l, None))) (Wireguard.timeouts w)
    (Wireguard.requestCopy w) (Wireguard.responseCopy w).

(** The record [a] with its flow replaced. *)
Definition with_Flow (flow : string) (a : Addons) : Addons :=
  mkAddons flow (Seed a) (Mode a) (Duration a) (Padding a) (Delay a) (Scheduler a).

(** A caller that reads [n] packets one after the other: the multi-buffers
    read and the reader left, or [None] as soon as a call fails. *)
Fixpoint read_packets (Size : Z) (n : nat) (r : Encoding.LengthPacketReader)
  : option (list Buf.MultiBuffer * Encoding.LengthPacketReader) :=
  match n with
  | O => Some ([], r)
  | S n' =>
      match Encoding.LengthPacketReader_ReadMultiBuffer Size r with
      | Some (Ok mb, r') =>
          match read_packets Size n' r' with
          | Some (mbs, r'') => Some (mb :: mbs, r'')
          | None => None
          end
      | _ => None
      end
  end.

(** A caller that writes the multi-buffers of a list one after the other,
    stopping at the first error. *)
Fixpoint write_packets {W : Type} `{IO.Writer W}
  (w : Encoding.LengthPacketWriter W) (mbs : list Buf.MultiBuffer)
  : Encoding.LengthPacketWriter W * option error :=
  match mbs with
  | [] => (w, None)
  | mb :: mbs' =>
      match Encoding.LengthPacketWriter_WriteMultiBuffer w mb with
      | (w', Some err) => (w', Some err)
      | (w', None) => write_packets w' mbs'
      end
  end.

(** A packet on the wire: the two bytes of the length of its payload, high
    byte first, and the payload. *)
Definition on_wire (bs : list byte) : list byte :=
  to_byte (Z.shiftr (len bs) 8) :: to_byte (len bs) :: bs.

(** The multi-buffers that hold at least one byte. *)
Definition holds_bytes (mb : Buf.MultiBuffer) : bool :=
  negb (len (Buf.MultiBuffer_Bytes mb) =? 0).

(** The map of clients, empty while [globalDialerMap] is nil. *)
Definition dialer_map (g : Splithttp.Globals)
  : list (Splithttp.dialerConf * Splithttp.Client) :=
  match Splithttp.globalDialerMap g with
  | None => []
  | Some m => m
  end.

(** Every client the map holds was allocated before the next address. *)
Definition allocated (g : Splithttp.Globals) : Prop :=
  forall key c,
    Splithttp.map_lookup (dialer_map g) key = Some c ->
    Splithttp.client_address c < Splithttp.next_address g.

(** The events of [forwardConnection] between the dispatch and the
    deferred calls. *)
Definition inner (e : Wireguard.Event) : bool :=
  match e with
  | Wireguard.Log _ _ | Wireguard.CopyRequest _ | Wireguard.CopyResponse _
  | Wireguard.SetTimeout _ | Wireguard.Close _ | Wireguard.Interrupt _ => true
  | Wireguard.CancelAfterInactivity _ | Wireguard.Dispatch _
  | Wireguard.Cancel | Wireguard.ConnClose => false
  end.

(** The events of a forwarder that come from [forwardConnection], none of
    them its deferred [conn.Close]. *)
Definition forwarded_inner (e : Wireguard.HandlerEvent) : bool :=
  match e with
  | Wireguard.Forward Wireguard.ConnClose => false
  | Wireguard.Forward _ => true
  | _ => false
  end.

(** Calls of the packet reader that succeed with the multi-buffers given. *)
Definition succeed (mbs : list Buf.MultiBuffer)
  : list (Buf.MultiBuffer * option error) :=
  map (fun mb => (mb, @None error)) mbs.

(** The elements of the queue once payload after payload has been read
    into them, in order. *)
Definition handed (Read : Buf.Buffer -> list byte -> list byte * Z * option error)
  (nep : Z) (payloads : list Buf.Buffer) (queue : list Wireguard.netReadInfo)
  : list Wireguard.netReadInfo :=
  map (fun pv => Wireguard.fill Read nep (fst pv) (snd pv))
      (combine payloads queue).

(** None of those elements reports the end of the stream. *)
Definition quiet (Read : Buf.Buffer -> list byte -> list byte * Z * option error)
  (Is : error -> error -> bool)
  (nep : Z) (payloads : list Buf.Buffer) (queue : list Wireguard.netReadInfo)
  : bool :=
  forallb (fun v => negb (Wireguard.is_EOF Is v)) (handed Read nep payloads queue).

(* ================================================================= *)
(** ** Examples *)

(** A datagram batch over buffers of capacity eight: an empty element, one
    of three bytes, one of seven (too long by one) and one of six. *)
Definition batch_example : Buf.MultiBuffer :=
  [ Buf.mkBuffer 8 0 [];
    Buf.mkBuffer 8 0 [x61; x62; x63];
    Buf.mkBuffer 8 0 [x31; x32; x33; x34; x35; x36; x37];
    Buf.mkBuffer 8 1 [x41; x42; x43; x44; x45; x46] ].

(** Seven bytes in two buffers, sent over buffers of capacity four. *)
Definition datagram_example : Buf.MultiBuffer :=
  [ Buf.mkBuffer 4 0 [x61; x62; x63];
    Buf.mkBuffer 4 0 [x64; x65; x66; x67] ].

(** A request that asks for the vision flow, one with no addons at all,
    and one whose seed of 253 bytes serializes to 256 bytes. *)
Definition vision_example : Addons :=
  mkAddons Encoding.XRV [] 0 "" None None None.

Definition oversized_example : Addons :=
  mkAddons "" (repeat x00 253) 0 "" None None None.

(** The addons a peer answers with, before its seed is populated. *)
Definition response_example : Addons :=
  mkAddons "" [x07; x08] 5 "1-2" (Some (mkPaddingConfig 1 2 3 4)) None None.

(** The serialization of [vision_example]: field 1, sixteen bytes. *)
Definition vision_bytes : list byte :=
  [x0a; x10; x78; x74; x6c; x73; x2d; x72; x70; x72; x78; x2d; x76; x69;
   x73; x69; x6f; x6e].

(** The world of a dial whose download GET is answered by [resp]. *)
Definition world_example (resp : Splithttp.Response) : Splithttp.World :=
  Splithttp.mkWorld "6ba7b810-9dad-11d1-80b4-00c04fd430c8"
    (fun _ _ => None) (fun _ _ => Ok resp)
    (Some "203.0.113.5:443") (Some "192.0.2.1:50000").

Definition settings_example : Splithttp.Settings :=
  Splithttp.mkSettings true "example.com" "/split/" 2 1000000 "203.0.113.5:443".

Definition uploader_example : Splithttp.Uploader :=
  Splithttp.mkUploader
    "https://example.com/split/?session=6ba7b810-9dad-11d1-80b4-00c04fd430c8&seq="
    2 1000000.

(** The answers of scenarios S2, S3 and S1 of the specification. *)
Definition not_found : Splithttp.Response :=
  Splithttp.mkResponse 404 "404 Not Found" [].

Definition one_byte : Splithttp.Response :=
  Splithttp.mkResponse 200 "200 OK" [x6f].

Definition ok_hello : Splithttp.Response :=
  Splithttp.mkResponse 200 "200 OK" [x6f; x6b; x68; x65; x6c; x6c; x6f].

(** A session with two permits: three chunks are read and launched, the
    first upload is refused by the server before the third starts, the
    second succeeds, and the pipe is closed. *)
Definition chunk_example : Buf.MultiBuffer :=
  [Buf.mkBuffer 8192 0 [x61; x62; x63; x64; x65; x66]].

Definition session_example : list Splithttp.Event :=
  [ Splithttp.PipeRead chunk_example; Splithttp.Acquire; Splithttp.Launch;
    Splithttp.PipeRead chunk_example; Splithttp.Acquire; Splithttp.Launch;
    Splithttp.PipeRead chunk_example;
    Splithttp.TaskExit 0 (Splithttp.BadStatus "500 Internal Server Error");
    Splithttp.Acquire; Splithttp.Launch;
    Splithttp.TaskExit 1 Splithttp.Succeeded;
    Splithttp.PipeClosed ].

Definition post_example (n : string) : string :=
  String.append
    "https://example.com/split/?session=6ba7b810-9dad-11d1-80b4-00c04fd430c8&seq="
    n.

Definition session_end : Splithttp.State :=
  Splithttp.mkState 1 3 Splithttp.Exited
    [Splithttp.mkTask (post_example "1") chunk_example]
    [post_example "0"; post_example "1"; post_example "2"]
    [newError "failed to send upload, bad status code:500 Internal Server Error"].

(** A dispatcher that fails and hands back no link, and one that fails
    with a link all the same. *)
Definition refused : error := newError "connection refused".

Definition world_nil_link : Wireguard.World :=
  Wireguard.mkWorld (Some (fun _ => (None, Some refused)))
    (Wireguard.mkTimeouts 300 2 5) None None.

Definition world_with_link : Wireguard.World :=
  Wireguard.mkWorld (Some (fun _ => (Some (Wireguard.mkLink 1 2), Some refused)))
    (Wireguard.mkTimeouts 300 2 5) None None.

(** Three multi-buffers handed to a packet writer in turn: the seven bytes
    of [datagram_example], one without bytes, and a single byte. *)
Definition stream_example : list Buf.MultiBuffer :=
  [ datagram_example; [Buf.mkBuffer 4 0 []]; [Buf.mkBuffer 4 0 [x68]] ].

(** A multi-buffer of 65536 bytes, one more than two bytes of length can
    announce. *)
Definition jumbo_example : Buf.MultiBuffer :=
  [Buf.mkBuffer 65536 0 (repeat x00 (Z.to_nat 65536))].

(** Stream settings with TLS and the fingerprint name "chrome", and the
    package variables after one dial to "example.com:443" with them. *)
Definition tls_settings_example : Splithttp.MemoryStreamConfig :=
  Splithttp.mkMemoryStreamConfig 4096 (Some "chrome") 0.

Definition globals_example : Splithttp.Globals :=
  snd (Splithttp.getHTTPClient (Splithttp.mkGlobals None 0) "example.com:443"
         tls_settings_example).

(** Modelled from the spec: [b.Read(data)] of [common/buf]; an empty buffer
    answers [io.EOF], any other copies as many bytes as fit. *)
Definition buffer_Read (payload : Buf.Buffer) (data : list byte)
  : list byte * Z * option error :=
  if Buf.IsEmpty payload then (data, 0, Some IO.EOF)
  else
    let n := Z.min (len data) (Buf.Len payload) in
    (firstn (Z.to_nat n) (Buf.Bytes payload) ++ skipn (Z.to_nat n) data, n, None).

(** [errors.Is] on errors told apart by their text: the error or one of
    those it wraps is the target. *)
Fixpoint error_eqb (a b : error) : bool :=
  match a, b with
  | newError m, newError m' => String.eqb m m'
  | Base m i, Base m' i' => String.eqb m m' && error_eqb i i'
  | _, _ => false
  end.

Fixpoint wraps (e target : error) : bool :=
  error_eqb e target
  || match e with
     | Base _ i => wraps i target
     | newError _ => false
     end.

(** Three receivers waiting with buffers of four bytes, and what the
    connection of a peer delivers: two datagrams, then one, then the error
    of a closed connection. *)
Definition waiting : Wireguard.netReadInfo :=
  Wireguard.mkNetReadInfo [x00; x00; x00; x00] 0 None None false.

Definition closed_conn : error := newError "use of closed network connection".

Definition inbound_example : Wireguard.Inbound :=
  Wireguard.mkInbound (Ok 7)
    [ ([Buf.mkBuffer 8 0 [x61; x62]; Buf.mkBuffer 8 0 [x63; x64; x65; x66; x67]],
       None);
      ([Buf.mkBuffer 8 0 [x68]], None);
      ([], Some closed_conn) ]
    [waiting; waiting; waiting]
    false.

(** The same with an empty datagram in second place, and with a queue of
    one element that is closed behind it. *)
Definition inbound_EOF : Wireguard.Inbound :=
  Wireguard.mkInbound (Ok 7)
    [ ([Buf.mkBuffer 8 0 [x61; x62]; Buf.mkBuffer 8 0 []; Buf.mkBuffer 8 0 [x68]],
       None);
      ([], Some closed_conn) ]
    [waiting; waiting; waiting]
    false.

Definition inbound_short : Wireguard.Inbound :=
  Wireguard.mkInbound (Ok 7)
    [ ([Buf.mkBuffer 8 0 [x61; x62]], None);
      ([Buf.mkBuffer 8 0 [x63]; Buf.mkBuffer 8 0 [x64]], None) ]
    [waiting]
    true.

(** A flow from 10.0.0.2:51820 to 93.184.216.34:443 as the stack sees it. *)
Definition flow_example : Wireguard.TransportEndpointID :=
  Wireguard.mkTransportEndpointID 443 "93.184.216.34" 51820 "10.0.0.2".

(* ================================================================= *)
(** ** Facts about the scalars *)

Lemma wrap32_small (z : Z) : - 2 ^ 31 <= z < 2 ^ 31 -> Go.wrap32 z = z.
Proof.
  intros H. unfold Go.wrap32.
  rewrite Z.mod_small; lia.
Qed.

Lemma wrap64_small (z : Z) : - 2 ^ 63 <= z < 2 ^ 63 -> Go.wrap64 z = z.
Proof.
  intros H. unfold Go.wrap64.
  rewrite Z.mod_small; lia.
Qed.

Lemma of_byte_to_byte (z : Z) : Go.of_byte (Go.to_byte z) = z mod 256.
Proof.
  unfold Go.of_byte, Go.to_byte.
  assert (Hr : 0 <= z mod 256 < 256) by (apply Z.mod_pos_bound; lia).
  destruct (Byte.of_N (Z.to_N (z mod 256))) as [b|] eqn:E.
  - apply Byte.to_of_N in E. rewrite E. lia.
  - apply Byte.of_N_None_iff in E. lia.
Qed.

Lemma to_byte_of_byte (b : byte) : Go.to_byte (Go.of_byte b) = b.
Proof.
  unfold Go.to_byte, Go.of_byte.
  pose proof (Byte.to_N_bounded b) as Hb.
  rewrite Z.mod_small by lia.
  rewrite N2Z.id, Byte.of_to_N. reflexivity.
Qed.

Lemma to_byte_zero : Go.to_byte 0 = x00.
Proof. reflexivity. Qed.

Lemma bytes_Equal_eq (a b : list byte) : Go.bytes_Equal a b = true <-> a = b.
Proof.
  revert b. induction a as [|x a IH]; intros [|y b]; simpl;
    try (split; [discriminate | discriminate]); try tauto.
  rewrite andb_true_iff, IH. split.
  - intros [Hxy ->]. apply Byte.byte_dec_bl in Hxy. now subst.
  - intros E. injection E as -> ->. split; [now apply Byte.byte_dec_lb | reflexivity].
Qed.

Lemma bytes_Equal_neq (a b : list byte) : Go.bytes_Equal a b = false <-> a <> b.
Proof.
  rewrite <- bytes_Equal_eq. destruct (Go.bytes_Equal a b); split; congruence.
Qed.

Lemma len_nonneg {A : Type} (l : list A) : 0 <= Go.len l.
Proof. unfold Go.len. lia. Qed.

Lemma len_app {A : Type} (l1 l2 : list A) : Go.len (l1 ++ l2) = Go.len l1 + Go.len l2.
Proof. unfold Go.len. rewrite length_app. lia. Qed.

Lemma to_int_not_nil (n : Z) :
  Z.to_int n <> Decimal.Pos Decimal.Nil /\ Z.to_int n <> Decimal.Neg Decimal.Nil.
Proof.
  destruct n as [|p|p]; simpl; split; try discriminate;
    intros E; injection E as E; exact (DecimalPos.Unsigned.to_uint_nonnil p E).
Qed.

Lemma FormatInt_inj (n m : Z) : Go.FormatInt n = Go.FormatInt m -> n = m.
Proof.
  unfold Go.FormatInt. intros H.
  apply (f_equal NilZero.int_of_string) in H.
  destruct (to_int_not_nil n) as [Hn1 Hn2].
  destruct (to_int_not_nil m) as [Hm1 Hm2].
  rewrite !NilZero.isi in H by assumption.
  injection H as H.
  now apply DecimalZ.to_int_inj.
Qed.

(* ================================================================= *)
(** ** [CheckSeed] and [PopulateSeed] *)

Section Seeds.

Import Encoding.

Lemma CheckSeed_unfold (a b : Addons) :
  CheckSeed a b =
  if negb (bytes_Equal (Seed a) (Seed b)) then Some (newError "Seed bytes not match")
  else if negb (Mode a =? Mode b) then Some (newError "Mode not match")
  else if negb (String.eqb (Duration a) (Duration b))
       then Some (newError "Duration not match")
  else match check_Padding (Padding a) (Padding b) with
       | Some err => Some err
       | None =>
           match check_Delay (Delay a) (Delay b) with
           | Some err => Some err
           | None => check_Scheduler (Scheduler a) (Scheduler b)
           end
       end.
Proof. reflexivity. Qed.

Lemma check_Padding_spec (p q : option PaddingConfig) :
  (check_Padding p q = None /\ ~ Padding_differs p q)
  \/ (check_Padding p q <> None /\ Padding_differs p q).
Proof.
  destruct p as [[a1 a2 a3 a4]|], q as [[b1 b2 b3 b4]|]; simpl;
    try (right; split; [discriminate | exact I]); try (left; tauto).
  destruct (Z.eqb_spec a1 b1), (Z.eqb_spec a2 b2),
    (Z.eqb_spec a3 b3), (Z.eqb_spec a4 b4); simpl;
    try (right; split; [discriminate | tauto]); left; tauto.
Qed.

Lemma check_Delay_spec (p q : option DelayConfig) :
  (check_Delay p q = None /\ ~ Delay_differs p q)
  \/ (check_Delay p q <> None /\ Delay_differs p q).
Proof.
  destruct p as [[a1 a2 a3]|], q as [[b1 b2 b3]|]; simpl;
    try (right; split; [discriminate | exact I]); try (left; tauto).
  destruct (Bool.eqb_spec a1 b1), (Z.eqb_spec a2 b2), (Z.eqb_spec a3 b3); simpl;
    try (right; split; [discriminate | tauto]); left; tauto.
Qed.

Lemma check_Scheduler_spec (p q : option SchedulerConfig) :
  (check_Scheduler p q = None /\ ~ Scheduler_differs p q)
  \/ (check_Scheduler p q <> None /\ Scheduler_differs p q).
Proof.
  destruct p as [[a1]|], q as [[b1]|]; simpl;
    try (right; split; [discriminate | exact I]); try (left; tauto).
  destruct (Z.eqb_spec a1 b1); simpl;
    try (right; split; [discriminate | tauto]); left; tauto.
Qed.

Lemma Padding_differs_sym (p q : option PaddingConfig) :
  Padding_differs p q <-> Padding_differs q p.
Proof.
  destruct p, q; simpl; try tauto.
  split; intros H; decompose [or] H; auto.
Qed.

Lemma Delay_differs_sym (p q : option DelayConfig) :
  Delay_differs p q <-> Delay_differs q p.
Proof.
  destruct p, q; simpl; try tauto.
  split; intros H; decompose [or] H; auto.
Qed.

Lemma Scheduler_differs_sym (p q : option SchedulerConfig) :
  Scheduler_differs p q <-> Scheduler_differs q p.
Proof.
  destruct p, q; simpl; try tauto.
  split; auto.
Qed.

Lemma mismatch_sym (a b : Addons) : mismatch a b <-> mismatch b a.
Proof.
  unfold mismatch.
  rewrite (Padding_differs_sym (Padding a)), (Delay_differs_sym (Delay a)),
    (Scheduler_differs_sym (Scheduler a)).
  split; intros H; decompose [or] H; auto 10.
Qed.

Lemma CheckSeed_spec (a b : Addons) :
  (CheckSeed a b = None /\ ~ mismatch a b)
  \/ (CheckSeed a b <> None /\ mismatch a b).
Proof.
  rewrite CheckSeed_unfold. unfold mismatch.
  destruct (bytes_Equal (Seed a) (Seed b)) eqn:E1; simpl.
  2:{ apply bytes_Equal_neq in E1. right. split; [discriminate | tauto]. }
  apply bytes_Equal_eq in E1.
  destruct (Z.eqb_spec (Mode a) (Mode b)) as [E2|E2]; simpl.
  2:{ right. split; [discriminate | tauto]. }
  destruct (String.eqb_spec (Duration a) (Duration b)) as [E3|E3]; simpl.
  2:{ right. split; [discriminate | tauto]. }
  destruct (check_Padding_spec (Padding a) (Padding b)) as [[HP NP]|[HP DP]].
  2:{ right. split; [| tauto].
      destruct (check_Padding (Padding a) (Padding b)); congruence. }
  rewrite HP.
  destruct (check_Delay_spec (Delay a) (Delay b)) as [[HD ND]|[HD DD]].
  2:{ right. split; [| tauto].
      destruct (check_Delay (Delay a) (Delay b)); congruence. }
  rewrite HD.
  destruct (check_Scheduler_spec (Scheduler a) (Scheduler b)) as [[HS NS]|[HS DS]].
  - left. split; [exact HS | tauto].
  - right. split; [exact HS | tauto].
Qed.

(** C4. [CheckSeed(a, b)] succeeds exactly when [CheckSeed(b, a)] does, and
    it fails exactly when the seed bytes, the mode or the duration differ,
    when exactly one of the two records has a [Padding] (or [Delay], or
    [Scheduler]) sub-record, or when both have it and it differs on a
    compared field. *)
Theorem CheckSeed_symmetric_and_strict (a b : Addons) :
  (CheckSeed a b = None <-> CheckSeed b a = None)
  /\ (CheckSeed a b <> None <-> mismatch a b).
Proof.
  pose proof (mismatch_sym a b) as Hsym.
  destruct (CheckSeed_spec a b) as [[Hab Nab]|[Hab Mab]];
    destruct (CheckSeed_spec b a) as [[Hba Nba]|[Hba Mba]];
    split; split; intros H; try tauto; try congruence.
Qed.

Lemma CheckSeed_populated (mode : SeedMode) (a b : Addons) :
  CheckSeed (populated mode a) (populated mode b) = None.
Proof.
  rewrite CheckSeed_unfold. simpl.
  rewrite Z.eqb_refl. reflexivity.
Qed.

(** C10. [PopulateSeed] with an empty seed leaves the record as it is; with
    a seed that is not empty it sets, whatever the seed holds,
    [Seed = [1]], [Mode = PaddingPlusDelay], [Duration = "0-8"],
    [Padding = {0, 256, 900, 1400}], [Delay = {true, 100, 500}] and
    [Scheduler = {600}], so two records populated that way pass
    [CheckSeed]. *)
Theorem PopulateSeed_spec (PaddingPlusDelay : SeedMode) (seed seed' : string)
  (a b : Addons) (Hseed : seed <> "") (Hseed' : seed' <> "") :
  PopulateSeed PaddingPlusDelay "" a = a
  /\ PopulateSeed PaddingPlusDelay seed a = populated PaddingPlusDelay a
  /\ Seed (PopulateSeed PaddingPlusDelay seed a) = [x01]
  /\ Mode (PopulateSeed PaddingPlusDelay seed a) = PaddingPlusDelay
  /\ Duration (PopulateSeed PaddingPlusDelay seed a) = "0-8"
  /\ Padding (PopulateSeed PaddingPlusDelay seed a)
     = Some (mkPaddingConfig 0 256 900 1400)
  /\ Delay (PopulateSeed PaddingPlusDelay seed a)
     = Some (mkDelayConfig true 100 500)
  /\ Scheduler (PopulateSeed PaddingPlusDelay seed a)
     = Some (mkSchedulerConfig 600)
  /\ CheckSeed (PopulateSeed PaddingPlusDelay seed a)
               (PopulateSeed PaddingPlusDelay seed' b) = None.
Proof.
  assert (E : forall s x, s <> "" ->
              PopulateSeed PaddingPlusDelay s x = populated PaddingPlusDelay x).
  { intros s x Hs. unfold PopulateSeed.
    destruct s; [congruence | reflexivity]. }
  rewrite !(E seed), (E seed') by assumption.
  repeat split; try reflexivity.
  apply CheckSeed_populated.
Qed.

Lemma PopulateSeed_spec_witness :
  ("abc" <> "" /\ "1" <> "")
  /\ PopulateSeed 2 "" vision_example = vision_example
  /\ PopulateSeed 2 "abc" vision_example = populated 2 vision_example
  /\ Seed (PopulateSeed 2 "abc" vision_example) = [x01]
  /\ Mode (PopulateSeed 2 "abc" vision_example) = 2
  /\ Duration (PopulateSeed 2 "abc" vision_example) = "0-8"
  /\ Padding (PopulateSeed 2 "abc" vision_example)
     = Some (mkPaddingConfig 0 256 900 1400)
  /\ Delay (PopulateSeed 2 "abc" vision_example)
     = Some (mkDelayConfig true 100 500)
  /\ Scheduler (PopulateSeed 2 "abc" vision_example)
     = Some (mkSchedulerConfig 600)
  /\ CheckSeed (PopulateSeed 2 "abc" vision_example)
               (PopulateSeed 2 "1" response_example) = None.
Proof.
  split; [split; discriminate |].
  apply (PopulateSeed_spec 2 "abc" "1" vision_example response_example);
    discriminate.
Defined.

End Seeds.

(* ================================================================= *)
(** ** Two-byte big-endian lengths *)

Lemma be16_decode (n : Z) :
  Z.lor (Z.shiftl (of_byte (to_byte (Z.shiftr n 8))) 8) (of_byte (to_byte n))
  = n mod 2 ^ 16.
Proof.
  rewrite !of_byte_to_byte.
  change 256 with (2 ^ 8).
  apply Z.bits_inj'. intros m Hm.
  rewrite Z.lor_spec.
  destruct (Z.lt_ge_cases m 8) as [Hlow|Hhigh].
  - rewrite Z.shiftl_spec_low by assumption.
    rewrite !Z.mod_pow2_bits_low by lia. reflexivity.
  - rewrite Z.shiftl_spec by assumption.
    rewrite (Z.mod_pow2_bits_high n 8 m) by lia.
    rewrite orb_false_r.
    destruct (Z.lt_ge_cases m 16) as [Hmid|Htop].
    + rewrite !Z.mod_pow2_bits_low by lia.
      rewrite Z.shiftr_spec by lia. f_equal. lia.
    + rewrite !Z.mod_pow2_bits_high by lia. reflexivity.
Qed.

Lemma be16_decode_small (n : Z) :
  0 <= n < 65536 ->
  Z.lor (Z.shiftl (of_byte (to_byte (Z.shiftr n 8))) 8) (of_byte (to_byte n)) = n.
Proof.
  intros H. rewrite be16_decode. apply Z.mod_small. lia.
Qed.

(* ================================================================= *)
(** ** Buffers *)

Lemma firstn_len {A : Type} (l : list A) : firstn (Z.to_nat (len l)) l = l.
Proof. unfold len. rewrite Nat2Z.id. apply firstn_all. Qed.

Lemma skipn_len {A : Type} (l : list A) : skipn (Z.to_nat (len l)) l = [].
Proof. unfold len. rewrite Nat2Z.id. apply skipn_all. Qed.

Lemma firstn_len_app {A : Type} (l r : list A) :
  firstn (Z.to_nat (len l)) (l ++ r) = l.
Proof.
  unfold len. rewrite Nat2Z.id.
  rewrite firstn_app, Nat.sub_diag, firstn_all. simpl. apply app_nil_r.
Qed.

Lemma skipn_len_app {A : Type} (l r : list A) :
  skipn (Z.to_nat (len l)) (l ++ r) = r.
Proof.
  unfold len. rewrite Nat2Z.id.
  rewrite skipn_app, Nat.sub_diag, skipn_all. reflexivity.
Qed.

Lemma end_appended (b : Buf.Buffer) (bs : list byte) :
  Buf.end_ (appended b bs) = Buf.end_ b + len bs.
Proof. unfold Buf.end_, appended. simpl. rewrite len_app. lia. Qed.

Lemma appended_appended (b : Buf.Buffer) (xs ys : list byte) :
  appended (appended b xs) ys = appended b (xs ++ ys).
Proof. unfold appended. simpl. now rewrite <- app_assoc. Qed.

Lemma WriteByte_room (b : Buf.Buffer) (c : byte) :
  has_room b 1 -> Buf.WriteByte b c = (appended b [c], None).
Proof.
  unfold has_room, Buf.WriteByte, Buf.IsFull. intros H.
  destruct (Z.eqb_spec (Buf.end_ b) (Buf.v_len b)); [lia | reflexivity].
Qed.

Lemma Write_room (b : Buf.Buffer) (bs : list byte) :
  has_room b (len bs) -> Buf.Write b bs = (appended b bs, (len bs, None)).
Proof.
  unfold has_room, Buf.Write. intros H.
  pose proof (len_nonneg bs).
  replace (Z.max 0 (Z.min (len bs) (Buf.v_len b - Buf.end_ b))) with (len bs) by lia.
  now rewrite firstn_len.
Qed.

Lemma ReadFull_enough (bs rest : list byte) :
  IO.ReadFull (bs ++ rest) (len bs) = (bs, rest, None).
Proof.
  unfold IO.ReadFull.
  destruct (Z.leb_spec (len bs) 0) as [H0|H0].
  - pose proof (len_nonneg bs). assert (E : len bs = 0) by lia.
    destruct bs; [reflexivity | unfold len in E; simpl in E; lia].
  - rewrite len_app.
    pose proof (len_nonneg rest).
    destruct (Z.leb_spec (len bs) (len bs + len rest)); [| lia].
    now rewrite firstn_len_app, skipn_len_app.
Qed.

Lemma ReadFullFrom_enough (b : Buf.Buffer) (bs rest : list byte) :
  has_room b (len bs) ->
  Buf.ReadFullFrom b (bs ++ rest) (len bs) = (appended b bs, rest, (len bs, None)).
Proof.
  unfold has_room, Buf.ReadFullFrom. intros H.
  destruct (Z.gtb_spec (Buf.end_ b + len bs) (Buf.v_len b)); [lia |].
  now rewrite ReadFull_enough.
Qed.

(* ================================================================= *)
(** ** [MultiLengthPacketWriter] *)

Lemma frame_spec (Size : Z) (b : Buf.Buffer) :
  int32_len b ->
  Encoding.frame Size b = if retained Size b then Some (framed Size b) else None.
Proof.
  unfold int32_len, Encoding.frame, retained. intros Hb.
  pose proof (len_nonneg (Buf.payload b)) as Hlen. fold (Buf.Len b) in Hlen.
  rewrite wrap32_small by lia.
  destruct (Z.eqb_spec (Buf.Len b) 0) as [E0|E0]; simpl; [reflexivity |].
  destruct (Z.gtb_spec (Buf.Len b + 2) Size) as [Hbig|Hfit]; simpl; [reflexivity |].
  rewrite WriteByte_room by (unfold has_room, Buf.end_, Buf.New; simpl; unfold len; simpl; lia).
  rewrite WriteByte_room
    by (unfold has_room, Buf.end_, appended, Buf.New; simpl; unfold len; simpl; lia).
  unfold framed, appended, Buf.New, Buf.end_, Buf.Bytes, Buf.Len in *. simpl.
  assert (E : Z.max 0 (Z.min (len (Buf.payload b))
                             (Size - (0 + len ([to_byte (Z.shiftr (len (Buf.payload b)) 8)]
                                                ++ [to_byte (len (Buf.payload b))]))))
              = len (Buf.payload b)).
  { rewrite len_app. unfold len at 3 4. simpl. lia. }
  simpl in E. rewrite E, firstn_len. reflexivity.
Qed.

Lemma frames_acc (Size : Z) (mb acc : Buf.MultiBuffer) :
  Forall int32_len mb ->
  fold_left
    (fun mb2Write b =>
       match Encoding.frame Size b with
       | None => mb2Write
       | Some eb => mb2Write ++ [eb]
       end) mb acc
  = acc ++ map (framed Size) (filter (retained Size) mb).
Proof.
  intros H. revert acc. induction H as [|b mb Hb Hmb IH]; intros acc; simpl.
  - now rewrite app_nil_r.
  - rewrite IH, (frame_spec Size b Hb).
    destruct (retained Size b); simpl; [| reflexivity].
    now rewrite <- app_assoc.
Qed.

Lemma frames_spec (Size : Z) (mb : Buf.MultiBuffer) :
  Forall int32_len mb ->
  Encoding.frames Size mb = map (framed Size) (filter (retained Size) mb).
Proof. intros H. unfold Encoding.frames. now rewrite frames_acc. Qed.

Lemma framed_not_empty (Size : Z) (l : Buf.MultiBuffer) :
  Buf.MultiBuffer_IsEmpty (map (framed Size) l) = match l with [] => true | _ => false end.
Proof.
  destruct l as [|b l]; [reflexivity |].
  assert (E : Buf.IsEmpty (framed Size b) = false).
  { unfold Buf.IsEmpty, Buf.Len, framed, len. simpl. reflexivity. }
  change (map (framed Size) (b :: l)) with (framed Size b :: map (framed Size) l).
  unfold Buf.MultiBuffer_IsEmpty.
  change (forallb Buf.IsEmpty (framed Size b :: map (framed Size) l))
    with (Buf.IsEmpty (framed Size b) && forallb Buf.IsEmpty (map (framed Size) l)).
  now rewrite E.
Qed.

(** C7. [MultiLengthPacketWriter.WriteMultiBuffer] drops exactly the
    elements [b] with [len(b) == 0] or [len(b)+2 > BufSize]; every other
    element appears in the committed multi-buffer, in its original order,
    as a fresh buffer holding the two bytes of the length of [b], high byte
    first, and then the bytes of [b]; when no element is kept nothing is
    written and the call succeeds.  The lengths are those of an [int32]
    that [length+2] does not wrap. *)
Theorem MultiLengthPacketWriter_filters (Size : Z) (W : Type) (HW : Buf.Writer W)
  (w : Encoding.MultiLengthPacketWriter W) (mb : Buf.MultiBuffer)
  (Hmb : Forall int32_len mb) :
  (forall b, retained Size b = false <-> Buf.Len b = 0 \/ Buf.Len b + 2 > Size)
  /\ Encoding.frames Size mb = map (framed Size) (filter (retained Size) mb)
  /\ (forall b, In b (filter (retained Size) mb) ->
        framed Size b = Buf.mkBuffer Size 0
                          (to_byte (Z.shiftr (Buf.Len b) 8) :: to_byte (Buf.Len b)
                           :: Buf.Bytes b)
        /\ Z.lor (Z.shiftl (of_byte (to_byte (Z.shiftr (Buf.Len b) 8))) 8)
                 (of_byte (to_byte (Buf.Len b)))
           = Buf.Len b mod 2 ^ 16)
  /\ Encoding.MultiLengthPacketWriter_WriteMultiBuffer Size w mb
     = match filter (retained Size) mb with
       | [] => (w, None)
       | kept =>
           (Encoding.mkMultiLengthPacketWriter
              (fst (Buf.WriteMultiBuffer (Encoding.MLP_Writer w)
                                         (map (framed Size) kept))),
            snd (Buf.WriteMultiBuffer (Encoding.MLP_Writer w)
                                      (map (framed Size) kept)))
       end.
Proof.
  split; [| split; [| split]].
  - intros b. unfold retained.
    destruct (Z.eqb_spec (Buf.Len b) 0) as [E0|E0],
      (Z.gtb_spec (Buf.Len b + 2) Size) as [E2|E2];
      simpl; split; intros Hdrop; try reflexivity; try discriminate; lia.
  - now apply frames_spec.
  - intros b _. split; [reflexivity | apply be16_decode].
  - unfold Encoding.MultiLengthPacketWriter_WriteMultiBuffer.
    rewrite (frames_spec Size mb Hmb), framed_not_empty.
    destruct (filter (retained Size) mb) as [|b kept]; [reflexivity |].
    destruct (Buf.WriteMultiBuffer (Encoding.MLP_Writer w)
                                   (map (framed Size) (b :: kept))).
    reflexivity.
Qed.

Lemma batch_example_int32 : Forall int32_len batch_example.
Proof. repeat constructor. Qed.

Lemma MultiLengthPacketWriter_filters_witness :
  Forall int32_len batch_example
  /\ Encoding.frames 8 batch_example
     = [ Buf.mkBuffer 8 0 [x00; x03; x61; x62; x63];
         Buf.mkBuffer 8 0 [x00; x06; x41; x42; x43; x44; x45; x46] ]
  /\ Encoding.MultiLengthPacketWriter_WriteMultiBuffer 8
       (Encoding.NewMultiLengthPacketWriter (Buf.mkLog [] false)) batch_example
     = (Encoding.mkMultiLengthPacketWriter
          (Buf.mkLog [[ Buf.mkBuffer 8 0 [x00; x03; x61; x62; x63];
                        Buf.mkBuffer 8 0 [x00; x06; x41; x42; x43; x44; x45; x46] ]]
                     false),
        None).
Proof.
  split; [exact batch_example_int32 |].
  pose proof (MultiLengthPacketWriter_filters 8 Buf.Log Buf.Log_Writer
                (Encoding.NewMultiLengthPacketWriter (Buf.mkLog [] false))
                batch_example batch_example_int32) as [_ [Hframes [_ Hwrite]]].
  split; [exact Hframes | exact Hwrite].
Defined.

(* ================================================================= *)
(** ** [LengthPacketWriter] and [LengthPacketReader] *)

Lemma MultiBuffer_Len_acc (mb : Buf.MultiBuffer) (acc : Z) :
  0 <= acc -> acc + len (Buf.MultiBuffer_Bytes mb) < 2 ^ 31 ->
  fold_left (fun size b => wrap32 (size + Buf.Len b)) mb acc
  = acc + len (Buf.MultiBuffer_Bytes mb).
Proof.
  revert acc. induction mb as [|b mb IH]; intros acc Hacc Hsum; simpl in *.
  - unfold len. simpl. lia.
  - unfold Buf.MultiBuffer_Bytes in *. simpl in Hsum. rewrite len_app in Hsum.
    pose proof (len_nonneg (Buf.Bytes b)).
    pose proof (len_nonneg (flat_map Buf.Bytes mb)).
    unfold Buf.Len. fold (Buf.Bytes b).
    rewrite wrap32_small by lia.
    rewrite IH by lia. simpl. rewrite len_app. lia.
Qed.

Lemma MultiBuffer_Len_bytes (mb : Buf.MultiBuffer) :
  len (Buf.MultiBuffer_Bytes mb) < 2 ^ 31 ->
  Buf.MultiBuffer_Len mb = len (Buf.MultiBuffer_Bytes mb).
Proof.
  intros H. unfold Buf.MultiBuffer_Len.
  rewrite MultiBuffer_Len_acc; lia.
Qed.

Lemma packet_acc (mb : Buf.MultiBuffer) (cache : list byte) :
  fold_left (fun cache b => cache ++ Buf.Bytes b) mb cache
  = cache ++ Buf.MultiBuffer_Bytes mb.
Proof.
  revert cache. induction mb as [|b mb IH]; intros cache; simpl.
  - now rewrite app_nil_r.
  - rewrite IH. unfold Buf.MultiBuffer_Bytes. simpl. now rewrite <- app_assoc.
Qed.

Lemma packet_spec (mb : Buf.MultiBuffer) :
  len (Buf.MultiBuffer_Bytes mb) < 2 ^ 31 ->
  Encoding.packet [] mb
  = to_byte (Z.shiftr (len (Buf.MultiBuffer_Bytes mb)) 8)
    :: to_byte (len (Buf.MultiBuffer_Bytes mb)) :: Buf.MultiBuffer_Bytes mb.
Proof.
  intros H. unfold Encoding.packet.
  rewrite packet_acc, MultiBuffer_Len_bytes by assumption. reflexivity.
Qed.

Lemma len_firstn (n : Z) (bs : list byte) :
  0 <= n <= len bs -> len (firstn (Z.to_nat n) bs) = n.
Proof.
  unfold len. intros H. rewrite length_firstn. lia.
Qed.

Lemma len_skipn (n : Z) (bs : list byte) :
  0 <= n <= len bs -> len (skipn (Z.to_nat n) bs) = len bs - n.
Proof.
  unfold len. intros H. rewrite length_skipn. lia.
Qed.

Lemma chunks_fuel_enough (Size : Z) (fuel : nat) (bs : list byte) :
  0 < Size -> (List.length bs <= fuel)%nat ->
  chunks_fuel fuel Size bs = chunks Size bs.
Proof.
  intros HSize. unfold chunks.
  remember (List.length bs) as n eqn:En.
  revert fuel bs En.
  induction n as [n IH] using lt_wf_ind. intros fuel bs En Hfuel.
  destruct bs as [|b bs].
  - destruct fuel; subst; reflexivity.
  - simpl in En. subst n. destruct fuel as [|fuel]; [cbn [List.length] in Hfuel; lia |].
    cbn [chunks_fuel]. f_equal.
    assert (Hlen : (List.length (skipn (Z.to_nat Size) (b :: bs)) <= List.length bs)%nat).
    { rewrite length_skipn. cbn [List.length]. lia. }
    rewrite (IH (List.length (skipn (Z.to_nat Size) (b :: bs)))
               ltac:(lia) fuel _ eq_refl ltac:(cbn [List.length] in Hfuel; lia)).
    rewrite (IH (List.length (skipn (Z.to_nat Size) (b :: bs)))
               ltac:(lia) (List.length bs) _ eq_refl Hlen).
    reflexivity.
Qed.

Lemma chunks_cons (Size : Z) (bs : list byte) :
  0 < Size -> bs <> [] ->
  chunks Size bs
  = firstn (Z.to_nat Size) bs :: chunks Size (skipn (Z.to_nat Size) bs).
Proof.
  intros HSize Hbs. destruct bs as [|b bs]; [congruence |].
  unfold chunks at 1. cbn [List.length chunks_fuel]. f_equal.
  apply chunks_fuel_enough; [assumption |].
  rewrite length_skipn. cbn [List.length]. lia.
Qed.

Lemma chunks_nil (Size : Z) : chunks Size [] = [].
Proof. reflexivity. Qed.

(** Induction on a byte sequence, [Size] bytes at a time. *)
Lemma chunk_ind (Size : Z) (P : list byte -> Prop) :
  0 < Size ->
  P [] ->
  (forall bs, bs <> [] -> P (skipn (Z.to_nat Size) bs) -> P bs) ->
  forall bs, P bs.
Proof.
  intros HSize Hnil Hstep bs.
  remember (List.length bs) as n eqn:En. revert bs En.
  induction n as [n IH] using lt_wf_ind. intros bs En.
  destruct bs as [|b bs]; [exact Hnil |].
  apply Hstep; [discriminate |].
  apply (IH (List.length (skipn (Z.to_nat Size) (b :: bs)))); [| reflexivity].
  subst n. rewrite length_skipn. cbn [List.length]. lia.
Qed.

Lemma concat_chunks (Size : Z) (bs : list byte) :
  0 < Size -> List.concat (chunks Size bs) = bs.
Proof.
  intros HSize. pattern bs. apply (chunk_ind Size); [exact HSize | | clear bs; intros bs Hbs IH].
  - reflexivity.
  - rewrite chunks_cons by assumption. simpl. rewrite IH.
    apply firstn_skipn.
Qed.

Lemma length_chunks (Size : Z) (bs : list byte) :
  0 < Size -> len (chunks Size bs) = (len bs + Size - 1) / Size.
Proof.
  intros HSize. pattern bs. apply (chunk_ind Size); [exact HSize | | clear bs; intros bs Hbs IH].
  - rewrite chunks_nil. unfold len. simpl.
    symmetry. apply Z.div_small. lia.
  - rewrite chunks_cons by assumption.
    unfold len at 1. simpl List.length. rewrite Nat2Z.inj_succ.
    fold (len (chunks Size (skipn (Z.to_nat Size) bs))). rewrite IH.
    pose proof (len_nonneg bs) as Hn.
    destruct (Z.le_gt_cases Size (len bs)) as [Hle|Hgt].
    + rewrite len_skipn by lia.
      replace (len bs + Size - 1) with (len bs - Size + Size - 1 + 1 * Size) by lia.
      rewrite Z.div_add by lia. lia.
    + assert (Hall : skipn (Z.to_nat Size) bs = []).
      { apply skipn_all2. unfold len in Hgt. lia. }
      rewrite Hall. unfold len at 1. simpl.
      assert (0 < len bs).
      { destruct bs; [congruence | unfold len; simpl; lia]. }
      rewrite (Z.div_small (0 + Size - 1)) by lia.
      apply Z.div_unique with (r := len bs - 1); lia.
Qed.

Lemma chunks_bounds (Size : Z) (bs : list byte) :
  0 < Size -> Forall (fun c => 0 < len c <= Size) (chunks Size bs).
Proof.
  intros HSize. pattern bs. apply (chunk_ind Size); [exact HSize | | clear bs; intros bs Hbs IH].
  - constructor.
  - rewrite chunks_cons by assumption. constructor; [| exact IH].
    unfold len. rewrite length_firstn.
    destruct bs; [congruence |]. simpl List.length. lia.
Qed.

Lemma take_size (Size : Z) (bs : list byte) :
  0 < Size ->
  let size := if len bs >? Size then Size else len bs in
  firstn (Z.to_nat size) bs = firstn (Z.to_nat Size) bs
  /\ skipn (Z.to_nat size) bs = skipn (Z.to_nat Size) bs
  /\ len (firstn (Z.to_nat Size) bs) = size.
Proof.
  intros HSize. cbv zeta.
  pose proof (len_nonneg bs) as Hn.
  destruct (Z.gtb_spec (len bs) Size) as [Hgt|Hle].
  - repeat split. apply len_firstn. lia.
  - rewrite firstn_len, skipn_len.
    rewrite firstn_all2, skipn_all2 by (unfold len in Hle; lia).
    repeat split.
Qed.

Lemma read_payload_unfold (Size : Z) (fuel : nat) (length : Z)
  (reader : IO.Reader) (mb : Buf.MultiBuffer) :
  Encoding.read_payload Size (S fuel) length reader mb
  = if length >? 0 then
      match Buf.ReadFullFrom (Buf.New Size) reader
                             (if length >? Size then Size else length) with
      | (_, reader', (_, Some err)) =>
          Some (Err (Base "failed to read packet payload" err), reader')
      | (b, reader', (_, None)) =>
          Encoding.read_payload Size fuel
            (wrap32 (length - (if length >? Size then Size else length)))
            reader' (mb ++ [b])
      end
    else Some (Ok mb, reader).
Proof. reflexivity. Qed.

Lemma read_payload_done (Size : Z) (fuel : nat) (reader : IO.Reader)
  (mb : Buf.MultiBuffer) :
  Encoding.read_payload Size fuel 0 reader mb = Some (Ok mb, reader).
Proof. destruct fuel; reflexivity. Qed.

Lemma read_payload_spec (Size : Z) (bs : list byte) :
  0 < Size -> len bs < 2 ^ 31 ->
  forall (rest : list byte) (acc : Buf.MultiBuffer) (fuel : nat),
    (List.length bs <= fuel)%nat ->
    Encoding.read_payload Size fuel (len bs) (bs ++ rest) acc
    = Some (Ok (acc ++ map (fresh Size) (chunks Size bs)), rest).
Proof.
  intros HSize. pattern bs. apply (chunk_ind Size); [exact HSize | | clear bs].
  - intros _ rest acc fuel _. change (len (@nil byte)) with 0.
    rewrite read_payload_done, chunks_nil. simpl. now rewrite app_nil_r.
  - intros bs Hbs IH Hlen rest acc fuel Hfuel.
    pose proof (len_nonneg bs) as Hn.
    assert (Hpos : 0 < len bs).
    { destruct bs; [congruence | unfold len; cbn [List.length]; lia]. }
    destruct fuel as [|fuel]; [unfold len in Hpos; lia |].
    rewrite read_payload_unfold.
    destruct (Z.gtb_spec (len bs) 0) as [_|Hno]; [| lia].
    destruct (take_size Size bs HSize) as [Hfirst [Hskip Hsize]].
    set (size := if len bs >? Size then Size else len bs) in *.
    assert (Hsz : 0 < size <= len bs /\ size <= Size).
    { subst size. destruct (Z.gtb_spec (len bs) Size); lia. }
    replace (bs ++ rest)
      with (firstn (Z.to_nat Size) bs ++ (skipn (Z.to_nat Size) bs ++ rest))
      by (now rewrite app_assoc, firstn_skipn).
    rewrite <- Hsize.
    rewrite ReadFullFrom_enough
      by (unfold has_room, Buf.end_, Buf.New;
          cbn [Buf.start Buf.payload Buf.v_len];
          change (len (@nil byte)) with 0; lia).
    assert (Hrest : wrap32 (len bs - len (firstn (Z.to_nat Size) bs))
                    = len (skipn (Z.to_nat Size) bs)).
    { rewrite Hsize, <- Hskip, len_skipn by lia.
      apply wrap32_small. lia. }
    rewrite Hrest.
    rewrite IH.
    + rewrite (chunks_cons Size bs) by assumption. simpl.
      rewrite <- app_assoc. reflexivity.
    + rewrite <- Hskip, len_skipn by lia. lia.
    + rewrite length_skipn. lia.
Qed.

Lemma read_cache_enough (c0 c1 : byte) (tail : list byte) (cache : byte * byte) :
  Encoding.read_cache (Encoding.mkLengthPacketReader (c0 :: c1 :: tail) cache)
  = (Encoding.mkLengthPacketReader tail (c0, c1), None).
Proof.
  unfold Encoding.read_cache, IO.ReadFull. simpl.
  destruct (Z.leb_spec 2 (len (c0 :: c1 :: tail))) as [_|Hno]; [reflexivity |].
  unfold len in Hno. cbn [List.length] in Hno. lia.
Qed.

Lemma Bytes_fresh_chunks (Size : Z) (bs : list byte) :
  0 < Size -> Buf.MultiBuffer_Bytes (map (fresh Size) (chunks Size bs)) = bs.
Proof.
  intros HSize. unfold Buf.MultiBuffer_Bytes.
  rewrite flat_map_concat_map, map_map. simpl.
  rewrite map_id. now apply concat_chunks.
Qed.

(** Every call leaves the cache of the writer empty, as
    [NewLengthPacketWriter] made it. *)
Lemma LengthPacketWriter_cache_empty (W : Type) (HW : IO.Writer W)
  (w : Encoding.LengthPacketWriter W) (mb : Buf.MultiBuffer) :
  Encoding.LPW_cache w = [] ->
  Encoding.LPW_cache (fst (Encoding.LengthPacketWriter_WriteMultiBuffer w mb)) = [].
Proof.
  intros Hcache. unfold Encoding.LengthPacketWriter_WriteMultiBuffer.
  destruct (Buf.MultiBuffer_Len mb =? 0); [exact Hcache |].
  destruct (IO.Write (Encoding.LPW_Writer w) (Encoding.packet (Encoding.LPW_cache w) mb))
    as [inner [n [err|]]]; reflexivity.
Qed.

(** C2. For a multi-buffer [M] of [L] bytes in all, [0 < L <= 65535], the
    writer hands its underlying writer the two bytes of [L], high byte
    first, followed by the bytes of [M]; and the reader, given those bytes,
    returns them cut into [ceil(L/BufSize)] buffers in order, so that
    reading what was written yields the bytes of [M]. *)
Theorem LengthPacket_round_trip (Size : Z) (W : Type) (HW : IO.Writer W)
  (w : Encoding.LengthPacketWriter W) (M : Buf.MultiBuffer)
  (rest : list byte) (cache : byte * byte)
  (HSize : 0 < Size)
  (Hcache : Encoding.LPW_cache w = [])
  (HL : 0 < len (Buf.MultiBuffer_Bytes M) <= 65535) :
  Encoding.LengthPacketWriter_WriteMultiBuffer w M
  = (Encoding.mkLengthPacketWriter
       (fst (IO.Write (Encoding.LPW_Writer w)
               (to_byte (Z.shiftr (len (Buf.MultiBuffer_Bytes M)) 8)
                :: to_byte (len (Buf.MultiBuffer_Bytes M))
                :: Buf.MultiBuffer_Bytes M)))
       [],
     option_map (Base "failed to write a packet")
       (snd (snd (IO.Write (Encoding.LPW_Writer w)
                    (to_byte (Z.shiftr (len (Buf.MultiBuffer_Bytes M)) 8)
                     :: to_byte (len (Buf.MultiBuffer_Bytes M))
                     :: Buf.MultiBuffer_Bytes M)))))
  /\ Z.lor (Z.shiftl (of_byte (to_byte (Z.shiftr (len (Buf.MultiBuffer_Bytes M)) 8))) 8)
           (of_byte (to_byte (len (Buf.MultiBuffer_Bytes M))))
     = len (Buf.MultiBuffer_Bytes M)
  /\ Encoding.LengthPacketReader_ReadMultiBuffer Size
       (Encoding.mkLengthPacketReader
          ((to_byte (Z.shiftr (len (Buf.MultiBuffer_Bytes M)) 8)
            :: to_byte (len (Buf.MultiBuffer_Bytes M))
            :: Buf.MultiBuffer_Bytes M) ++ rest)
          cache)
     = Some (Ok (map (fresh Size) (chunks Size (Buf.MultiBuffer_Bytes M))),
             Encoding.mkLengthPacketReader rest
               (to_byte (Z.shiftr (len (Buf.MultiBuffer_Bytes M)) 8),
                to_byte (len (Buf.MultiBuffer_Bytes M))))
  /\ Buf.MultiBuffer_Bytes (map (fresh Size) (chunks Size (Buf.MultiBuffer_Bytes M)))
     = Buf.MultiBuffer_Bytes M
  /\ len (map (fresh Size) (chunks Size (Buf.MultiBuffer_Bytes M)))
     = (len (Buf.MultiBuffer_Bytes M) + Size - 1) / Size
  /\ Forall (fun b => 0 < Buf.Len b <= Size)
            (map (fresh Size) (chunks Size (Buf.MultiBuffer_Bytes M))).
Proof.
  set (bytes := Buf.MultiBuffer_Bytes M) in *.
  assert (H31 : len bytes < 2 ^ 31) by lia.
  split; [| split; [| split; [| split; [| split]]]].
  - unfold Encoding.LengthPacketWriter_WriteMultiBuffer.
    rewrite Hcache, (packet_spec M H31), (MultiBuffer_Len_bytes M H31).
    fold bytes.
    destruct (Z.eqb_spec (len bytes) 0) as [E|_]; [lia |].
    destruct (IO.Write (Encoding.LPW_Writer w)
                (to_byte (Z.shiftr (len bytes) 8) :: to_byte (len bytes) :: bytes))
      as [inner [n [err|]]]; reflexivity.
  - apply be16_decode_small. lia.
  - unfold Encoding.LengthPacketReader_ReadMultiBuffer.
    rewrite <- !app_comm_cons. rewrite read_cache_enough.
    cbn [Encoding.LPR_cache Encoding.LPR_Reader fst snd].
    rewrite be16_decode_small by lia.
    rewrite read_payload_spec; try assumption.
    + reflexivity.
    + unfold len. lia.
  - now apply Bytes_fresh_chunks.
  - unfold len at 1. rewrite length_map. apply (length_chunks Size bytes HSize).
  - apply Forall_map. apply (chunks_bounds Size bytes HSize).
Qed.

Lemma LengthPacket_round_trip_witness :
  (0 < 4
   /\ Encoding.LPW_cache (Encoding.NewLengthPacketWriter (IO.mkSink [] false)) = []
   /\ 0 < len (Buf.MultiBuffer_Bytes datagram_example) <= 65535)
  /\ Encoding.LengthPacketWriter_WriteMultiBuffer
       (Encoding.NewLengthPacketWriter (IO.mkSink [] false)) datagram_example
     = (Encoding.mkLengthPacketWriter
          (IO.mkSink [x00; x07; x61; x62; x63; x64; x65; x66; x67] false) [],
        None)
  /\ Encoding.LengthPacketReader_ReadMultiBuffer 4
       (Encoding.NewLengthPacketReader
          [x00; x07; x61; x62; x63; x64; x65; x66; x67])
     = Some (Ok [ Buf.mkBuffer 4 0 [x61; x62; x63; x64];
                  Buf.mkBuffer 4 0 [x65; x66; x67] ],
             Encoding.mkLengthPacketReader [] (x00, x07)).
Proof.
  assert (H1 : 0 < 4) by reflexivity.
  assert (H2 : Encoding.LPW_cache
                 (Encoding.NewLengthPacketWriter (IO.mkSink [] false)) = [])
    by reflexivity.
  assert (H3 : 0 < len (Buf.MultiBuffer_Bytes datagram_example) <= 65535)
    by (split; [reflexivity | discriminate]).
  split; [exact (conj H1 (conj H2 H3)) |].
  pose proof (LengthPacket_round_trip 4 IO.Sink IO.Sink_Writer
                (Encoding.NewLengthPacketWriter (IO.mkSink [] false))
                datagram_example [] (x00, x00) H1 H2 H3)
    as [Hwrite [_ [Hread _]]].
  split; [exact Hwrite | exact Hread].
Defined.

(* ================================================================= *)
(** ** The addons header *)

Lemma carries_addons_test (a : Addons) :
  (String.eqb (Flow a) Encoding.XRV || (len (Seed a) >? 0) = true
   /\ carries_addons a)
  \/ (String.eqb (Flow a) Encoding.XRV || (len (Seed a) >? 0) = false
      /\ ~ carries_addons a).
Proof.
  unfold carries_addons.
  destruct (String.eqb_spec (Flow a) Encoding.XRV) as [E|E]; simpl.
  - left. split; [reflexivity | now left].
  - destruct (Seed a) as [|b s]; simpl.
    + right. split; [reflexivity | tauto].
    + left. split; [reflexivity | right; discriminate].
Qed.

Lemma has_room_weaken (b : Buf.Buffer) (n m : Z) :
  m <= n -> has_room b n -> has_room b m.
Proof. unfold has_room. lia. Qed.

Lemma EncodeHeaderAddons_marshalled
  (Marshal : Addons -> result (list byte)) (buffer : Buf.Buffer) (a : Addons)
  (bytes : list byte) :
  carries_addons a -> Marshal a = Ok bytes -> has_room buffer (1 + len bytes) ->
  Encoding.EncodeHeaderAddons Marshal buffer a
  = (appended buffer (to_byte (len bytes) :: bytes), None).
Proof.
  intros Ha Hm Hroom. unfold Encoding.EncodeHeaderAddons.
  destruct (carries_addons_test a) as [[-> _]|[_ Hno]]; [| tauto].
  rewrite Hm.
  pose proof (len_nonneg bytes).
  rewrite WriteByte_room by (apply (has_room_weaken buffer (1 + len bytes)); [lia | assumption]).
  rewrite Write_room.
  - now rewrite appended_appended.
  - unfold has_room in *. rewrite end_appended. unfold len at 1. simpl. lia.
Qed.

Lemma EncodeHeaderAddons_plain
  (Marshal : Addons -> result (list byte)) (buffer : Buf.Buffer) (a : Addons) :
  ~ carries_addons a -> has_room buffer 1 ->
  Encoding.EncodeHeaderAddons Marshal buffer a = (appended buffer [x00], None).
Proof.
  intros Ha Hroom. unfold Encoding.EncodeHeaderAddons.
  destruct (carries_addons_test a) as [[_ Hyes]|[-> _]]; [tauto |].
  rewrite to_byte_zero, WriteByte_room by assumption. reflexivity.
Qed.

Lemma has_room_Clear (b : Buf.Buffer) (n : Z) :
  n <= Buf.v_len b -> has_room (Buf.Clear b) n.
Proof.
  unfold has_room, Buf.end_, Buf.Clear. cbn [Buf.start Buf.payload Buf.v_len].
  change (len (@nil byte)) with 0. lia.
Qed.

Lemma DecodeHeaderAddons_zero
  (Unmarshal : list byte -> result Addons) (buffer : Buf.Buffer) (rest : list byte) :
  1 <= Buf.v_len buffer ->
  Encoding.DecodeHeaderAddons Unmarshal buffer (x00 :: rest)
  = (Ok new_Addons, Buf.mkBuffer (Buf.v_len buffer) 0 [x00], rest).
Proof.
  intros Hcap. unfold Encoding.DecodeHeaderAddons.
  change (x00 :: rest) with ([x00] ++ rest).
  change 1 with (len [x00]) at 1.
  rewrite ReadFullFrom_enough by (now apply has_room_Clear).
  reflexivity.
Qed.

Lemma DecodeHeaderAddons_framed
  (Unmarshal : list byte -> result Addons) (buffer : Buf.Buffer)
  (bytes rest : list byte) :
  0 < len bytes <= 255 -> len bytes <= Buf.v_len buffer ->
  Encoding.DecodeHeaderAddons Unmarshal buffer (to_byte (len bytes) :: bytes ++ rest)
  = (match Unmarshal bytes with
     | Ok a => Ok a
     | Err err => Err (Base "failed to unmarshal addons protobuf value" err)
     end,
     Buf.mkBuffer (Buf.v_len buffer) 0 bytes, rest).
Proof.
  intros Hlen Hcap. unfold Encoding.DecodeHeaderAddons.
  change (to_byte (len bytes) :: bytes ++ rest)
    with ([to_byte (len bytes)] ++ (bytes ++ rest)).
  change 1 with (len [to_byte (len bytes)]) at 1.
  rewrite ReadFullFrom_enough by (apply has_room_Clear; change (len [to_byte (len bytes)]) with 1; lia).
  unfold appended, Buf.Clear, Buf.Byte. cbn [Buf.payload Buf.v_len Buf.start Z.to_nat].
  change (nth 0 ([] ++ [to_byte (len bytes)]) x00) with (to_byte (len bytes)).
  rewrite of_byte_to_byte, Z.mod_small by lia.
  destruct (Z.eqb_spec (len bytes) 0) as [E|_]; [lia |].
  cbn [negb].
  change (Buf.mkBuffer (Buf.v_len buffer) 0 []) with (Buf.Clear buffer).
  rewrite ReadFullFrom_enough by (now apply has_room_Clear).
  unfold appended, Buf.Clear, Buf.Bytes. cbn [Buf.payload Buf.v_len Buf.start].
  change ([] ++ bytes) with bytes.
  destruct (Unmarshal bytes); reflexivity.
Qed.

(** C1, amended.  For an addons record whose [Flow] is "xtls-rprx-vision"
    or whose [Seed] is not empty, and whose serialization takes at most
    255 bytes, [EncodeHeaderAddons] appends to a buffer with room for them
    exactly one byte equal to the size of the serialization, followed by
    the serialized bytes, and succeeds; for any other record it appends
    exactly one zero byte and succeeds. *)
Theorem EncodeHeaderAddons_spec
  (Marshal : Addons -> result (list byte)) (buffer : Buf.Buffer)
  (a plain : Addons) (bytes : list byte)
  (Ha : carries_addons a)
  (Hm : Marshal a = Ok bytes)
  (Hlen : len bytes <= 255)
  (Hroom : has_room buffer (1 + len bytes))
  (Hplain : ~ carries_addons plain) :
  Encoding.EncodeHeaderAddons Marshal buffer a
  = (appended buffer (to_byte (len bytes) :: bytes), None)
  /\ of_byte (to_byte (len bytes)) = len bytes
  /\ Encoding.EncodeHeaderAddons Marshal buffer plain
     = (appended buffer [x00], None).
Proof.
  pose proof (len_nonneg bytes) as Hn.
  split; [| split].
  - now apply EncodeHeaderAddons_marshalled.
  - rewrite of_byte_to_byte. apply Z.mod_small. lia.
  - apply EncodeHeaderAddons_plain; [assumption |].
    apply (has_room_weaken buffer (1 + len bytes)); [lia | assumption].
Qed.

(** In the wire format a record that carries addons takes at least one
    byte. *)
Lemma put_varint_not_nil (fuel : nat) (n : Z) : put_varint (S fuel) n <> [].
Proof. simpl. destruct (n <? 128); discriminate. Qed.

Lemma put_bytes_not_nil (field : Z) (bs : list byte) :
  bs <> [] -> 0 < len (put_bytes field bs).
Proof.
  intros Hbs. unfold put_bytes. destruct bs as [|b bs]; [congruence |].
  rewrite len_app. unfold tag, varint.
  pose proof (put_varint_not_nil 9 (Z.lor (Z.shiftl field 3) 2 mod 2 ^ 64)) as Htag.
  pose proof (len_nonneg (put_varint 10 (len (b :: bs) mod 2 ^ 64) ++ b :: bs)).
  destruct (put_varint 10 (Z.lor (Z.shiftl field 3) 2 mod 2 ^ 64)) as [|t ts];
    [congruence |].
  unfold len at 1. cbn [List.length]. lia.
Qed.

Lemma Marshal_carries_not_empty (a : Addons) (bytes : list byte) :
  carries_addons a -> Pb.Marshal a = Ok bytes -> 0 < len bytes.
Proof.
  intros Ha Hm. unfold Pb.Marshal in Hm. injection Hm as <-.
  rewrite !len_app.
  repeat match goal with
         | |- context [len ?l] =>
             lazymatch goal with
             | _ : 0 <= len l |- _ => fail
             | _ => pose proof (len_nonneg l)
             end
         end.
  destruct Ha as [Hflow|Hseed].
  - assert (0 < len (put_string 1 (Flow a))); [| lia].
    rewrite Hflow. reflexivity.
  - assert (0 < len (put_bytes 2 (Seed a))); [| lia].
    now apply put_bytes_not_nil.
Qed.

Lemma vision_example_carries : carries_addons vision_example.
Proof. left. reflexivity. Qed.

Lemma new_Addons_plain : ~ carries_addons new_Addons.
Proof. intros [H|H]; [discriminate H | apply H; reflexivity]. Qed.

Lemma EncodeHeaderAddons_spec_witness :
  (carries_addons vision_example
   /\ Pb.Marshal vision_example = Ok vision_bytes
   /\ len vision_bytes <= 255
   /\ has_room (Buf.New 8192) (1 + len vision_bytes)
   /\ ~ carries_addons new_Addons)
  /\ Encoding.EncodeHeaderAddons Pb.Marshal (Buf.New 8192) vision_example
     = (Buf.mkBuffer 8192 0 (x12 :: vision_bytes), None)
  /\ of_byte (to_byte (len vision_bytes)) = len vision_bytes
  /\ Encoding.EncodeHeaderAddons Pb.Marshal (Buf.New 8192) new_Addons
     = (Buf.mkBuffer 8192 0 [x00], None).
Proof.
  assert (Hm : Pb.Marshal vision_example = Ok vision_bytes) by reflexivity.
  assert (Hlen : len vision_bytes <= 255) by discriminate.
  assert (Hroom : has_room (Buf.New 8192) (1 + len vision_bytes)) by discriminate.
  split.
  - exact (conj vision_example_carries
             (conj Hm (conj Hlen (conj Hroom new_Addons_plain)))).
  - exact (EncodeHeaderAddons_spec Pb.Marshal (Buf.New 8192) vision_example
             new_Addons vision_bytes vision_example_carries Hm Hlen Hroom
             new_Addons_plain).
Defined.

(** C1 as stated fails: the record [oversized_example] carries a seed, its
    serialization takes 256 bytes, and [EncodeHeaderAddons] reports no
    error; the length byte it writes is zero. *)
Lemma EncodeHeaderAddons_oversized :
  carries_addons oversized_example
  /\ exists bytes,
       Pb.Marshal oversized_example = Ok bytes
       /\ len bytes = 256
       /\ Encoding.EncodeHeaderAddons Pb.Marshal (Buf.New 8192) oversized_example
          = (Buf.mkBuffer 8192 0 (x00 :: bytes), None).
Proof.
  split; [right; discriminate |].
  eexists. split; [reflexivity |]. split; reflexivity.
Qed.

(** C3, amended.  For an addons record [a] whose [Flow] is
    "xtls-rprx-vision" or whose [Seed] is not empty, whose serialization
    takes between 1 and 255 bytes and is read back by the deserializer as
    [a], [DecodeHeaderAddons] applied to what [EncodeHeaderAddons] wrote
    returns [a]; for any other record the encoded form is the single byte
    0x00, and decoding it returns an empty record whatever the
    deserializer would do, which is not asked. *)
Theorem HeaderAddons_round_trip
  (Marshal : Addons -> result (list byte))
  (Unmarshal : list byte -> result Addons)
  (wbuf rbuf : Buf.Buffer) (a plain : Addons) (bytes rest : list byte)
  (Ha : carries_addons a)
  (Hm : Marshal a = Ok bytes)
  (Hu : Unmarshal bytes = Ok a)
  (Hlen : 0 < len bytes <= 255)
  (Hroom : has_room wbuf (1 + len bytes))
  (Hcap : len bytes <= Buf.v_len rbuf)
  (Hplain : ~ carries_addons plain) :
  Encoding.EncodeHeaderAddons Marshal wbuf a
  = (appended wbuf (to_byte (len bytes) :: bytes), None)
  /\ Encoding.DecodeHeaderAddons Unmarshal rbuf
       ((to_byte (len bytes) :: bytes) ++ rest)
     = (Ok a, Buf.mkBuffer (Buf.v_len rbuf) 0 bytes, rest)
  /\ Encoding.EncodeHeaderAddons Marshal wbuf plain = (appended wbuf [x00], None)
  /\ forall Unmarshal' : list byte -> result Addons,
       Encoding.DecodeHeaderAddons Unmarshal' rbuf ([x00] ++ rest)
       = (Ok new_Addons, Buf.mkBuffer (Buf.v_len rbuf) 0 [x00], rest).
Proof.
  pose proof (len_nonneg bytes) as Hn.
  split; [| split; [| split]].
  - now apply EncodeHeaderAddons_marshalled.
  - rewrite <- app_comm_cons.
    rewrite DecodeHeaderAddons_framed by assumption.
    now rewrite Hu.
  - apply EncodeHeaderAddons_plain; [assumption |].
    apply (has_room_weaken wbuf (1 + len bytes)); [lia | assumption].
  - intros Unmarshal'. apply DecodeHeaderAddons_zero. lia.
Qed.

Lemma HeaderAddons_round_trip_witness :
  (carries_addons vision_example
   /\ Pb.Marshal vision_example = Ok vision_bytes
   /\ Pb.Unmarshal vision_bytes = Ok vision_example
   /\ 0 < len vision_bytes <= 255
   /\ has_room (Buf.New 8192) (1 + len vision_bytes)
   /\ len vision_bytes <= Buf.v_len (Buf.New 8192)
   /\ ~ carries_addons new_Addons)
  /\ Encoding.EncodeHeaderAddons Pb.Marshal (Buf.New 8192) vision_example
     = (Buf.mkBuffer 8192 0 (x12 :: vision_bytes), None)
  /\ Encoding.DecodeHeaderAddons Pb.Unmarshal (Buf.New 8192)
       ((x12 :: vision_bytes) ++ [xff])
     = (Ok vision_example, Buf.mkBuffer 8192 0 vision_bytes, [xff])
  /\ Encoding.EncodeHeaderAddons Pb.Marshal (Buf.New 8192) new_Addons
     = (Buf.mkBuffer 8192 0 [x00], None)
  /\ Encoding.DecodeHeaderAddons (fun _ => Err (newError "not asked"))
       (Buf.New 8192) ([x00] ++ [xff])
     = (Ok new_Addons, Buf.mkBuffer 8192 0 [x00], [xff]).
Proof.
  assert (Hm : Pb.Marshal vision_example = Ok vision_bytes) by reflexivity.
  assert (Hu : Pb.Unmarshal vision_bytes = Ok vision_example) by reflexivity.
  assert (Hlen : 0 < len vision_bytes <= 255)
    by (split; [reflexivity | discriminate]).
  assert (Hroom : has_room (Buf.New 8192) (1 + len vision_bytes)) by discriminate.
  assert (Hcap : len vision_bytes <= Buf.v_len (Buf.New 8192)) by discriminate.
  split.
  - exact (conj vision_example_carries
             (conj Hm (conj Hu (conj Hlen (conj Hroom (conj Hcap new_Addons_plain)))))).
  - pose proof (HeaderAddons_round_trip Pb.Marshal Pb.Unmarshal
                  (Buf.New 8192) (Buf.New 8192) vision_example new_Addons
                  vision_bytes [xff] vision_example_carries Hm Hu Hlen Hroom
                  Hcap new_Addons_plain) as [He [Hd [Hp Hz]]].
    split; [exact He |]. split; [exact Hd |]. split; [exact Hp |].
    exact (Hz (fun _ => Err (newError "not asked"))).
Defined.

(** C3 as stated fails: [oversized_example] carries a seed and its 256
    serialized bytes are read back by the deserializer as the record
    itself, yet what [EncodeHeaderAddons] wrote for it starts with a zero
    length byte, and [DecodeHeaderAddons] returns an empty record. *)
Lemma HeaderAddons_round_trip_oversized :
  carries_addons oversized_example
  /\ (exists bytes,
        Pb.Marshal oversized_example = Ok bytes
        /\ Pb.Unmarshal bytes = Ok oversized_example)
  /\ snd (Encoding.EncodeHeaderAddons Pb.Marshal (Buf.New 8192) oversized_example)
     = None
  /\ fst (fst (Encoding.DecodeHeaderAddons Pb.Unmarshal (Buf.New 8192)
                 (Buf.Bytes
                    (fst (Encoding.EncodeHeaderAddons Pb.Marshal (Buf.New 8192)
                            oversized_example)))))
     = Ok new_Addons
  /\ Ok new_Addons <> Ok oversized_example.
Proof.
  split; [right; discriminate |].
  split; [eexists; split; reflexivity |].
  split; [reflexivity |].
  split; [reflexivity | discriminate].
Qed.

(* ================================================================= *)
(** ** [Dial]: the download half *)

Lemma Dial_unfold (world : Splithttp.World) (settings : Splithttp.Settings)
  (resp : Splithttp.Response) :
  Splithttp.NewRequest world "GET" (download_url world settings) = None ->
  Splithttp.Do world "GET" (download_url world settings) = Ok resp ->
  Splithttp.Dial world settings
  = if negb (Splithttp.StatusCode resp =? 200) then
      (Err (newError (String.append "invalid status code on download:"
                                    (Splithttp.Status resp))),
       None)
    else
      match IO.ReadFull (Splithttp.Body resp) 2 with
      | (_, _, Some _) =>
          (Err (newError "failed to read initial response"),
           Some (uploader_of world settings))
      | (_, body, None) =>
          (Ok (Splithttp.mkSplitConn body (Splithttp.remoteAddr world)
                                     (Splithttp.localAddr world)),
           Some (uploader_of world settings))
      end.
Proof.
  intros Hreq Hdo. unfold Splithttp.Dial.
  fold (download_url world settings).
  rewrite Hreq, Hdo. reflexivity.
Qed.

Lemma ReadFull_two_short (body : IO.Reader) :
  len body < 2 -> exists got rest err, IO.ReadFull body 2 = (got, rest, Some err).
Proof.
  intros H. unfold IO.ReadFull. simpl.
  destruct (Z.leb_spec 2 (len body)); [lia |].
  destruct body; eauto.
Qed.

Lemma ReadFull_two (b0 b1 : byte) (tail : list byte) :
  IO.ReadFull (b0 :: b1 :: tail) 2 = ([b0; b1], tail, None).
Proof.
  unfold IO.ReadFull. simpl.
  destruct (Z.leb_spec 2 (len (b0 :: b1 :: tail))) as [_|H]; [reflexivity |].
  unfold len in H. cbn [List.length] in H. lia.
Qed.

(** C5. Once the download GET is answered, [Dial] fails and returns no
    connection when the status is not 200, with an error that carries the
    status received, and when fewer than two bytes of the body can be
    read, with the error "failed to read initial response"; the two errors
    differ.  When both tests pass, the reader of the connection returned
    is the body without its first two bytes. *)
Theorem Dial_download_checks (world : Splithttp.World)
  (settings : Splithttp.Settings) (resp : Splithttp.Response)
  (Hreq : Splithttp.NewRequest world "GET" (download_url world settings) = None)
  (Hdo : Splithttp.Do world "GET" (download_url world settings) = Ok resp) :
  (Splithttp.StatusCode resp <> 200 ->
   Splithttp.Dial world settings
   = (Err (newError (String.append "invalid status code on download:"
                                   (Splithttp.Status resp))),
      None))
  /\ (Splithttp.StatusCode resp = 200 -> len (Splithttp.Body resp) < 2 ->
      Splithttp.Dial world settings
      = (Err (newError "failed to read initial response"),
         Some (uploader_of world settings)))
  /\ (forall (b0 b1 : byte) (tail : list byte),
        Splithttp.StatusCode resp = 200 ->
        Splithttp.Body resp = b0 :: b1 :: tail ->
        Splithttp.Dial world settings
        = (Ok (Splithttp.mkSplitConn tail (Splithttp.remoteAddr world)
                                     (Splithttp.localAddr world)),
           Some (uploader_of world settings)))
  /\ newError (String.append "invalid status code on download:"
                             (Splithttp.Status resp))
     <> newError "failed to read initial response".
Proof.
  rewrite (Dial_unfold world settings resp Hreq Hdo).
  split; [| split; [| split]].
  - intros Hstatus.
    destruct (Z.eqb_spec (Splithttp.StatusCode resp) 200); [contradiction | reflexivity].
  - intros Hstatus Hshort. rewrite Hstatus. simpl.
    destruct (ReadFull_two_short _ Hshort) as [got [rest [err ->]]]. reflexivity.
  - intros b0 b1 tail Hstatus Hbody. rewrite Hstatus, Hbody. simpl negb. cbv iota.
    now rewrite ReadFull_two.
  - simpl. discriminate.
Qed.

Lemma Dial_download_checks_witness :
  Splithttp.Dial (world_example not_found) settings_example
  = (Err (newError "invalid status code on download:404 Not Found"), None)
  /\ Splithttp.Dial (world_example one_byte) settings_example
     = (Err (newError "failed to read initial response"), Some uploader_example)
  /\ Splithttp.Dial (world_example ok_hello) settings_example
     = (Ok (Splithttp.mkSplitConn [x68; x65; x6c; x6c; x6f]
              (Some "203.0.113.5:443") (Some "192.0.2.1:50000")),
        Some uploader_example).
Proof.
  split; [| split].
  - destruct (Dial_download_checks (world_example not_found) settings_example
                not_found eq_refl eq_refl) as [Hstatus _].
    apply Hstatus. discriminate.
  - destruct (Dial_download_checks (world_example one_byte) settings_example
                one_byte eq_refl eq_refl) as [_ [Hshort _]].
    apply Hshort; reflexivity.
  - destruct (Dial_download_checks (world_example ok_hello) settings_example
                ok_hello eq_refl eq_refl) as [_ [_ [Hok _]]].
    apply (Hok x6f x6b [x68; x65; x6c; x6c; x6f]); reflexivity.
Defined.

(* ================================================================= *)
(** ** The upload goroutine *)

Lemma wrap64_succ (c : Z) : wrap64 (wrap64 c + 1) = wrap64 (c + 1).
Proof.
  unfold wrap64.
  replace ((c + 2 ^ 63) mod 2 ^ 64 - 2 ^ 63 + 1 + 2 ^ 63)
    with ((c + 2 ^ 63) mod 2 ^ 64 + 1) by lia.
  rewrite Z.add_mod_idemp_l by lia.
  f_equal. f_equal. lia.
Qed.

Lemma append_inj_l (s a b : string) :
  String.append s a = String.append s b -> a = b.
Proof.
  induction s as [|c s IH]; simpl; intros H; [exact H |].
  injection H as H. now apply IH.
Qed.

Lemma remove_nth_length {A : Type} (i : nat) (l : list A) :
  (i < List.length l)%nat -> len (Splithttp.remove_nth i l) = len l - 1.
Proof.
  unfold len. revert i.
  induction l as [|x l IH]; intros i Hi; cbn [List.length] in *; [lia |].
  destruct i as [|i]; cbn [Splithttp.remove_nth List.length].
  - lia.
  - specialize (IH i ltac:(lia)). lia.
Qed.

Lemma start_inv (u : Splithttp.Uploader) : reachable_inv u (Splithttp.start u).
Proof.
  constructor; simpl; try reflexivity.
  unfold Splithttp.held, Splithttp.semaphore_New. simpl. unfold len. simpl. lia.
Qed.

(** The shape of a step that is taken. *)
Ltac step_cases Hstep u s e i :=
  unfold Splithttp.step in Hstep;
  destruct e as [?chunk| | | |i ?o];
  destruct (Splithttp.producer s) as [|?c|?c|] eqn:?Ep;
  try discriminate Hstep;
  try (destruct (Z.ltb_spec 0 (Splithttp.requestsLimiter s));
       [| discriminate Hstep]);
  try (destruct (nth_error (Splithttp.inflight s) i) eqn:?En;
       [| discriminate Hstep];
       destruct (Z.ltb_spec (Splithttp.requestsLimiter s)
                            (Splithttp.maxConcurrentUploads u));
       [| discriminate Hstep]);
  injection Hstep as <-.

Lemma step_inv (u : Splithttp.Uploader) (s s' : Splithttp.State)
  (e : Splithttp.Event) :
  reachable_inv u s -> Splithttp.step u s e = Some s' -> reachable_inv u s'.
Proof.
  intros [Hp Hc Hposts] Hstep.
  unfold Splithttp.held in *.
  step_cases Hstep u s e i.
  5-8: assert (Hi : (i < List.length (Splithttp.inflight s))%nat)
         by (apply nth_error_Some; congruence);
       constructor; simpl; unfold Splithttp.held; simpl; try assumption;
       rewrite remove_nth_length by assumption; lia.
  1-3: constructor; simpl; unfold Splithttp.held; simpl; try assumption; lia.
  constructor; simpl; unfold Splithttp.held; simpl.
  - rewrite len_app. unfold len at 2. simpl. lia.
  - rewrite Hc, wrap64_succ, len_app. reflexivity.
  - rewrite length_app. simpl. rewrite Nat.add_1_r, seq_S, map_app. simpl.
    rewrite <- Hposts. unfold post_url64. fold (len (Splithttp.posts s)).
    now rewrite <- Hc.
Qed.

Lemma step_nonneg (u : Splithttp.Uploader) (s s' : Splithttp.State)
  (e : Splithttp.Event) :
  0 <= Splithttp.requestsLimiter s -> Splithttp.step u s e = Some s' ->
  0 <= Splithttp.requestsLimiter s'.
Proof.
  intros Hn Hstep. step_cases Hstep u s e i; simpl; lia.
Qed.

Lemma run_nonneg (u : Splithttp.Uploader) (es : list Splithttp.Event)
  (s s' : Splithttp.State) :
  0 <= Splithttp.requestsLimiter s -> Splithttp.run u s es = Some s' ->
  0 <= Splithttp.requestsLimiter s'.
Proof.
  revert s. induction es as [|e es IH]; intros s Hn Hrun; simpl in Hrun.
  - now injection Hrun as <-.
  - destruct (Splithttp.step u s e) as [s1|] eqn:Hstep; [| discriminate].
    apply (IH s1); [| assumption].
    now apply (step_nonneg u s s1 e).
Qed.

Lemma run_inv (u : Splithttp.Uploader) (es : list Splithttp.Event)
  (s s' : Splithttp.State) :
  reachable_inv u s -> Splithttp.run u s es = Some s' -> reachable_inv u s'.
Proof.
  revert s. induction es as [|e es IH]; intros s Hinv Hrun; simpl in Hrun.
  - now injection Hrun as <-.
  - destruct (Splithttp.step u s e) as [s1|] eqn:Hstep; [| discriminate].
    apply (IH s1); [| assumption].
    now apply (step_inv u s s1 e).
Qed.

Lemma post_url_inj (u : Splithttp.Uploader) (n m : nat) :
  post_url u n = post_url u m -> n = m.
Proof.
  unfold post_url. intros H.
  apply append_inj_l, FormatInt_inj in H. lia.
Qed.

Lemma post_url64_small (u : Splithttp.Uploader) (k : nat) :
  Z.of_nat k <= 2 ^ 63 ->
  map (post_url64 u) (seq 0 k) = map (post_url u) (seq 0 k).
Proof.
  intros Hk. apply map_ext_in. intros n Hn. apply in_seq in Hn.
  unfold post_url64, post_url. rewrite wrap64_small; [reflexivity | lia].
Qed.

(** C6. In a session the request counter starts at 0 and only the launch
    of a POST changes it, by one; the URLs of the POSTs launched so far
    carry the sequence numbers 0, 1, 2, ... in order, one each, so they are
    distinct.  The counter is an [int64]: the statement is for fewer than
    [2^63] launches. *)
Theorem upload_seq_prefix (u : Splithttp.Uploader) (es : list Splithttp.Event)
  (s : Splithttp.State)
  (Hrun : Splithttp.run u (Splithttp.start u) es = Some s)
  (Hbound : len (Splithttp.posts s) < 2 ^ 63) :
  Splithttp.requestCounter (Splithttp.start u) = 0
  /\ Splithttp.posts s
     = map (fun n => String.append (Splithttp.uploadUrl u) (FormatInt (Z.of_nat n)))
           (seq 0 (List.length (Splithttp.posts s)))
  /\ Splithttp.requestCounter s = len (Splithttp.posts s)
  /\ NoDup (Splithttp.posts s)
  /\ (forall s1 s2 : Splithttp.State,
        Splithttp.step u s1 Splithttp.Launch = Some s2 ->
        Splithttp.requestCounter s2 = wrap64 (Splithttp.requestCounter s1 + 1)
        /\ Splithttp.posts s2
           = Splithttp.posts s1
             ++ [String.append (Splithttp.uploadUrl u)
                               (FormatInt (Splithttp.requestCounter s1))])
  /\ (forall (s1 s2 : Splithttp.State) (e : Splithttp.Event),
        e <> Splithttp.Launch ->
        Splithttp.step u s1 e = Some s2 ->
        Splithttp.requestCounter s2 = Splithttp.requestCounter s1
        /\ Splithttp.posts s2 = Splithttp.posts s1).
Proof.
  destruct (run_inv u es _ s (start_inv u) Hrun) as [_ Hc Hposts].
  assert (Hurls : Splithttp.posts s
                  = map (post_url u) (seq 0 (List.length (Splithttp.posts s)))).
  { rewrite <- post_url64_small by (unfold len in Hbound; lia). exact Hposts. }
  split; [reflexivity |].
  split; [exact Hurls |].
  split.
  { rewrite Hc. apply wrap64_small. pose proof (len_nonneg (Splithttp.posts s)). lia. }
  split.
  { rewrite Hurls. apply Injective_map_NoDup; [| apply seq_NoDup].
    intros n m. apply post_url_inj. }
  split.
  - intros s1 s2 Hstep. unfold Splithttp.step in Hstep.
    destruct (Splithttp.producer s1); try discriminate.
    injection Hstep as <-. simpl. split; reflexivity.
  - intros s1 s2 e He Hstep.
    step_cases Hstep u s1 e i; simpl; try (split; reflexivity).
    congruence.
Qed.

(** C9. With a semaphore of [maxConcurrentUploads] permits, in every state
    the goroutine reaches at most that many upload tasks are in flight:
    the permits left and the permits held always add up to
    [maxConcurrentUploads].  The producer reaches its [go] statement only
    through a step that took a permit, and a task in flight can always
    end, whatever its outcome, giving its permit back. *)
Theorem upload_concurrency_bound (u : Splithttp.Uploader)
  (es : list Splithttp.Event) (s : Splithttp.State)
  (Hmax : 0 <= Splithttp.maxConcurrentUploads u)
  (Hrun : Splithttp.run u (Splithttp.start u) es = Some s) :
  len (Splithttp.inflight s) <= Splithttp.maxConcurrentUploads u
  /\ Splithttp.requestsLimiter s + Splithttp.held s
     = Splithttp.maxConcurrentUploads u
  /\ 0 <= Splithttp.requestsLimiter s
  /\ (forall s' : Splithttp.State,
        Splithttp.step u s Splithttp.Launch = Some s' ->
        exists chunk, Splithttp.producer s = Splithttp.AtLaunch chunk)
  /\ (forall s' : Splithttp.State,
        Splithttp.step u s Splithttp.Acquire = Some s' ->
        0 < Splithttp.requestsLimiter s
        /\ Splithttp.requestsLimiter s' = Splithttp.requestsLimiter s - 1
        /\ exists chunk, Splithttp.producer s' = Splithttp.AtLaunch chunk)
  /\ (forall (s' : Splithttp.State) (e : Splithttp.Event) (chunk : Buf.MultiBuffer),
        Splithttp.step u s e = Some s' ->
        Splithttp.producer s' = Splithttp.AtLaunch chunk ->
        e = Splithttp.Acquire \/ Splithttp.producer s = Splithttp.AtLaunch chunk)
  /\ (forall (i : nat) (o : Splithttp.Outcome),
        (i < List.length (Splithttp.inflight s))%nat ->
        exists s',
          Splithttp.step u s (Splithttp.TaskExit i o) = Some s'
          /\ Splithttp.requestsLimiter s' = Splithttp.requestsLimiter s + 1
          /\ len (Splithttp.inflight s') = len (Splithttp.inflight s) - 1).
Proof.
  destruct (run_inv u es _ s (start_inv u) Hrun) as [Hp _ _].
  assert (Hn : 0 <= Splithttp.requestsLimiter s).
  { apply (run_nonneg u es (Splithttp.start u) s); [exact Hmax | exact Hrun]. }
  assert (Hheld : len (Splithttp.inflight s) <= Splithttp.held s).
  { unfold Splithttp.held. destruct (Splithttp.producer s); lia. }
  split; [lia |]. split; [exact Hp |]. split; [exact Hn |].
  split; [| split; [| split]].
  - intros s' Hstep. unfold Splithttp.step in Hstep.
    destruct (Splithttp.producer s) as [|c|c|]; try discriminate. now exists c.
  - intros s' Hstep. unfold Splithttp.step in Hstep.
    destruct (Splithttp.producer s) as [|c|c|]; try discriminate.
    destruct (Z.ltb_spec 0 (Splithttp.requestsLimiter s)); [| discriminate].
    injection Hstep as <-. simpl. split; [assumption |]. split; [reflexivity |].
    now exists c.
  - intros s' e chunk Hstep Hat.
    step_cases Hstep u s e i; simpl in Hat; try discriminate Hat; auto.
  - intros i o Hi.
    assert (Hlt : Splithttp.requestsLimiter s < Splithttp.maxConcurrentUploads u).
    { assert (0 < len (Splithttp.inflight s)) by (unfold len; lia). lia. }
    unfold Splithttp.step.
    destruct (nth_error (Splithttp.inflight s) i) eqn:En;
      [| apply nth_error_None in En; lia].
    destruct (Z.ltb_spec (Splithttp.requestsLimiter s)
                         (Splithttp.maxConcurrentUploads u)); [| lia].
    eexists. split; [reflexivity |]. simpl.
    split; [reflexivity | now apply remove_nth_length].
Qed.

Lemma session_example_run :
  Splithttp.run uploader_example (Splithttp.start uploader_example) session_example
  = Some session_end.
Proof. reflexivity. Qed.

Lemma upload_seq_prefix_witness :
  (Splithttp.run uploader_example (Splithttp.start uploader_example)
     session_example = Some session_end
   /\ len (Splithttp.posts session_end) < 2 ^ 63)
  /\ Splithttp.posts session_end
     = [post_example "0"; post_example "1"; post_example "2"]
  /\ Splithttp.requestCounter session_end = 3
  /\ NoDup (Splithttp.posts session_end).
Proof.
  assert (Hbound : len (Splithttp.posts session_end) < 2 ^ 63) by reflexivity.
  split; [exact (conj session_example_run Hbound) |].
  pose proof (upload_seq_prefix uploader_example session_example session_end
                session_example_run Hbound) as [_ [Hposts [Hcounter [Hnodup _]]]].
  split; [exact Hposts |]. split; [exact Hcounter | exact Hnodup].
Defined.

Lemma upload_concurrency_bound_witness :
  (0 <= Splithttp.maxConcurrentUploads uploader_example
   /\ Splithttp.run uploader_example (Splithttp.start uploader_example)
        session_example = Some session_end)
  /\ len (Splithttp.inflight session_end) <= 2
  /\ Splithttp.requestsLimiter session_end + Splithttp.held session_end = 2
  /\ exists s',
       Splithttp.step uploader_example session_end
         (Splithttp.TaskExit 0 (Splithttp.DoFailed IO.EOF)) = Some s'
       /\ Splithttp.requestsLimiter s' = 2
       /\ len (Splithttp.inflight s') = 0.
Proof.
  assert (Hmax : 0 <= Splithttp.maxConcurrentUploads uploader_example)
    by discriminate.
  split; [exact (conj Hmax session_example_run) |].
  pose proof (upload_concurrency_bound uploader_example session_example
                session_end Hmax session_example_run)
    as [Hbound [Hpermits [_ [_ [_ [_ Hexit]]]]]].
  split; [exact Hbound |]. split; [exact Hpermits |].
  exact (Hexit 0%nat (Splithttp.DoFailed IO.EOF) (Nat.lt_0_succ 0)).
Defined.

(* ================================================================= *)
(** ** [forwardConnection] after a failed dispatch *)

(** C8. When [Dispatch] returns an error, [forwardConnection] logs it at
    error level and goes on exactly as it does without the error: with a
    link, both halves run on its [Writer] and [Reader]; with a nil link,
    the unguarded [link.Writer] panics, so the function does not promise a
    run without failure after a dispatch error. *)
Theorem forwardConnection_dispatch_error (w : Wireguard.World)
  (dispatch : string -> option Wireguard.Link * option error) (dest : string)
  (l : option Wireguard.Link) (err : error)
  (Hd : Wireguard.dispatcher w = Some dispatch)
  (He : dispatch dest = (l, Some err)) :
  In (Wireguard.Log Wireguard.AtError "dispatch connection")
     (fst (Wireguard.forwardConnection w dest))
  /\ fst (Wireguard.forwardConnection w dest)
     = firstn 2 (fst (Wireguard.forwardConnection (without_error w l) dest))
       ++ [Wireguard.Log Wireguard.AtError "dispatch connection"]
       ++ skipn 2 (fst (Wireguard.forwardConnection (without_error w l) dest))
  /\ snd (Wireguard.forwardConnection w dest)
     = snd (Wireguard.forwardConnection (without_error w l) dest)
  /\ (forall link : Wireguard.Link,
        l = Some link ->
        exists after,
          fst (Wireguard.forwardConnection w dest)
          = [ Wireguard.CancelAfterInactivity
                (Wireguard.ConnectionIdle (Wireguard.timeouts w));
              Wireguard.Dispatch dest;
              Wireguard.Log Wireguard.AtError "dispatch connection";
              Wireguard.CopyRequest (Wireguard.Writer link) ] ++ after
          /\ In (Wireguard.CopyResponse (Wireguard.Reader link)) after)
  /\ (l = None ->
      Wireguard.forwardConnection w dest
      = ([ Wireguard.CancelAfterInactivity
             (Wireguard.ConnectionIdle (Wireguard.timeouts w));
           Wireguard.Dispatch dest;
           Wireguard.Log Wireguard.AtError "dispatch connection";
           Wireguard.Cancel; Wireguard.ConnClose ],
         Wireguard.Panicked)).
Proof.
  unfold Wireguard.forwardConnection, without_error. cbn [Wireguard.dispatcher].
  rewrite Hd, He. unfold Wireguard.task_Run, Wireguard.requestDonePost,
    Wireguard.responseDone.
  cbn [Wireguard.timeouts Wireguard.requestCopy Wireguard.responseCopy].
  destruct l as [link|].
  - destruct (Wireguard.requestCopy w), (Wireguard.responseCopy w);
      cbn [fst snd app firstn skipn];
      (split; [simpl; tauto |]);
      (split; [reflexivity |]);
      (split; [reflexivity |]);
      (split; [| discriminate]);
      intros link' E; injection E as <-;
      eexists; (split; [reflexivity |]); simpl; tauto.
  - cbn [fst snd app firstn skipn].
    split; [simpl; tauto |].
    split; [reflexivity |].
    split; [reflexivity |].
    split; [discriminate | reflexivity].
Qed.

Lemma forwardConnection_dispatch_error_witness :
  Wireguard.forwardConnection world_nil_link "tcp:10.0.0.1:80"
  = ([ Wireguard.CancelAfterInactivity 300;
       Wireguard.Dispatch "tcp:10.0.0.1:80";
       Wireguard.Log Wireguard.AtError "dispatch connection";
       Wireguard.Cancel; Wireguard.ConnClose ],
     Wireguard.Panicked)
  /\ In (Wireguard.Log Wireguard.AtError "dispatch connection")
        (fst (Wireguard.forwardConnection world_with_link "tcp:10.0.0.1:80"))
  /\ snd (Wireguard.forwardConnection world_with_link "tcp:10.0.0.1:80")
     = Wireguard.Returned.
Proof.
  split; [| split].
  - destruct (forwardConnection_dispatch_error world_nil_link
                (fun _ => (None, Some refused)) "tcp:10.0.0.1:80" None refused
                eq_refl eq_refl) as [_ [_ [_ [_ Hnil]]]].
    exact (Hnil eq_refl).
  - destruct (forwardConnection_dispatch_error world_with_link
                (fun _ => (Some (Wireguard.mkLink 1 2), Some refused))
                "tcp:10.0.0.1:80" (Some (Wireguard.mkLink 1 2)) refused
                eq_refl eq_refl) as [Hlog _].
    exact Hlog.
  - destruct (forwardConnection_dispatch_error world_with_link
                (fun _ => (Some (Wireguard.mkLink 1 2), Some refused))
                "tcp:10.0.0.1:80" (Some (Wireguard.mkLink 1 2)) refused
                eq_refl eq_refl) as [_ [_ [Hsnd _]]].
    exact Hsnd.
Defined.


(* ================================================================= *)
(** ** [LengthPacketReader] on any stream *)

Lemma of_byte_range (b : byte) : 0 <= of_byte b <= 255.
Proof.
  unfold of_byte. pose proof (Byte.to_N_bounded b). lia.
Qed.

Lemma be16_bytes (hi lo : byte) :
  Z.lor (Z.shiftl (of_byte hi) 8) (of_byte lo) = of_byte hi * 256 + of_byte lo.
Proof.
  pose proof (of_byte_range hi) as Hhi. pose proof (of_byte_range lo) as Hlo.
  set (n := of_byte hi * 256 + of_byte lo).
  assert (Ehi : to_byte (Z.shiftr n 8) = hi).
  { rewrite Z.shiftr_div_pow2 by lia. change (2 ^ 8) with 256.
    unfold n. rewrite Z.div_add_l by lia.
    rewrite (Z.div_small (of_byte lo)) by lia.
    rewrite Z.add_0_r. apply to_byte_of_byte. }
  assert (Elo : to_byte n = lo).
  { rewrite <- (to_byte_of_byte lo). unfold to_byte, n.
    rewrite Z.add_comm, Z.mod_add by lia. reflexivity. }
  transitivity (Z.lor (Z.shiftl (of_byte (to_byte (Z.shiftr n 8))) 8)
                      (of_byte (to_byte n))).
  - now rewrite Ehi, Elo.
  - rewrite be16_decode. apply Z.mod_small. unfold n. lia.
Qed.

Lemma ReadFull_short (r : IO.Reader) (n : Z) :
  len r < n ->
  IO.ReadFull r n
  = (r, [], Some (match r with [] => IO.EOF | _ => IO.ErrUnexpectedEOF end)).
Proof.
  intros H. pose proof (len_nonneg r). unfold IO.ReadFull.
  destruct (Z.leb_spec n 0); [lia |].
  destruct (Z.leb_spec n (len r)); [lia |].
  destruct r; reflexivity.
Qed.

Lemma ReadFullFrom_short (b : Buf.Buffer) (r : IO.Reader) (n : Z) :
  has_room b n -> len r < n ->
  Buf.ReadFullFrom b r n
  = (appended b r, [],
     (len r, Some (match r with [] => IO.EOF | _ => IO.ErrUnexpectedEOF end))).
Proof.
  unfold has_room, Buf.ReadFullFrom. intros Hroom Hshort.
  destruct (Z.gtb_spec (Buf.end_ b + n) (Buf.v_len b)); [lia |].
  now rewrite ReadFull_short.
Qed.

Lemma ReadFullFrom_exactly (b : Buf.Buffer) (bs rest : list byte) (n : Z) :
  len bs = n -> has_room b n ->
  Buf.ReadFullFrom b (bs ++ rest) n = (appended b bs, rest, (n, None)).
Proof. intros <-. apply ReadFullFrom_enough. Qed.

Lemma has_room_New (Size n : Z) : n <= Size -> has_room (Buf.New Size) n.
Proof.
  unfold has_room, Buf.end_, Buf.New. cbn [Buf.start Buf.payload Buf.v_len].
  change (len (@nil byte)) with 0. lia.
Qed.

Lemma read_payload_short (Size : Z) (stream : list byte) :
  0 < Size ->
  forall (L : Z) (acc : Buf.MultiBuffer) (fuel : nat),
    len stream < L -> L < 2 ^ 31 -> (Z.to_nat L <= fuel)%nat ->
    exists e,
      (e = IO.EOF \/ e = IO.ErrUnexpectedEOF)
      /\ Encoding.read_payload Size fuel L stream acc
         = Some (Err (Base "failed to read packet payload" e), []).
Proof.
  intros HSize. pattern stream. apply (chunk_ind Size); [exact HSize | | clear stream].
  - intros L acc fuel Hshort H31 Hfuel. change (len (@nil byte)) with 0 in Hshort.
    destruct fuel as [|fuel]; [lia |].
    rewrite read_payload_unfold.
    destruct (Z.gtb_spec L 0); [| lia].
    rewrite ReadFullFrom_short.
    + exists IO.EOF. split; [now left | reflexivity].
    + apply has_room_New. destruct (Z.gtb_spec L Size); lia.
    + change (len (@nil byte)) with 0. destruct (Z.gtb_spec L Size); lia.
  - intros stream Hne IH L acc fuel Hshort H31 Hfuel.
    pose proof (len_nonneg stream) as Hn.
    destruct fuel as [|fuel]; [lia |].
    rewrite read_payload_unfold.
    destruct (Z.gtb_spec L 0); [| lia].
    set (size := if L >? Size then Size else L).
    assert (Hsize : 0 < size <= Size /\ size <= L).
    { subst size. destruct (Z.gtb_spec L Size); lia. }
    destruct (Z.lt_ge_cases (len stream) size) as [Hcut|Hfull].
    + rewrite ReadFullFrom_short; [| apply has_room_New; lia | exact Hcut].
      exists IO.ErrUnexpectedEOF. split; [now right |].
      destruct stream; [congruence | reflexivity].
    + assert (Esize : size = Size).
      { subst size. destruct (Z.gtb_spec L Size); lia. }
      rewrite Esize in *.
      assert (Efirst : len (firstn (Z.to_nat Size) stream) = Size)
        by (apply len_firstn; lia).
      assert (Hread : Buf.ReadFullFrom (Buf.New Size) stream Size
                      = (appended (Buf.New Size) (firstn (Z.to_nat Size) stream),
                         skipn (Z.to_nat Size) stream, (Size, None))).
      { rewrite <- (firstn_skipn (Z.to_nat Size) stream) at 1.
        apply ReadFullFrom_exactly; [exact Efirst | apply has_room_New; lia]. }
      rewrite Hread.
      rewrite wrap32_small by lia.
      apply IH.
      * rewrite len_skipn by lia. lia.
      * lia.
      * lia.
Qed.

Lemma ReadMultiBuffer_frame (Size : Z) (hi lo : byte) (bs rest : list byte)
  (cache : byte * byte) :
  0 < Size ->
  Z.lor (Z.shiftl (of_byte hi) 8) (of_byte lo) = len bs ->
  Encoding.LengthPacketReader_ReadMultiBuffer Size
    (Encoding.mkLengthPacketReader (hi :: lo :: bs ++ rest) cache)
  = Some (Ok (map (fresh Size) (chunks Size bs)),
          Encoding.mkLengthPacketReader rest (hi, lo)).
Proof.
  intros HSize Hlen.
  pose proof (of_byte_range hi). pose proof (of_byte_range lo).
  assert (Hb : len bs < 65536) by (rewrite <- Hlen, be16_bytes; lia).
  unfold Encoding.LengthPacketReader_ReadMultiBuffer.
  rewrite read_cache_enough.
  cbn [Encoding.LPR_cache Encoding.LPR_Reader fst snd].
  rewrite Hlen, read_payload_spec; try assumption; try lia.
  - reflexivity.
  - unfold len. lia.
Qed.

(** X1. With a positive buffer size [ReadMultiBuffer] returns on every
    stream.  It fails with "failed to read packet length" when the stream
    ends before the two bytes of the length (on [EOF] for an empty stream,
    on an unexpected [EOF] after one byte), and with "failed to read packet
    payload" when fewer bytes follow than the length announces, whatever it
    had read by then being dropped.  Otherwise it returns exactly the
    announced bytes, cut into buffers, and leaves the rest of the stream
    unread; a length of zero gives an empty multi-buffer. *)
Theorem ReadMultiBuffer_decides (Size : Z) (cache : byte * byte)
  (HSize : 0 < Size) :
  Encoding.LengthPacketReader_ReadMultiBuffer Size
    (Encoding.mkLengthPacketReader [] cache)
  = Some (Err (Base "failed to read packet length" IO.EOF),
          Encoding.mkLengthPacketReader [] cache)
  /\ (forall c0 : byte,
        Encoding.LengthPacketReader_ReadMultiBuffer Size
          (Encoding.mkLengthPacketReader [c0] cache)
        = Some (Err (Base "failed to read packet length" IO.ErrUnexpectedEOF),
                Encoding.mkLengthPacketReader [] (c0, snd cache)))
  /\ (forall (c0 c1 : byte) (tail : list byte),
        of_byte c0 * 256 + of_byte c1 <= len tail ->
        Encoding.LengthPacketReader_ReadMultiBuffer Size
          (Encoding.mkLengthPacketReader (c0 :: c1 :: tail) cache)
        = Some (Ok (map (fresh Size)
                      (chunks Size
                         (firstn (Z.to_nat (of_byte c0 * 256 + of_byte c1)) tail))),
                Encoding.mkLengthPacketReader
                  (skipn (Z.to_nat (of_byte c0 * 256 + of_byte c1)) tail)
                  (c0, c1)))
  /\ (forall (c0 c1 : byte) (tail : list byte),
        len tail < of_byte c0 * 256 + of_byte c1 ->
        exists e,
          (e = IO.EOF \/ e = IO.ErrUnexpectedEOF)
          /\ Encoding.LengthPacketReader_ReadMultiBuffer Size
               (Encoding.mkLengthPacketReader (c0 :: c1 :: tail) cache)
             = Some (Err (Base "failed to read packet payload" e),
                     Encoding.mkLengthPacketReader [] (c0, c1))).
Proof.
  split; [reflexivity |]. split; [intros c0; destruct cache; reflexivity |].
  split.
  - intros c0 c1 tail Hlen.
    pose proof (of_byte_range c0). pose proof (of_byte_range c1).
    set (L := of_byte c0 * 256 + of_byte c1) in *.
    rewrite <- (firstn_skipn (Z.to_nat L) tail) at 1.
    apply ReadMultiBuffer_frame; [exact HSize |].
    rewrite be16_bytes. fold L. symmetry. apply len_firstn. lia.
  - intros c0 c1 tail Hshort.
    pose proof (of_byte_range c0). pose proof (of_byte_range c1).
    unfold Encoding.LengthPacketReader_ReadMultiBuffer.
    rewrite read_cache_enough.
    cbn [Encoding.LPR_cache Encoding.LPR_Reader fst snd].
    rewrite be16_bytes.
    destruct (read_payload_short Size tail HSize
                (of_byte c0 * 256 + of_byte c1) []
                (Z.to_nat (of_byte c0 * 256 + of_byte c1)))
      as [e [He Hread]]; try lia.
    exists e. split; [exact He |]. now rewrite Hread.
Qed.

Lemma ReadMultiBuffer_decides_witness :
  0 < 4
  /\ Encoding.LengthPacketReader_ReadMultiBuffer 4
       (Encoding.mkLengthPacketReader [x00; x05; x61; x62; x63; x64; x65; x66]
                                      (x00, x00))
     = Some (Ok [Buf.mkBuffer 4 0 [x61; x62; x63; x64]; Buf.mkBuffer 4 0 [x65]],
             Encoding.mkLengthPacketReader [x66] (x00, x05))
  /\ Encoding.LengthPacketReader_ReadMultiBuffer 4
       (Encoding.mkLengthPacketReader [x00; x00; x61] (x00, x00))
     = Some (Ok [], Encoding.mkLengthPacketReader [x61] (x00, x00))
  /\ Encoding.LengthPacketReader_ReadMultiBuffer 4
       (Encoding.mkLengthPacketReader [x07] (x00, x05))
     = Some (Err (Base "failed to read packet length" IO.ErrUnexpectedEOF),
             Encoding.mkLengthPacketReader [] (x07, x05)).
Proof.
  assert (HSize : 0 < 4) by reflexivity.
  split; [exact HSize |].
  destruct (ReadMultiBuffer_decides 4 (x00, x00) HSize) as [_ [_ [Hok _]]].
  destruct (ReadMultiBuffer_decides 4 (x00, x05) HSize) as [_ [Hone _]].
  split; [| split].
  - apply (Hok x00 x05 [x61; x62; x63; x64; x65; x66]). discriminate.
  - apply (Hok x00 x00 [x61]). discriminate.
  - exact (Hone x07).
Defined.

(* ================================================================= *)
(** ** Packets one after the other *)

Lemma read_packets_frames (Size : Z) (ps : list (list byte)) (rest : list byte) :
  0 < Size -> Forall (fun bs => len bs <= 65535) ps ->
  forall cache : byte * byte,
  exists cache',
    read_packets Size (List.length ps)
      (Encoding.mkLengthPacketReader (List.concat (map on_wire ps) ++ rest) cache)
    = Some (map (fun bs => map (fresh Size) (chunks Size bs)) ps,
            Encoding.mkLengthPacketReader rest cache').
Proof.
  intros HSize Hps. induction Hps as [|bs ps Hbs Hps IH]; intros cache.
  - exists cache. reflexivity.
  - pose proof (len_nonneg bs) as Hn.
    cbn [List.length map List.concat read_packets].
    assert (Hs : (on_wire bs ++ List.concat (map on_wire ps)) ++ rest
                 = to_byte (Z.shiftr (len bs) 8) :: to_byte (len bs)
                   :: bs ++ (List.concat (map on_wire ps) ++ rest)).
    { unfold on_wire at 1. rewrite <- !app_comm_cons. now rewrite <- app_assoc. }
    rewrite Hs.
    rewrite ReadMultiBuffer_frame
      by (try exact HSize; apply be16_decode_small; lia).
    destruct (IH (to_byte (Z.shiftr (len bs) 8), to_byte (len bs))) as [cache' ->].
    now exists cache'.
Qed.

Lemma write_packets_sink (mbs : list Buf.MultiBuffer) :
  Forall (fun mb => len (Buf.MultiBuffer_Bytes mb) < 2 ^ 31) mbs ->
  forall pre : list byte,
    write_packets (Encoding.mkLengthPacketWriter (IO.mkSink pre false) []) mbs
    = (Encoding.mkLengthPacketWriter
         (IO.mkSink
            (pre ++ List.concat
                      (map (fun mb => on_wire (Buf.MultiBuffer_Bytes mb))
                           (filter holds_bytes mbs)))
            false)
         [],
       None).
Proof.
  intros Hmbs. induction Hmbs as [|mb mbs Hmb Hmbs IH]; intros pre.
  - simpl. now rewrite app_nil_r.
  - cbn [write_packets filter].
    unfold Encoding.LengthPacketWriter_WriteMultiBuffer, holds_bytes.
    rewrite (MultiBuffer_Len_bytes mb Hmb).
    destruct (Z.eqb_spec (len (Buf.MultiBuffer_Bytes mb)) 0) as [E|E].
    + cbn [negb]. apply IH.
    + cbn [negb Encoding.LPW_Writer Encoding.LPW_cache IO.Write IO.Sink_Writer
           IO.closed IO.written map List.concat].
      rewrite (packet_spec mb Hmb), IH.
      unfold on_wire. now rewrite <- app_assoc.
Qed.

(** X2. Multi-buffers of at most 65535 bytes each, written one after the
    other through a [LengthPacketWriter] onto a byte stream, are read back
    from that stream one per call of [ReadMultiBuffer], in the order
    written and with their bytes unchanged; a multi-buffer without bytes
    leaves no trace on the stream and is not read back. *)
Theorem LengthPacket_stream (Size : Z) (mbs : list Buf.MultiBuffer)
  (pre rest : list byte)
  (HSize : 0 < Size)
  (Hmbs : Forall (fun mb => len (Buf.MultiBuffer_Bytes mb) <= 65535) mbs) :
  write_packets (Encoding.NewLengthPacketWriter (IO.mkSink pre false)) mbs
  = (Encoding.mkLengthPacketWriter
       (IO.mkSink
          (pre ++ List.concat
                    (map (fun mb => on_wire (Buf.MultiBuffer_Bytes mb))
                         (filter holds_bytes mbs)))
          false)
       [],
     None)
  /\ exists (read : list Buf.MultiBuffer) (cache : byte * byte),
       read_packets Size (List.length (filter holds_bytes mbs))
         (Encoding.NewLengthPacketReader
            (List.concat
               (map (fun mb => on_wire (Buf.MultiBuffer_Bytes mb))
                    (filter holds_bytes mbs))
             ++ rest))
       = Some (read, Encoding.mkLengthPacketReader rest cache)
       /\ map Buf.MultiBuffer_Bytes read
          = map Buf.MultiBuffer_Bytes (filter holds_bytes mbs)
       /\ Forall (Forall (fun b => 0 < Buf.Len b <= Size)) read.
Proof.
  split.
  - apply write_packets_sink.
    eapply Forall_impl; [| exact Hmbs]. intros mb H. simpl in H. lia.
  - assert (Hkept : Forall (fun bs => len bs <= 65535)
                      (map Buf.MultiBuffer_Bytes (filter holds_bytes mbs))).
    { apply Forall_map. apply Forall_forall. intros mb Hin.
      apply filter_In in Hin. destruct Hin as [Hin _].
      rewrite Forall_forall in Hmbs. now apply Hmbs. }
    destruct (read_packets_frames Size _ rest HSize Hkept (x00, x00))
      as [cache Hread].
    rewrite length_map, map_map in Hread.
    eexists. exists cache. split; [exact Hread |]. split.
    + rewrite !map_map. apply map_ext. intros mb.
      now apply Bytes_fresh_chunks.
    + apply Forall_map. apply Forall_forall. intros mb _.
      apply Forall_map. apply (chunks_bounds Size _ HSize).
Qed.

Lemma stream_example_bounds :
  Forall (fun mb => len (Buf.MultiBuffer_Bytes mb) <= 65535) stream_example.
Proof. repeat constructor; discriminate. Qed.

Lemma LengthPacket_stream_witness :
  (0 < 4
   /\ Forall (fun mb => len (Buf.MultiBuffer_Bytes mb) <= 65535) stream_example)
  /\ write_packets (Encoding.NewLengthPacketWriter (IO.mkSink [] false))
       stream_example
     = (Encoding.mkLengthPacketWriter
          (IO.mkSink [x00; x07; x61; x62; x63; x64; x65; x66; x67; x00; x01; x68]
                     false)
          [],
        None).
Proof.
  assert (HSize : 0 < 4) by reflexivity.
  split; [exact (conj HSize stream_example_bounds) |].
  exact (proj1 (LengthPacket_stream 4 stream_example [] [] HSize
                  stream_example_bounds)).
Defined.

(* ================================================================= *)
(** ** Packets too long for their header *)

(** X3. [LengthPacketWriter] does not check that the length fits its two
    bytes: for a multi-buffer of [L] bytes, [65535 < L < 2^31], it writes
    the low sixteen bits of [L] as the header, followed by all [L] bytes.
    The reader then returns only the first [L mod 65536] bytes and leaves
    the others on the stream, where the next call takes them for a
    header. *)
Theorem LengthPacket_oversize (Size : Z) (W : Type) (HW : IO.Writer W)
  (w : Encoding.LengthPacketWriter W) (M : Buf.MultiBuffer)
  (rest : list byte) (cache : byte * byte)
  (HSize : 0 < Size)
  (Hcache : Encoding.LPW_cache w = [])
  (HL : 65535 < len (Buf.MultiBuffer_Bytes M) < 2 ^ 31) :
  Encoding.LengthPacketWriter_WriteMultiBuffer w M
  = (Encoding.mkLengthPacketWriter
       (fst (IO.Write (Encoding.LPW_Writer w) (on_wire (Buf.MultiBuffer_Bytes M))))
       [],
     option_map (Base "failed to write a packet")
       (snd (snd (IO.Write (Encoding.LPW_Writer w)
                    (on_wire (Buf.MultiBuffer_Bytes M))))))
  /\ Encoding.LengthPacketReader_ReadMultiBuffer Size
       (Encoding.mkLengthPacketReader (on_wire (Buf.MultiBuffer_Bytes M) ++ rest)
                                      cache)
     = Some (Ok (map (fresh Size)
                   (chunks Size
                      (firstn (Z.to_nat (len (Buf.MultiBuffer_Bytes M) mod 2 ^ 16))
                              (Buf.MultiBuffer_Bytes M)))),
             Encoding.mkLengthPacketReader
               (skipn (Z.to_nat (len (Buf.MultiBuffer_Bytes M) mod 2 ^ 16))
                      (Buf.MultiBuffer_Bytes M) ++ rest)
               (to_byte (Z.shiftr (len (Buf.MultiBuffer_Bytes M)) 8),
                to_byte (len (Buf.MultiBuffer_Bytes M))))
  /\ Buf.MultiBuffer_Bytes
       (map (fresh Size)
          (chunks Size
             (firstn (Z.to_nat (len (Buf.MultiBuffer_Bytes M) mod 2 ^ 16))
                     (Buf.MultiBuffer_Bytes M))))
     <> Buf.MultiBuffer_Bytes M.
Proof.
  set (bytes := Buf.MultiBuffer_Bytes M) in *.
  assert (H31 : len bytes < 2 ^ 31) by lia.
  assert (Hmod : 0 <= len bytes mod 2 ^ 16 < 2 ^ 16)
    by (apply Z.mod_pos_bound; lia).
  split; [| split].
  - unfold Encoding.LengthPacketWriter_WriteMultiBuffer.
    rewrite Hcache, (packet_spec M H31), (MultiBuffer_Len_bytes M H31).
    fold bytes. fold (on_wire bytes).
    destruct (Z.eqb_spec (len bytes) 0) as [E|_]; [lia |].
    destruct (IO.Write (Encoding.LPW_Writer w) (on_wire bytes))
      as [inner [n [err|]]]; reflexivity.
  - unfold on_wire. rewrite <- !app_comm_cons.
    rewrite <- (firstn_skipn (Z.to_nat (len bytes mod 2 ^ 16)) bytes) at 3.
    rewrite <- app_assoc.
    apply ReadMultiBuffer_frame; [exact HSize |].
    rewrite be16_decode. symmetry. apply len_firstn. lia.
  - rewrite Bytes_fresh_chunks by exact HSize.
    intros E. apply (f_equal len) in E.
    rewrite len_firstn in E by lia. lia.
Qed.

Lemma jumbo_example_length :
  65535 < len (Buf.MultiBuffer_Bytes jumbo_example) < 2 ^ 31.
Proof. vm_compute. split; reflexivity. Qed.

Lemma LengthPacket_oversize_witness :
  (0 < 8192
   /\ Encoding.LPW_cache (Encoding.NewLengthPacketWriter (IO.mkSink [] false)) = []
   /\ 65535 < len (Buf.MultiBuffer_Bytes jumbo_example) < 2 ^ 31)
  /\ Buf.MultiBuffer_Bytes
       (map (fresh 8192)
          (chunks 8192
             (firstn (Z.to_nat (len (Buf.MultiBuffer_Bytes jumbo_example) mod 2 ^ 16))
                     (Buf.MultiBuffer_Bytes jumbo_example))))
     <> Buf.MultiBuffer_Bytes jumbo_example.
Proof.
  assert (HSize : 0 < 8192) by reflexivity.
  assert (Hcache : Encoding.LPW_cache
                     (Encoding.NewLengthPacketWriter (IO.mkSink [] false)) = [])
    by reflexivity.
  split; [exact (conj HSize (conj Hcache jumbo_example_length)) |].
  exact (proj2 (proj2 (LengthPacket_oversize 8192 IO.Sink IO.Sink_Writer
                         (Encoding.NewLengthPacketWriter (IO.mkSink [] false))
                         jumbo_example [] (x00, x00) HSize Hcache
                         jumbo_example_length))).
Defined.

(* ================================================================= *)
(** ** The body codec of a UDP request *)

Lemma chunks_single (Size : Z) (bs : list byte) :
  0 < len bs <= Size -> chunks Size bs = [bs].
Proof.
  intros H. assert (HSize : 0 < Size) by lia.
  assert (Hne : bs <> []) by (intros ->; unfold len in H; simpl in H; lia).
  rewrite chunks_cons by assumption.
  rewrite firstn_all2, skipn_all2 by (unfold len in H; lia).
  now rewrite chunks_nil.
Qed.

Lemma Bytes_framed (Size : Z) (kept : Buf.MultiBuffer) :
  Buf.MultiBuffer_Bytes (map (framed Size) kept)
  = List.concat (map on_wire (map Buf.Bytes kept)).
Proof.
  unfold Buf.MultiBuffer_Bytes. rewrite flat_map_concat_map, !map_map.
  reflexivity.
Qed.



(* ================================================================= *)
(** ** The addons header: failures *)

Lemma DecodeHeaderAddons_length_byte
  (Unmarshal : list byte -> result Addons) (buffer : Buf.Buffer)
  (l : byte) (tail : list byte) :
  1 <= Buf.v_len buffer -> of_byte l <> 0 ->
  Encoding.DecodeHeaderAddons Unmarshal buffer (l :: tail)
  = match Buf.ReadFullFrom (Buf.Clear buffer) tail (of_byte l) with
    | (buffer', reader, (_, Some err)) =>
        (Err (Base "failed to read addons protobuf value" err), buffer', reader)
    | (buffer', reader, (_, None)) =>
        match Unmarshal (Buf.Bytes buffer') with
        | Err err =>
            (Err (Base "failed to unmarshal addons protobuf value" err),
             buffer', reader)
        | Ok addons => (Ok addons, buffer', reader)
        end
    end.
Proof.
  intros Hcap Hl. unfold Encoding.DecodeHeaderAddons.
  change (l :: tail) with ([l] ++ tail).
  rewrite (ReadFullFrom_exactly (Buf.Clear buffer) [l] tail 1 eq_refl)
    by (now apply has_room_Clear).
  unfold appended, Buf.Clear, Buf.Byte. cbn [Buf.payload Buf.v_len Buf.start Z.to_nat].
  change (nth 0 ([] ++ [l]) x00) with l.
  destruct (Z.eqb_spec (of_byte l) 0) as [E|_]; [contradiction |].
  reflexivity.
Qed.

(** X5. On a buffer of capacity at least 255, [DecodeHeaderAddons] fails
    with "failed to read addons protobuf length" on an empty stream, with
    "failed to read addons protobuf value" when fewer bytes follow the
    length byte than it announces (the stream is then used up), and with
    "failed to unmarshal addons protobuf value", wrapping the error of the
    deserializer, when the announced bytes are there and are refused; in
    that case the bytes after them stay unread. *)
Theorem DecodeHeaderAddons_errors
  (Unmarshal : list byte -> result Addons) (buffer : Buf.Buffer)
  (Hcap : 255 <= Buf.v_len buffer) :
  Encoding.DecodeHeaderAddons Unmarshal buffer []
  = (Err (Base "failed to read addons protobuf length" IO.EOF),
     Buf.Clear buffer, [])
  /\ (forall (l : byte) (tail : list byte),
        len tail < of_byte l ->
        exists e,
          (e = IO.EOF \/ e = IO.ErrUnexpectedEOF)
          /\ Encoding.DecodeHeaderAddons Unmarshal buffer (l :: tail)
             = (Err (Base "failed to read addons protobuf value" e),
                Buf.mkBuffer (Buf.v_len buffer) 0 tail, []))
  /\ (forall (bytes rest : list byte) (e : error),
        0 < len bytes <= 255 ->
        Unmarshal bytes = Err e ->
        Encoding.DecodeHeaderAddons Unmarshal buffer
          (to_byte (len bytes) :: bytes ++ rest)
        = (Err (Base "failed to unmarshal addons protobuf value" e),
           Buf.mkBuffer (Buf.v_len buffer) 0 bytes, rest)).
Proof.
  split; [| split].
  - unfold Encoding.DecodeHeaderAddons.
    rewrite ReadFullFrom_short; [reflexivity | apply has_room_Clear; lia |].
    change (len (@nil byte)) with 0. lia.
  - intros l tail Hshort.
    pose proof (len_nonneg tail). pose proof (of_byte_range l).
    rewrite DecodeHeaderAddons_length_byte by lia.
    rewrite ReadFullFrom_short; [| apply has_room_Clear; lia | exact Hshort].
    eexists. split; [| reflexivity].
    destruct tail; [now left | now right].
  - intros bytes rest e Hlen Hu.
    rewrite DecodeHeaderAddons_framed by lia. now rewrite Hu.
Qed.

Lemma DecodeHeaderAddons_errors_witness :
  255 <= Buf.v_len (Buf.New 8192)
  /\ Encoding.DecodeHeaderAddons Pb.Unmarshal (Buf.New 8192) []
     = (Err (Base "failed to read addons protobuf length" IO.EOF),
        Buf.New 8192, [])
  /\ (exists e,
        (e = IO.EOF \/ e = IO.ErrUnexpectedEOF)
        /\ Encoding.DecodeHeaderAddons Pb.Unmarshal (Buf.New 8192)
             [x12; x0a; x10; x78]
           = (Err (Base "failed to read addons protobuf value" e),
              Buf.mkBuffer 8192 0 [x0a; x10; x78], []))
  /\ Encoding.DecodeHeaderAddons Pb.Unmarshal (Buf.New 8192) [x02; x0a; x10; xff]
     = (Err (Base "failed to unmarshal addons protobuf value"
               (newError "proto: cannot parse invalid wire-format data")),
        Buf.mkBuffer 8192 0 [x0a; x10], [xff]).
Proof.
  assert (Hcap : 255 <= Buf.v_len (Buf.New 8192)) by discriminate.
  split; [exact Hcap |].
  destruct (DecodeHeaderAddons_errors Pb.Unmarshal (Buf.New 8192) Hcap)
    as [Hempty [Hshort Hrefused]].
  split; [exact Hempty |]. split.
  - apply (Hshort x12 [x0a; x10; x78]). reflexivity.
  - apply (Hrefused [x0a; x10] [xff]
             (newError "proto: cannot parse invalid wire-format data")).
    + split; [reflexivity | discriminate].
    + reflexivity.
Defined.

(** X6. When [EncodeHeaderAddons] fails, the buffer is left as it was, and
    the failure is one of two: the serializer refused a record that carries
    addons ("failed to marshal addons protobuf value", wrapping its error),
    or the buffer was full ("failed to write addons protobuf length"). *)
Theorem EncodeHeaderAddons_failure
  (Marshal : Addons -> result (list byte)) (buffer buffer' : Buf.Buffer)
  (a : Addons) (err : error)
  (Hfail : Encoding.EncodeHeaderAddons Marshal buffer a = (buffer', Some err)) :
  buffer' = buffer
  /\ ((exists e,
         carries_addons a /\ Marshal a = Err e
         /\ err = Base "failed to marshal addons protobuf value" e)
      \/ (Buf.IsFull buffer = true
          /\ err = Base "failed to write addons protobuf length"
                        (newError "buffer full"))).
Proof.
  unfold Encoding.EncodeHeaderAddons, Buf.WriteByte, Buf.Write in Hfail.
  destruct (carries_addons_test a) as [[Ht Ha]|[Ht Ha]]; rewrite Ht in Hfail.
  - destruct (Marshal a) as [bytes|e] eqn:Hm.
    + destruct (Buf.IsFull buffer) eqn:Hfull.
      * injection Hfail as <- <-. split; [reflexivity |]. right. now split.
      * discriminate Hfail.
    + injection Hfail as <- <-. split; [reflexivity |]. left.
      exists e. repeat split; assumption.
  - destruct (Buf.IsFull buffer) eqn:Hfull.
    + injection Hfail as <- <-. split; [reflexivity |]. right. now split.
    + discriminate Hfail.
Qed.

Lemma EncodeHeaderAddons_failure_witness :
  Encoding.EncodeHeaderAddons Pb.Marshal (Buf.mkBuffer 2 0 [x01; x02])
    vision_example
  = (Buf.mkBuffer 2 0 [x01; x02],
     Some (Base "failed to write addons protobuf length" (newError "buffer full")))
  /\ Buf.mkBuffer 2 0 [x01; x02] = Buf.mkBuffer 2 0 [x01; x02].
Proof.
  split; [reflexivity |].
  exact (proj1 (EncodeHeaderAddons_failure Pb.Marshal
                  (Buf.mkBuffer 2 0 [x01; x02]) (Buf.mkBuffer 2 0 [x01; x02])
                  vision_example
                  (Base "failed to write addons protobuf length"
                        (newError "buffer full"))
                  eq_refl)).
Defined.

(* ================================================================= *)
(** ** [CheckSeed] as an equivalence *)

Lemma check_Padding_eq (p q : option PaddingConfig) :
  check_Padding p q = None <-> p = q.
Proof.
  destruct p as [[a1 a2 a3 a4]|], q as [[b1 b2 b3 b4]|]; simpl;
    try (split; [discriminate | discriminate]); try tauto.
  destruct (Z.eqb_spec a1 b1), (Z.eqb_spec a2 b2),
    (Z.eqb_spec a3 b3), (Z.eqb_spec a4 b4); simpl;
    split; intros E; try discriminate E; try reflexivity;
    try (injection E; intros; subst; congruence); congruence.
Qed.

Lemma check_Delay_eq (p q : option DelayConfig) :
  check_Delay p q = None <-> p = q.
Proof.
  destruct p as [[a1 a2 a3]|], q as [[b1 b2 b3]|]; simpl;
    try (split; [discriminate | discriminate]); try tauto.
  destruct (Bool.eqb_spec a1 b1), (Z.eqb_spec a2 b2), (Z.eqb_spec a3 b3); simpl;
    split; intros E; try discriminate E; try reflexivity;
    try (injection E; intros; subst; congruence); congruence.
Qed.

Lemma check_Scheduler_eq (p q : option SchedulerConfig) :
  check_Scheduler p q = None <-> p = q.
Proof.
  destruct p as [[a1]|], q as [[b1]|]; simpl;
    try (split; [discriminate | discriminate]); try tauto.
  destruct (Z.eqb_spec a1 b1); simpl;
    split; intros E; try discriminate E; try reflexivity;
    try (injection E; intros; subst; congruence); congruence.
Qed.

Lemma CheckSeed_None_iff (a b : Addons) :
  Encoding.CheckSeed a b = None
  <-> Seed a = Seed b /\ Mode a = Mode b /\ Duration a = Duration b
      /\ Padding a = Padding b /\ Delay a = Delay b /\ Scheduler a = Scheduler b.
Proof.
  rewrite CheckSeed_unfold.
  destruct (bytes_Equal (Seed a) (Seed b)) eqn:E1; simpl.
  2:{ apply bytes_Equal_neq in E1. split; [discriminate | tauto]. }
  apply bytes_Equal_eq in E1.
  destruct (Z.eqb_spec (Mode a) (Mode b)) as [E2|E2]; simpl.
  2:{ split; [discriminate | tauto]. }
  destruct (String.eqb_spec (Duration a) (Duration b)) as [E3|E3]; simpl.
  2:{ split; [discriminate | tauto]. }
  pose proof (check_Padding_eq (Padding a) (Padding b)) as HP.
  pose proof (check_Delay_eq (Delay a) (Delay b)) as HD.
  pose proof (check_Scheduler_eq (Scheduler a) (Scheduler b)) as HS.
  destruct (check_Padding (Padding a) (Padding b)) as [e|].
  { split; [discriminate |]. intros [_ [_ [_ [E _]]]].
    apply HP in E. discriminate E. }
  destruct (check_Delay (Delay a) (Delay b)) as [e|].
  { split; [discriminate |]. intros [_ [_ [_ [_ [E _]]]]].
    apply HD in E. discriminate E. }
  rewrite HS. destruct HP as [HP _], HD as [HD _].
  split; [intros E | intros [_ [_ [_ [_ [_ E]]]]]; exact E].
  repeat split; auto.
Qed.

(** X7. [CheckSeed] passes exactly the pairs of records that are equal up
    to their [Flow], which it never looks at.  So it is reflexive and
    transitive: with the symmetry of C4, an equivalence. *)
Theorem CheckSeed_equal_up_to_Flow (a b c : Addons) :
  (Encoding.CheckSeed a b = None <-> with_Flow (Flow a) b = a)
  /\ (forall flow flow' : string,
        Encoding.CheckSeed (with_Flow flow a) (with_Flow flow' b)
        = Encoding.CheckSeed a b)
  /\ Encoding.CheckSeed a a = None
  /\ (Encoding.CheckSeed a b = None -> Encoding.CheckSeed b c = None ->
      Encoding.CheckSeed a c = None).
Proof.
  split; [| split; [| split]].
  - rewrite CheckSeed_None_iff. unfold with_Flow.
    destruct a, b; simpl. split.
    + intros [? [? [? [? [? ?]]]]]. subst. reflexivity.
    + intros E. injection E; intros; subst. repeat split.
  - intros flow flow'. reflexivity.
  - apply CheckSeed_None_iff. repeat split.
  - rewrite !CheckSeed_None_iff.
    intros [? [? [? [? [? ?]]]]] [? [? [? [? [? ?]]]]].
    repeat split; congruence.
Qed.

(* ================================================================= *)
(** ** [PopulateSeed] before the header is written *)



(* ================================================================= *)
(** ** [Dial]: every way out *)

Lemma Dial_cases (world : Splithttp.World) (settings : Splithttp.Settings) :
  Splithttp.Dial world settings
  = match Splithttp.NewRequest world "GET" (download_url world settings) with
    | Some err => (Err err, None)
    | None =>
        match Splithttp.Do world "GET" (download_url world settings) with
        | Err err => (Err err, None)
        | Ok resp =>
            if negb (Splithttp.StatusCode resp =? 200) then
              (Err (newError (String.append "invalid status code on download:"
                                            (Splithttp.Status resp))),
               None)
            else
              match IO.ReadFull (Splithttp.Body resp) 2 with
              | (_, _, Some _) =>
                  (Err (newError "failed to read initial response"),
                   Some (uploader_of world settings))
              | (_, body, None) =>
                  (Ok (Splithttp.mkSplitConn body (Splithttp.remoteAddr world)
                                             (Splithttp.localAddr world)),
                   Some (uploader_of world settings))
              end
        end
    end.
Proof. reflexivity. Qed.

Lemma ReadFull_two_cases (body : IO.Reader) :
  (len body < 2 /\ exists got rest err, IO.ReadFull body 2 = (got, rest, Some err))
  \/ (2 <= len body
      /\ IO.ReadFull body 2 = (firstn 2 body, skipn 2 body, None)).
Proof.
  destruct (Z.lt_ge_cases (len body) 2) as [H|H].
  - left. split; [exact H | now apply ReadFull_two_short].
  - right. split; [exact H |]. unfold IO.ReadFull. simpl.
    destruct (Z.leb_spec 2 (len body)); [reflexivity | lia].
Qed.

(** X9. [Dial] returns a connection exactly when the request is built, the
    GET is answered, the status is 200 and the body holds at least two
    bytes; an error building the request or sending it is returned as it
    is.  The upload goroutine is started as soon as the status is 200,
    before the body is looked at: a dial that fails on the initial read
    leaves it running. *)
Theorem Dial_outcomes (world : Splithttp.World) (settings : Splithttp.Settings) :
  ((exists conn up, Splithttp.Dial world settings = (Ok conn, up))
   <-> Splithttp.NewRequest world "GET" (download_url world settings) = None
       /\ exists resp,
            Splithttp.Do world "GET" (download_url world settings) = Ok resp
            /\ Splithttp.StatusCode resp = 200
            /\ 2 <= len (Splithttp.Body resp))
  /\ (snd (Splithttp.Dial world settings) <> None
      <-> Splithttp.NewRequest world "GET" (download_url world settings) = None
          /\ exists resp,
               Splithttp.Do world "GET" (download_url world settings) = Ok resp
               /\ Splithttp.StatusCode resp = 200)
  /\ (forall err,
        Splithttp.NewRequest world "GET" (download_url world settings) = Some err ->
        Splithttp.Dial world settings = (Err err, None))
  /\ (forall err,
        Splithttp.NewRequest world "GET" (download_url world settings) = None ->
        Splithttp.Do world "GET" (download_url world settings) = Err err ->
        Splithttp.Dial world settings = (Err err, None)).
Proof.
  rewrite Dial_cases.
  destruct (Splithttp.NewRequest world "GET" (download_url world settings))
    as [e0|] eqn:Hreq;
    [| destruct (Splithttp.Do world "GET" (download_url world settings))
         as [resp|e1] eqn:Hdo;
       [destruct (Z.eqb_spec (Splithttp.StatusCode resp) 200) as [Hs|Hs];
        cbn [negb];
        [destruct (ReadFull_two_cases (Splithttp.Body resp))
           as [[Hshort [got [rest [err ->]]]]|[Hlong ->]] |] |]].
  all: cbn [snd].
  all: repeat match goal with
         | |- _ /\ _ => split
         | |- _ <-> _ => split
         | |- _ -> _ => intro
         | |- forall _, _ => intro
         | H : exists _, _ |- _ => destruct H
         | H : _ /\ _ |- _ => destruct H
         | H : Ok _ = Ok _ |- _ => injection H as <-
         | H : Some _ = Some _ |- _ => injection H as <-
         end.
  all: try congruence.
  all: try lia.
  all: try (eexists; eexists; reflexivity).
  all: try (exists resp; repeat split; assumption).
Qed.

(* ================================================================= *)
(** ** The uploads of a session *)

Lemma Dial_uploader (world : Splithttp.World) (settings : Splithttp.Settings)
  (u : Splithttp.Uploader) :
  snd (Splithttp.Dial world settings) = Some u -> u = uploader_of world settings.
Proof.
  rewrite Dial_cases.
  destruct (Splithttp.NewRequest world "GET" (download_url world settings));
    [discriminate |].
  destruct (Splithttp.Do world "GET" (download_url world settings)) as [resp|];
    [| discriminate].
  destruct (negb (Splithttp.StatusCode resp =? 200)); [discriminate |].
  destruct (IO.ReadFull (Splithttp.Body resp) 2) as [[got body] [e|]];
    cbn [snd]; congruence.
Qed.

Lemma append_assoc (a b c : string) :
  String.append (String.append a b) c = String.append a (String.append b c).
Proof. induction a as [|x a IH]; simpl; [reflexivity | now rewrite IH]. Qed.

(** Induction over the states the goroutine reaches. *)
Lemma run_from_start (u : Splithttp.Uploader) (P : Splithttp.State -> Prop) :
  P (Splithttp.start u) ->
  (forall s e s',
      reachable_inv u s -> P s -> Splithttp.step u s e = Some s' -> P s') ->
  forall es s, Splithttp.run u (Splithttp.start u) es = Some s -> P s.
Proof.
  intros Hstart Hstep es s.
  assert (G : forall es s0,
             reachable_inv u s0 -> P s0 -> Splithttp.run u s0 es = Some s -> P s).
  { clear es. induction es as [|e es IH]; intros s0 Hinv HP Hrun; simpl in Hrun.
    - now injection Hrun as <-.
    - destruct (Splithttp.step u s0 e) as [s1|] eqn:E; [| discriminate].
      apply (IH s1); [now apply (step_inv u s0 s1 e) | | exact Hrun].
      now apply (Hstep s0 e s1). }
  apply G; [apply start_inv | exact Hstart].
Qed.

(** X10. The upload goroutine of a dial posts to the URL of the download
    GET, session id included, followed by "&seq=" and the decimal sequence
    number, counted from zero; and its semaphore has
    [maxConcurrentUploads] permits as the configuration gives them. *)
Theorem session_uploads (world : Splithttp.World) (settings : Splithttp.Settings)
  (u : Splithttp.Uploader) (es : list Splithttp.Event) (s : Splithttp.State)
  (Hdial : snd (Splithttp.Dial world settings) = Some u)
  (Hrun : Splithttp.run u (Splithttp.start u) es = Some s)
  (Hbound : len (Splithttp.posts s) < 2 ^ 63) :
  Splithttp.posts s
  = map (fun n =>
           String.append (download_url world settings)
             (String.append "&seq=" (FormatInt (Z.of_nat n))))
        (seq 0 (List.length (Splithttp.posts s)))
  /\ Splithttp.requestsLimiter s + Splithttp.held s
     = Splithttp.NormalizedMaxConcurrentUploads settings
  /\ Splithttp.maxUploadSize u = Splithttp.NormalizedMaxUploadSize settings.
Proof.
  apply Dial_uploader in Hdial. subst u.
  destruct (run_inv _ es _ s (start_inv _) Hrun) as [Hp _ Hposts].
  split; [| split; [exact Hp | reflexivity]].
  rewrite Hposts at 1.
  rewrite post_url64_small by (unfold len in Hbound; lia).
  apply map_ext. intros n. unfold post_url, uploader_of.
  cbn [Splithttp.uploadUrl]. apply append_assoc.
Qed.

Lemma session_uploads_witness :
  (snd (Splithttp.Dial (world_example one_byte) settings_example)
   = Some uploader_example
   /\ Splithttp.run uploader_example (Splithttp.start uploader_example)
        session_example = Some session_end
   /\ len (Splithttp.posts session_end) < 2 ^ 63)
  /\ Splithttp.posts session_end
     = [ "https://example.com/split/?session=6ba7b810-9dad-11d1-80b4-00c04fd430c8&seq=0";
         "https://example.com/split/?session=6ba7b810-9dad-11d1-80b4-00c04fd430c8&seq=1";
         "https://example.com/split/?session=6ba7b810-9dad-11d1-80b4-00c04fd430c8&seq=2" ].
Proof.
  assert (Hdial : snd (Splithttp.Dial (world_example one_byte) settings_example)
                  = Some uploader_example) by reflexivity.
  assert (Hbound : len (Splithttp.posts session_end) < 2 ^ 63) by reflexivity.
  split; [exact (conj Hdial (conj session_example_run Hbound)) |].
  exact (proj1 (session_uploads (world_example one_byte) settings_example
                  uploader_example session_example session_end Hdial
                  session_example_run Hbound)).
Defined.

(** X11. With at least one permit, the producer waits at the semaphore
    only while [maxConcurrentUploads] uploads are in flight, and it cannot
    wait for ever on their account: the end of any one of them, whatever
    its outcome, lets the producer take the permit and go on with its
    chunk. *)
Theorem uploader_not_stuck (u : Splithttp.Uploader) (es : list Splithttp.Event)
  (s : Splithttp.State) (chunk : Buf.MultiBuffer)
  (Hmax : 1 <= Splithttp.maxConcurrentUploads u)
  (Hrun : Splithttp.run u (Splithttp.start u) es = Some s)
  (Hwait : Splithttp.producer s = Splithttp.AtWait chunk)
  (Hblocked : Splithttp.step u s Splithttp.Acquire = None) :
  len (Splithttp.inflight s) = Splithttp.maxConcurrentUploads u
  /\ forall (i : nat) (o : Splithttp.Outcome),
       (i < List.length (Splithttp.inflight s))%nat ->
       exists s' s'',
         Splithttp.step u s (Splithttp.TaskExit i o) = Some s'
         /\ Splithttp.step u s' Splithttp.Acquire = Some s''
         /\ Splithttp.producer s'' = Splithttp.AtLaunch chunk.
Proof.
  destruct (run_inv u es _ s (start_inv u) Hrun) as [Hp _ _].
  assert (Hn : 0 <= Splithttp.requestsLimiter s).
  { apply (run_nonneg u es (Splithttp.start u) s); [simpl; unfold Splithttp.semaphore_New; lia | exact Hrun]. }
  unfold Splithttp.held in Hp. rewrite Hwait in Hp.
  unfold Splithttp.step in Hblocked. rewrite Hwait in Hblocked.
  destruct (Z.ltb_spec 0 (Splithttp.requestsLimiter s)) as [|Hzero];
    [discriminate |].
  split; [lia |].
  intros i o Hi. unfold Splithttp.step at 1.
  destruct (nth_error (Splithttp.inflight s) i) eqn:En;
    [| apply nth_error_None in En; lia].
  destruct (Z.ltb_spec (Splithttp.requestsLimiter s)
                       (Splithttp.maxConcurrentUploads u)); [| lia].
  eexists. eexists. split; [reflexivity |].
  unfold Splithttp.step. cbn [Splithttp.producer Splithttp.requestsLimiter].
  rewrite Hwait.
  destruct (Z.ltb_spec 0 (Splithttp.requestsLimiter s + 1)); [| lia].
  split; reflexivity.
Qed.

Lemma uploader_not_stuck_witness :
  (1 <= Splithttp.maxConcurrentUploads uploader_example
   /\ Splithttp.run uploader_example (Splithttp.start uploader_example)
        (firstn 7 session_example)
      = Some (Splithttp.mkState 0 2 (Splithttp.AtWait chunk_example)
                [ Splithttp.mkTask (post_example "0") chunk_example;
                  Splithttp.mkTask (post_example "1") chunk_example ]
                [post_example "0"; post_example "1"] []))
  /\ len [ Splithttp.mkTask (post_example "0") chunk_example;
           Splithttp.mkTask (post_example "1") chunk_example ] = 2.
Proof.
  assert (Hmax : 1 <= Splithttp.maxConcurrentUploads uploader_example)
    by discriminate.
  split; [exact (conj Hmax eq_refl) |].
  exact (proj1 (uploader_not_stuck uploader_example (firstn 7 session_example)
                  _ chunk_example Hmax eq_refl eq_refl eq_refl)).
Defined.

Lemma map_remove_nth {A B : Type} (f : A -> B) (i : nat) (l : list A) :
  map f (Splithttp.remove_nth i l) = Splithttp.remove_nth i (map f l).
Proof.
  revert i. induction l as [|x l IH]; intros [|i]; simpl; try reflexivity.
  now rewrite IH.
Qed.

Lemma remove_nth_incl {A : Type} (i : nat) (l : list A) :
  incl (Splithttp.remove_nth i l) l.
Proof.
  revert i. induction l as [|x l IH]; intros [|i]; simpl.
  - apply incl_refl.
  - apply incl_refl.
  - apply incl_tl, incl_refl.
  - intros y [->|Hy]; [now left | right; now apply (IH i)].
Qed.

Lemma remove_nth_NoDup {A : Type} (i : nat) (l : list A) :
  NoDup l -> NoDup (Splithttp.remove_nth i l).
Proof.
  intros H. revert i. induction H as [|x l Hx Hl IH]; intros [|i]; simpl;
    try constructor; try assumption.
  - intros Hin. apply Hx. now apply (remove_nth_incl i l).
  - apply IH.
Qed.

(** X12. While fewer than [2^63] uploads have been launched, the uploads in
    flight carry pairwise different URLs, hence different sequence
    numbers, each of them one of the URLs launched. *)
Theorem inflight_distinct (u : Splithttp.Uploader) (es : list Splithttp.Event)
  (s : Splithttp.State)
  (Hrun : Splithttp.run u (Splithttp.start u) es = Some s)
  (Hbound : len (Splithttp.posts s) <= 2 ^ 63) :
  NoDup (map Splithttp.task_url (Splithttp.inflight s))
  /\ incl (map Splithttp.task_url (Splithttp.inflight s)) (Splithttp.posts s)
  /\ len (Splithttp.inflight s) <= len (Splithttp.posts s).
Proof.
  revert Hbound.
  apply (run_from_start u
           (fun s => len (Splithttp.posts s) <= 2 ^ 63 ->
                     NoDup (map Splithttp.task_url (Splithttp.inflight s))
                     /\ incl (map Splithttp.task_url (Splithttp.inflight s))
                             (Splithttp.posts s)
                     /\ len (Splithttp.inflight s) <= len (Splithttp.posts s)))
    with (es := es); [| | exact Hrun].
  - intros _. simpl. split; [constructor |]. split; [apply incl_refl |].
    unfold len. simpl. lia.
  - clear es s Hrun. intros s e s' [_ Hc Hposts] IH Hstep Hbound.
    step_cases Hstep u s e i; cbn [Splithttp.inflight Splithttp.posts] in *;
      try (now apply IH).
    2-5: destruct (IH Hbound) as [Hnd [Hincl Hle]];
         assert (Hi : (i < List.length (Splithttp.inflight s))%nat)
           by (apply nth_error_Some; congruence);
         rewrite map_remove_nth;
         (split; [now apply remove_nth_NoDup |]);
         (split; [eapply incl_tran; [apply remove_nth_incl | exact Hincl] |]);
         rewrite remove_nth_length by exact Hi; lia.
    rewrite len_app in Hbound. change (len [_]) with 1 in Hbound.
    pose proof (len_nonneg (Splithttp.posts s)) as Hn.
    destruct (IH ltac:(lia)) as [Hnd [Hincl Hle]].
    assert (Hurls : Splithttp.posts s
                    = map (post_url u)
                          (seq 0 (List.length (Splithttp.posts s)))).
    { rewrite <- post_url64_small by (unfold len in Hbound, Hn; lia).
      exact Hposts. }
    assert (Hnew : String.append (Splithttp.uploadUrl u)
                                 (FormatInt (Splithttp.requestCounter s))
                   = post_url u (List.length (Splithttp.posts s))).
    { rewrite Hc, wrap64_small by lia. reflexivity. }
    assert (Hfresh : ~ In (post_url u (List.length (Splithttp.posts s)))
                          (Splithttp.posts s)).
    { rewrite Hurls at 2. intros Hin. apply in_map_iff in Hin.
      destruct Hin as [n [En Hin]]. apply post_url_inj in En.
      apply in_seq in Hin. lia. }
    rewrite map_app. cbn [map Splithttp.task_url]. rewrite Hnew.
    split; [| split].
    * apply NoDup_app; [exact Hnd | repeat constructor; intros [] | ].
      intros x Hx [<-|[]]. apply Hfresh. now apply Hincl.
    * apply incl_app; [now apply incl_appl |].
      apply incl_appr, incl_refl.
    * rewrite !len_app. change (len [_]) with 1.
      change (len [?x]) with 1. lia.
Qed.

Lemma inflight_distinct_witness :
  (Splithttp.run uploader_example (Splithttp.start uploader_example)
     (firstn 6 session_example)
   = Some (Splithttp.mkState 0 2 Splithttp.AtRead
             [ Splithttp.mkTask (post_example "0") chunk_example;
               Splithttp.mkTask (post_example "1") chunk_example ]
             [post_example "0"; post_example "1"] [])
   /\ 2 <= 2 ^ 63)
  /\ NoDup [post_example "0"; post_example "1"].
Proof.
  assert (Hbound : 2 <= 2 ^ 63) by (apply Z.leb_le; reflexivity).
  split; [exact (conj eq_refl Hbound) |].
  exact (proj1 (inflight_distinct uploader_example (firstn 6 session_example)
                  _ eq_refl Hbound)).
Defined.

(** X13. Once the pipe is closed and the producer has left its loop, no
    further POST is launched and the counter stays: every later step is the
    end of an upload in flight.  Those are not cancelled; each gives its
    permit back, and when the last one has ended the semaphore holds all
    [maxConcurrentUploads] permits again. *)
Theorem uploader_after_close (u : Splithttp.Uploader)
  (es es' : list Splithttp.Event) (s s' : Splithttp.State)
  (Hrun : Splithttp.run u (Splithttp.start u) es = Some s)
  (Hexit : Splithttp.producer s = Splithttp.Exited)
  (Hrun' : Splithttp.run u s es' = Some s') :
  Splithttp.producer s' = Splithttp.Exited
  /\ Splithttp.posts s' = Splithttp.posts s
  /\ Splithttp.requestCounter s' = Splithttp.requestCounter s
  /\ len (Splithttp.inflight s') = len (Splithttp.inflight s) - len es'
  /\ Splithttp.requestsLimiter s' = Splithttp.requestsLimiter s + len es'
  /\ (Splithttp.inflight s' = [] ->
      Splithttp.requestsLimiter s' = Splithttp.maxConcurrentUploads u).
Proof.
  pose proof (run_inv u es _ s (start_inv u) Hrun) as Hinv.
  assert (Hinv' : reachable_inv u s') by (now apply (run_inv u es' s s')).
  assert (G : Splithttp.producer s' = Splithttp.Exited
              /\ Splithttp.posts s' = Splithttp.posts s
              /\ Splithttp.requestCounter s' = Splithttp.requestCounter s
              /\ len (Splithttp.inflight s') = len (Splithttp.inflight s) - len es'
              /\ Splithttp.requestsLimiter s'
                 = Splithttp.requestsLimiter s + len es').
  { clear Hrun Hinv Hinv'. revert s Hexit Hrun'.
    induction es' as [|e es' IH]; intros s Hexit Hrun'; simpl in Hrun'.
    - injection Hrun' as <-. change (len (@nil Splithttp.Event)) with 0.
      repeat split; try assumption; lia.
    - destruct (Splithttp.step u s e) as [s1|] eqn:Hstep; [| discriminate].
      assert (H1 : Splithttp.producer s1 = Splithttp.Exited
                   /\ Splithttp.posts s1 = Splithttp.posts s
                   /\ Splithttp.requestCounter s1 = Splithttp.requestCounter s
                   /\ len (Splithttp.inflight s1) = len (Splithttp.inflight s) - 1
                   /\ Splithttp.requestsLimiter s1
                      = Splithttp.requestsLimiter s + 1).
      { unfold Splithttp.step in Hstep. rewrite Hexit in Hstep.
        destruct e as [c| | | |i o]; try discriminate Hstep.
        destruct (nth_error (Splithttp.inflight s) i) eqn:En;
          [| discriminate Hstep].
        destruct (Splithttp.requestsLimiter s <? Splithttp.maxConcurrentUploads u);
          [| discriminate Hstep].
        injection Hstep as <-. simpl.
        repeat split; try reflexivity.
        apply remove_nth_length. apply nth_error_Some. congruence. }
      destruct H1 as [E1 [E2 [E3 [E4 E5]]]].
      destruct (IH s1 E1 Hrun') as [F1 [F2 [F3 [F4 F5]]]].
      assert (El : len (e :: es') = 1 + len es')
        by (unfold len; cbn [List.length]; lia).
      rewrite El. repeat split; try congruence; lia. }
  destruct G as [G1 [G2 [G3 [G4 G5]]]].
  repeat split; try assumption.
  intros Hempty. destruct Hinv' as [Hp _ _].
  unfold Splithttp.held in Hp. rewrite G1, Hempty in Hp.
  change (len (@nil Splithttp.Task)) with 0 in Hp. lia.
Qed.

Lemma uploader_after_close_witness :
  (Splithttp.run uploader_example (Splithttp.start uploader_example)
     session_example = Some session_end
   /\ Splithttp.producer session_end = Splithttp.Exited
   /\ Splithttp.run uploader_example session_end
        [Splithttp.TaskExit 0 (Splithttp.DoFailed IO.EOF)]
      = Some (Splithttp.mkState 2 3 Splithttp.Exited []
                [post_example "0"; post_example "1"; post_example "2"]
                [ newError
                    "failed to send upload, bad status code:500 Internal Server Error";
                  Base "failed to send upload" IO.EOF ]))
  /\ 2 = Splithttp.maxConcurrentUploads uploader_example.
Proof.
  split; [exact (conj session_example_run (conj eq_refl eq_refl)) |].
  destruct (uploader_after_close uploader_example session_example
              [Splithttp.TaskExit 0 (Splithttp.DoFailed IO.EOF)]
              session_end _ session_example_run eq_refl eq_refl)
    as [_ [_ [_ [_ [_ Hall]]]]].
  exact (Hall eq_refl).
Defined.

(* ================================================================= *)
(** ** The HTTP client of a dial *)

Lemma dialerConf_eqb_refl (k : Splithttp.dialerConf) :
  Splithttp.dialerConf_eqb k k = true.
Proof.
  unfold Splithttp.dialerConf_eqb. rewrite String.eqb_refl, Z.eqb_refl.
  reflexivity.
Qed.

Lemma dialerConf_eqb_eq (a b : Splithttp.dialerConf) :
  Splithttp.dialerConf_eqb a b = true -> a = b.
Proof.
  unfold Splithttp.dialerConf_eqb. intros H.
  apply andb_true_iff in H. destruct H as [Hd Hs].
  apply String.eqb_eq in Hd. apply Z.eqb_eq in Hs.
  destruct a, b; cbn in *; congruence.
Qed.

Lemma map_lookup_store (m : list (Splithttp.dialerConf * Splithttp.Client))
  (key : Splithttp.dialerConf) (v : Splithttp.Client) :
  Splithttp.map_lookup (Splithttp.map_store m key v) key = Some v.
Proof.
  induction m as [|[k v'] m IH]; cbn [Splithttp.map_store Splithttp.map_lookup].
  - rewrite dialerConf_eqb_refl. reflexivity.
  - destruct (Splithttp.dialerConf_eqb k key) eqn:Hk;
      cbn [Splithttp.map_lookup].
    + rewrite dialerConf_eqb_refl. reflexivity.
    + rewrite Hk. exact IH.
Qed.

Lemma map_lookup_store_other (m : list (Splithttp.dialerConf * Splithttp.Client))
  (key key' : Splithttp.dialerConf) (v : Splithttp.Client) :
  Splithttp.dialerConf_eqb key key' = false ->
  Splithttp.map_lookup (Splithttp.map_store m key v) key'
  = Splithttp.map_lookup m key'.
Proof.
  intros Hne.
  induction m as [|[k v'] m IH]; cbn [Splithttp.map_store Splithttp.map_lookup].
  - rewrite Hne. reflexivity.
  - destruct (Splithttp.dialerConf_eqb k key) eqn:Hk;
      cbn [Splithttp.map_lookup].
    + apply dialerConf_eqb_eq in Hk. subst k. rewrite Hne. reflexivity.
    + rewrite IH. reflexivity.
Qed.

(** X14. [getHTTPClient] never hands out a client of the map: the client it
    returns is a new one, different from every client the map holds, also
    under the key of the call; after the call the map is not nil, holds the
    new client under (destination, stream settings) in place of what was
    there, and every other key keeps its client.  The transport is HTTP/2
    exactly when the stream settings carry TLS settings. *)
Theorem getHTTPClient_replaces (g : Splithttp.Globals) (dest : string)
  (streamSettings : Splithttp.MemoryStreamConfig)
  (Hinv : allocated g) :
  Splithttp.map_lookup
    (dialer_map (snd (Splithttp.getHTTPClient g dest streamSettings)))
    (Splithttp.mkDialerConf dest (Splithttp.settings_address streamSettings))
  = Some (fst (Splithttp.getHTTPClient g dest streamSettings))
  /\ (forall key',
        Splithttp.dialerConf_eqb
          (Splithttp.mkDialerConf dest (Splithttp.settings_address streamSettings))
          key' = false ->
        Splithttp.map_lookup
          (dialer_map (snd (Splithttp.getHTTPClient g dest streamSettings))) key'
        = Splithttp.map_lookup (dialer_map g) key')
  /\ (forall key' old,
        Splithttp.map_lookup (dialer_map g) key' = Some old ->
        old <> fst (Splithttp.getHTTPClient g dest streamSettings))
  /\ Splithttp.globalDialerMap
       (snd (Splithttp.getHTTPClient g dest streamSettings)) <> None
  /\ allocated (snd (Splithttp.getHTTPClient g dest streamSettings))
  /\ (Splithttp.client_Transport
        (fst (Splithttp.getHTTPClient g dest streamSettings))
      = Splithttp.HTTP2_Transport
      <-> Splithttp.settings_TLS streamSettings <> None).
Proof.
  unfold Splithttp.getHTTPClient. cbn [fst snd].
  unfold dialer_map at 1 2. cbn [Splithttp.globalDialerMap].
  fold (dialer_map g).
  split; [apply map_lookup_store |].
  split; [intros key' Hne; apply map_lookup_store_other; exact Hne |].
  split.
  { intros key' old Hold Heq. apply Hinv in Hold. subst old.
    cbn [Splithttp.client_address] in Hold. lia. }
  split; [discriminate |].
  split.
  { intros key c. unfold dialer_map.
    cbn [Splithttp.globalDialerMap Splithttp.next_address].
    fold (dialer_map g).
    destruct (Splithttp.dialerConf_eqb
                (Splithttp.mkDialerConf dest
                   (Splithttp.settings_address streamSettings)) key) eqn:Hk.
    - apply dialerConf_eqb_eq in Hk. subst key.
      rewrite map_lookup_store. intros Hc. inversion Hc.
      cbn [Splithttp.client_address]. lia.
    - rewrite (map_lookup_store_other _ _ _ _ Hk). intros Hc.
      apply Hinv in Hc. lia. }
  cbn [Splithttp.client_Transport].
  destruct (Splithttp.settings_TLS streamSettings);
    split; intros H; try reflexivity; try discriminate; congruence.
Qed.

Lemma getHTTPClient_replaces_witness :
  allocated globals_example
  /\ Splithttp.map_lookup (dialer_map globals_example)
       (Splithttp.mkDialerConf "example.com:443" 4096)
     = Some (Splithttp.mkClient 0 Splithttp.HTTP2_Transport "example.com:443"
               tls_settings_example)
  /\ Splithttp.map_lookup
       (dialer_map
          (snd (Splithttp.getHTTPClient globals_example "example.com:443"
                  tls_settings_example)))
       (Splithttp.mkDialerConf "example.com:443" 4096)
     = Some (Splithttp.mkClient 1 Splithttp.HTTP2_Transport "example.com:443"
               tls_settings_example).
Proof.
  assert (Hinv : allocated globals_example).
  { intros key c. unfold globals_example, dialer_map, Splithttp.getHTTPClient.
    cbn [snd Splithttp.globalDialerMap Splithttp.map_store Splithttp.map_lookup
         Splithttp.next_address].
    destruct (Splithttp.dialerConf_eqb _ key); [| discriminate].
    intros Hc. inversion Hc. cbn [Splithttp.client_address]. lia. }
  split; [exact Hinv |]. split; [reflexivity |].
  exact (proj1 (getHTTPClient_replaces globals_example "example.com:443"
                  tls_settings_example Hinv)).
Defined.

(** X15. The [dialContext] of a client made by [getHTTPClient] dials the
    destination of that call with the socket settings of its stream
    settings.  A client with the HTTP transport gets the connection of the
    system dialer as it is; a client with the HTTP/2 transport never does:
    its connection is wrapped by uTLS after a handshake that succeeded
    when the fingerprint is known, and by plain TLS, without a handshake,
    when it is not.  An error is that of the system dialer or that of the
    uTLS handshake, and then no connection is returned. *)
Theorem dialContext_wraps (g : Splithttp.Globals) (dest : string)
  (streamSettings : Splithttp.MemoryStreamConfig) (net : Splithttp.Network) :
  match Splithttp.dialContext net
          (fst (Splithttp.getHTTPClient g dest streamSettings)) with
  | Ok conn =>
      exists id,
        Splithttp.DialSystem net dest (Splithttp.SocketSettings streamSettings)
        = Ok id
        /\ match Splithttp.client_Transport
                   (fst (Splithttp.getHTTPClient g dest streamSettings)) with
           | Splithttp.HTTP_Transport => conn = Splithttp.SystemConn id
           | Splithttp.HTTP2_Transport =>
               exists name,
                 Splithttp.settings_TLS streamSettings = Some name
                 /\ match Splithttp.GetFingerprint net name with
                    | Some fingerprint =>
                        conn = Splithttp.TLS_UClient id fingerprint
                        /\ Splithttp.HandshakeContext net id fingerprint = None
                    | None => conn = Splithttp.TLS_Client id
                    end
           end
  | Err e =>
      Splithttp.DialSystem net dest (Splithttp.SocketSettings streamSettings)
      = Err e
      \/ exists id name fingerprint,
           Splithttp.DialSystem net dest (Splithttp.SocketSettings streamSettings)
           = Ok id
           /\ Splithttp.settings_TLS streamSettings = Some name
           /\ Splithttp.GetFingerprint net name = Some fingerprint
           /\ Splithttp.HandshakeContext net id fingerprint = Some e
  end.
Proof.
  unfold Splithttp.dialContext, Splithttp.getHTTPClient.
  cbn [fst Splithttp.client_dest Splithttp.client_settings
       Splithttp.client_Transport].
  destruct (Splithttp.DialSystem net dest
              (Splithttp.SocketSettings streamSettings)) as [id | e] eqn:Hsys.
  - destruct (Splithttp.settings_TLS streamSettings) as [name |] eqn:Htls.
    + destruct (Splithttp.GetFingerprint net name) as [fp |] eqn:Hfp.
      * destruct (Splithttp.HandshakeContext net id fp) as [e |] eqn:Hhs.
        -- right. exists id, name, fp. repeat split; assumption.
        -- exists id. split; [reflexivity |]. exists name.
           split; [reflexivity |]. rewrite Hfp. split; [reflexivity | exact Hhs].
      * exists id. split; [reflexivity |]. exists name.
        split; [reflexivity |]. rewrite Hfp. reflexivity.
    + exists id. split; reflexivity.
  - left. reflexivity.
Qed.

(* ================================================================= *)
(** ** [forwardConnection]: what is released *)

Lemma forwardConnection_shape (w : Wireguard.World)
  (dispatch : string -> option Wireguard.Link * option error) (dest : string) :
  Wireguard.dispatcher w = Some dispatch ->
  exists mid,
    fst (Wireguard.forwardConnection w dest)
    = [ Wireguard.CancelAfterInactivity
          (Wireguard.ConnectionIdle (Wireguard.timeouts w));
        Wireguard.Dispatch dest ] ++ mid
      ++ [Wireguard.Cancel; Wireguard.ConnClose]
    /\ forallb inner mid = true.
Proof.
  intros Hd.
  exists (removelast (removelast (skipn 2 (fst (Wireguard.forwardConnection w dest))))).
  unfold Wireguard.forwardConnection. rewrite Hd.
  unfold Wireguard.task_Run, Wireguard.requestDonePost, Wireguard.responseDone.
  destruct (dispatch dest) as [[link |] [e |]];
    destruct (Wireguard.requestCopy w), (Wireguard.responseCopy w);
    split; reflexivity.
Qed.


(* ================================================================= *)
(** ** The forwarders of the stack *)

Lemma forwardConnection_dispatches (w : Wireguard.World) (dest d : string) :
  In (Wireguard.Dispatch d) (fst (Wireguard.forwardConnection w dest)) ->
  d = dest.
Proof.
  destruct (Wireguard.dispatcher w) as [dispatch |] eqn:Hd.
  - destruct (forwardConnection_shape w dispatch dest Hd) as [mid [Htr Hmid]].
    rewrite Htr. simpl. intros [H | [H | H]]; [discriminate | congruence |].
    apply in_app_or in H. destruct H as [H | H].
    + rewrite forallb_forall in Hmid. apply Hmid in H. discriminate.
    + cbn [In] in H. destruct H as [H | [H | []]]; discriminate.
  - unfold Wireguard.forwardConnection. rewrite Hd. cbn [fst In].
    intros [H | []]. discriminate.
Qed.

Lemma in_map_Forward (e : Wireguard.Event) (l : list Wireguard.Event) :
  In (Wireguard.Forward e) (map Wireguard.Forward l) -> In e l.
Proof.
  intros H. apply in_map_iff in H. destruct H as [e' [Heq Hin]].
  inversion Heq. subst e'. exact Hin.
Qed.


(* ================================================================= *)
(** ** [Process]: datagrams into the queue *)

Section Process_facts.

Variable Read : Buf.Buffer -> list byte -> list byte * Z * option error.
Variable Is : error -> error -> bool.
Variable nep : Z.
Variable closed : bool.

Lemma range_mpayload_app (a b : list Buf.Buffer) :
  forall queue,
    Wireguard.range_mpayload Read Is nep closed (a ++ b) queue
    = match Wireguard.range_mpayload Read Is nep closed a queue with
      | (out, later, Some stop) => (out, later, Some stop)
      | (out, later, None) =>
          let '(out', later', stop) :=
            Wireguard.range_mpayload Read Is nep closed b later in
          (out ++ out', later', stop)
      end.
Proof.
  induction a as [| payload a IH]; intros queue.
  - rewrite app_nil_l. cbn [Wireguard.range_mpayload].
    destruct (Wireguard.range_mpayload Read Is nep closed b queue)
      as [[out' later'] stop]. reflexivity.
  - rewrite <- app_comm_cons. cbn [Wireguard.range_mpayload].
    destruct queue as [| v queue]; [reflexivity |].
    destruct (Wireguard.is_EOF Is (Wireguard.fill Read nep payload v));
      [reflexivity |].
    rewrite IH.
    destruct (Wireguard.range_mpayload Read Is nep closed a queue)
      as [[out later] [stop |]]; [reflexivity |].
    destruct (Wireguard.range_mpayload Read Is nep closed b later)
      as [[out' later'] stop]. reflexivity.
Qed.

(** The grouping of the payloads into multi-buffers does not matter. *)
Lemma read_loop_flat (mbs : list Buf.MultiBuffer)
  (calls : list (Buf.MultiBuffer * option error)) :
  forall queue,
    Wireguard.read_loop Read Is nep closed (succeed mbs ++ calls) queue
    = Wireguard.read_loop Read Is nep closed
        ((List.concat mbs, None) :: calls) queue.
Proof.
  induction mbs as [| mb mbs IH]; intros queue.
  - unfold succeed. cbn [map]. rewrite app_nil_l.
    cbn [List.concat Wireguard.read_loop Wireguard.range_mpayload].
    destruct (Wireguard.read_loop Read Is nep closed calls queue)
      as [[out later] stop]. reflexivity.
  - unfold succeed in *. cbn [map]. rewrite <- app_comm_cons.
    cbn [List.concat Wireguard.read_loop].
    rewrite range_mpayload_app.
    destruct (Wireguard.range_mpayload Read Is nep closed mb queue)
      as [[out later] [stop |]]; [reflexivity |].
    rewrite IH. cbn [Wireguard.read_loop].
    destruct (Wireguard.range_mpayload Read Is nep closed (List.concat mbs) later)
      as [[out' later'] [stop |]]; [reflexivity |].
    destruct (Wireguard.read_loop Read Is nep closed calls later')
      as [[out'' later''] stop]. rewrite app_assoc. reflexivity.
Qed.

Lemma range_mpayload_quiet (payloads : list Buf.Buffer) :
  forall taken later,
    len payloads = len taken ->
    quiet Read Is nep payloads taken = true ->
    Wireguard.range_mpayload Read Is nep closed payloads (taken ++ later)
    = (handed Read nep payloads taken, later, None).
Proof.
  unfold len, quiet, handed.
  induction payloads as [| payload payloads IH]; intros taken later Hlen Hq;
    destruct taken as [| v taken]; cbn [List.length] in Hlen; try lia.
  - reflexivity.
  - cbn [combine map forallb fst snd] in *.
    apply andb_true_iff in Hq. destruct Hq as [Hv Hq].
    apply negb_true_iff in Hv.
    rewrite <- app_comm_cons. cbn [Wireguard.range_mpayload]. rewrite Hv.
    rewrite IH; [reflexivity | lia | exact Hq].
Qed.

Lemma range_mpayload_EOF (before : list Buf.Buffer) (p : Buf.Buffer)
  (after : list Buf.Buffer) (v : Wireguard.netReadInfo) :
  forall taken later,
    len before = len taken ->
    quiet Read Is nep before taken = true ->
    Wireguard.is_EOF Is (Wireguard.fill Read nep p v) = true ->
    Wireguard.range_mpayload Read Is nep closed (before ++ p :: after)
      (taken ++ v :: later)
    = (handed Read nep before taken ++ [Wireguard.fill Read nep p v], later,
       Some (Wireguard.Return None, true)).
Proof.
  intros taken later Hlen Hq Hp.
  rewrite range_mpayload_app, (range_mpayload_quiet _ _ _ Hlen Hq).
  cbn [Wireguard.range_mpayload]. rewrite Hp. reflexivity.
Qed.

Lemma range_mpayload_exhausted (before : list Buf.Buffer) (p : Buf.Buffer)
  (after : list Buf.Buffer) (queue : list Wireguard.netReadInfo) :
  len before = len queue ->
  quiet Read Is nep before queue = true ->
  Wireguard.range_mpayload Read Is nep closed (before ++ p :: after) queue
  = (handed Read nep before queue, [],
     Some (if closed then Wireguard.Return None else Wireguard.Blocked, false)).
Proof.
  intros Hlen Hq.
  rewrite range_mpayload_app.
  rewrite <- (app_nil_r queue) at 1.
  rewrite (range_mpayload_quiet _ _ _ Hlen Hq).
  cbn [Wireguard.range_mpayload]. rewrite app_nil_r. reflexivity.
Qed.

End Process_facts.

(** X18. While the packet reader delivers and no payload reports the end
    of the stream, [Process] hands the payloads to the waiting receivers
    one for one and in order, whatever the multi-buffers they came in:
    the n-th payload is read into the buffer of the n-th element of the
    queue, which gets the count, the endpoint parsed from the remote
    address and the error of that read, and is released.  When the reader
    then fails, [Process] returns that error, unchanged; the elements not
    used stay in the queue, the endpoint keeps the connection, and
    [s.info] holds the dispatcher of the call. *)
Theorem Process_delivers
  (Read : Buf.Buffer -> list byte -> list byte * Z * option error)
  (Is : error -> error -> bool)
  (inb : Wireguard.Inbound) (conn dispatcher nep : Z)
  (mbs : list Buf.MultiBuffer) (mb : Buf.MultiBuffer) (e : error)
  (calls : list (Buf.MultiBuffer * option error))
  (taken later : list Wireguard.netReadInfo)
  (Hep : Wireguard.ParseEndpoint inb = Ok nep)
  (Hreads : Wireguard.reads inb = succeed mbs ++ (mb, Some e) :: calls)
  (Hqueue : Wireguard.readQueue inb = taken ++ later)
  (Hlen : len (List.concat mbs) = len taken)
  (Hquiet : quiet Read Is nep (List.concat mbs) taken = true) :
  Wireguard.Process Read Is inb conn dispatcher
  = Wireguard.mkProcessed dispatcher (Wireguard.Return (Some e))
      (handed Read nep (List.concat mbs) taken) later (Some conn).
Proof.
  unfold Wireguard.Process. rewrite Hep, Hreads, Hqueue.
  rewrite read_loop_flat. cbn [Wireguard.read_loop].
  rewrite (range_mpayload_quiet _ _ _ _ _ _ _ Hlen Hquiet).
  rewrite app_nil_r. reflexivity.
Qed.

Lemma Process_delivers_witness :
  Wireguard.Process buffer_Read wraps inbound_example 9 1
  = Wireguard.mkProcessed 1 (Wireguard.Return (Some closed_conn))
      [ Wireguard.mkNetReadInfo [x61; x62; x00; x00] 2 (Some 7) None true;
        Wireguard.mkNetReadInfo [x63; x64; x65; x66] 4 (Some 7) None true;
        Wireguard.mkNetReadInfo [x68; x00; x00; x00] 1 (Some 7) None true ]
      [] (Some 9).
Proof.
  exact (Process_delivers buffer_Read wraps inbound_example 9 1 7
           [ [Buf.mkBuffer 8 0 [x61; x62];
              Buf.mkBuffer 8 0 [x63; x64; x65; x66; x67]];
             [Buf.mkBuffer 8 0 [x68]] ]
           [] closed_conn [] [waiting; waiting; waiting] []
           eq_refl eq_refl eq_refl eq_refl eq_refl).
Defined.

(** X19. The first payload whose read reports [io.EOF] ends the call:
    its element is still handed back, with that error, after those of the
    payloads before it; [Process] then sets the connection of the endpoint
    to nil and returns nil, without reading the payloads that follow in the
    multi-buffer and without another call of the reader. *)
Theorem Process_stops_at_EOF
  (Read : Buf.Buffer -> list byte -> list byte * Z * option error)
  (Is : error -> error -> bool)
  (inb : Wireguard.Inbound) (conn dispatcher nep : Z)
  (mbs : list Buf.MultiBuffer) (before after : list Buf.Buffer)
  (p : Buf.Buffer) (calls : list (Buf.MultiBuffer * option error))
  (taken later : list Wireguard.netReadInfo) (v : Wireguard.netReadInfo)
  (Hep : Wireguard.ParseEndpoint inb = Ok nep)
  (Hreads : Wireguard.reads inb
            = succeed mbs ++ (before ++ p :: after, None) :: calls)
  (Hqueue : Wireguard.readQueue inb = taken ++ v :: later)
  (Hlen : len (List.concat mbs ++ before) = len taken)
  (Hquiet : quiet Read Is nep (List.concat mbs ++ before) taken = true)
  (HEOF : Wireguard.is_EOF Is (Wireguard.fill Read nep p v) = true) :
  Wireguard.Process Read Is inb conn dispatcher
  = Wireguard.mkProcessed dispatcher (Wireguard.Return None)
      (handed Read nep (List.concat mbs ++ before) taken
       ++ [Wireguard.fill Read nep p v])
      later None.
Proof.
  unfold Wireguard.Process. rewrite Hep, Hreads, Hqueue.
  change (succeed mbs ++ (before ++ p :: after, None) :: calls)
    with (succeed mbs ++ [(before ++ p :: after, @None error)] ++ calls).
  rewrite app_assoc.
  change [(before ++ p :: after, @None error)]
    with (succeed [before ++ p :: after]).
  unfold succeed at 1 2. rewrite <- map_app.
  fold (succeed (mbs ++ [before ++ p :: after])).
  rewrite read_loop_flat. cbn [Wireguard.read_loop].
  rewrite concat_app. cbn [List.concat]. rewrite app_nil_r, app_assoc.
  rewrite (range_mpayload_EOF _ _ _ _ _ _ _ _ _ _ Hlen Hquiet HEOF).
  reflexivity.
Qed.

Lemma Process_stops_at_EOF_witness :
  Wireguard.Process buffer_Read wraps inbound_EOF 9 1
  = Wireguard.mkProcessed 1 (Wireguard.Return None)
      [ Wireguard.mkNetReadInfo [x61; x62; x00; x00] 2 (Some 7) None true;
        Wireguard.mkNetReadInfo [x00; x00; x00; x00] 0 (Some 7) (Some IO.EOF)
          true ]
      [waiting] None.
Proof.
  exact (Process_stops_at_EOF buffer_Read wraps inbound_EOF 9 1 7
           [] [Buf.mkBuffer 8 0 [x61; x62]] [Buf.mkBuffer 8 0 [x68]]
           (Buf.mkBuffer 8 0 []) [([], Some closed_conn)]
           [waiting] [waiting] waiting
           eq_refl eq_refl eq_refl eq_refl eq_refl eq_refl).
Defined.

(** X20. When a payload arrives and the queue has no element left for it,
    the payloads before it have been handed over as usual and this one is
    not: if the queue is closed [Process] returns nil, and it leaves the
    connection of the endpoint in place; if the queue is open [Process]
    waits and does not return. *)
Theorem Process_queue_exhausted
  (Read : Buf.Buffer -> list byte -> list byte * Z * option error)
  (Is : error -> error -> bool)
  (inb : Wireguard.Inbound) (conn dispatcher nep : Z)
  (mbs : list Buf.MultiBuffer) (before after : list Buf.Buffer)
  (p : Buf.Buffer) (calls : list (Buf.MultiBuffer * option error))
  (Hep : Wireguard.ParseEndpoint inb = Ok nep)
  (Hreads : Wireguard.reads inb
            = succeed mbs ++ (before ++ p :: after, None) :: calls)
  (Hlen : len (List.concat mbs ++ before) = len (Wireguard.readQueue inb))
  (Hquiet : quiet Read Is nep (List.concat mbs ++ before)
              (Wireguard.readQueue inb) = true) :
  Wireguard.Process Read Is inb conn dispatcher
  = Wireguard.mkProcessed dispatcher
      (if Wireguard.queueClosed inb then Wireguard.Return None
       else Wireguard.Blocked)
      (handed Read nep (List.concat mbs ++ before) (Wireguard.readQueue inb))
      [] (Some conn).
Proof.
  unfold Wireguard.Process. rewrite Hep, Hreads.
  change (succeed mbs ++ (before ++ p :: after, None) :: calls)
    with (succeed mbs ++ [(before ++ p :: after, @None error)] ++ calls).
  rewrite app_assoc.
  change [(before ++ p :: after, @None error)]
    with (succeed [before ++ p :: after]).
  unfold succeed at 1 2. rewrite <- map_app.
  fold (succeed (mbs ++ [before ++ p :: after])).
  rewrite read_loop_flat. cbn [Wireguard.read_loop].
  rewrite concat_app. cbn [List.concat]. rewrite app_nil_r, app_assoc.
  rewrite (range_mpayload_exhausted _ _ _ _ _ _ _ _ Hlen Hquiet).
  reflexivity.
Qed.

Lemma Process_queue_exhausted_witness :
  Wireguard.Process buffer_Read wraps inbound_short 9 1
  = Wireguard.mkProcessed 1 (Wireguard.Return None)
      [Wireguard.mkNetReadInfo [x61; x62; x00; x00] 2 (Some 7) None true]
      [] (Some 9).
Proof.
  exact (Process_queue_exhausted buffer_Read wraps inbound_short 9 1 7
           [[Buf.mkBuffer 8 0 [x61; x62]]] [] [Buf.mkBuffer 8 0 [x64]]
           (Buf.mkBuffer 8 0 [x63]) []
           eq_refl eq_refl eq_refl eq_refl).
Defined.

Section Process_accounting.

Variable Read : Buf.Buffer -> list byte -> list byte * Z * option error.
Variable Is : error -> error -> bool.
Variable nep : Z.
Variable closed : bool.

Lemma handed_app (a b : list Buf.Buffer) :
  forall ta tb : list Wireguard.netReadInfo,
    List.length a = List.length ta ->
    handed Read nep (a ++ b) (ta ++ tb)
    = handed Read nep a ta ++ handed Read nep b tb.
Proof.
  unfold handed.
  induction a as [| x a IH]; intros [| v ta] tb Hlen;
    cbn [List.length] in Hlen; try discriminate.
  - reflexivity.
  - rewrite <- !app_comm_cons. cbn [combine map]. rewrite <- app_comm_cons.
    f_equal. apply IH. congruence.
Qed.

Lemma range_mpayload_accounts (payloads : list Buf.Buffer) :
  forall queue out later stop,
    Wireguard.range_mpayload Read Is nep closed payloads queue
    = (out, later, stop) ->
    exists used rest taken,
      payloads = used ++ rest
      /\ queue = taken ++ later
      /\ List.length used = List.length taken
      /\ out = handed Read nep used taken
      /\ match stop with
         | None => rest = [] /\ quiet Read Is nep used taken = true
         | Some (how, cleared) =>
             cleared = negb (quiet Read Is nep used taken)
             /\ (how = Wireguard.Return None \/ how = Wireguard.Blocked)
         end.
Proof.
  induction payloads as [| payload payloads IH]; intros queue out later stop H.
  - cbn [Wireguard.range_mpayload] in H. inversion H; subst.
    exists [], [], []. repeat split; reflexivity.
  - cbn [Wireguard.range_mpayload] in H.
    destruct queue as [| v queue].
    + inversion H; subst. exists [], (payload :: payloads), [].
      repeat split; try reflexivity.
      destruct closed; [left | right]; reflexivity.
    + destruct (Wireguard.is_EOF Is (Wireguard.fill Read nep payload v)) eqn:HEOF.
      * inversion H; subst. exists [payload], payloads, [v].
        repeat split; try reflexivity.
        -- unfold quiet, handed. cbn [combine map forallb fst snd].
           rewrite HEOF. reflexivity.
        -- left. reflexivity.
      * destruct (Wireguard.range_mpayload Read Is nep closed payloads queue)
          as [[out' later'] stop'] eqn:Hrec.
        inversion H; subst.
        destruct (IH _ _ _ _ Hrec)
          as [used [rest [taken [Hp [Hq [Hlen [Hout Hstop]]]]]]].
        exists (payload :: used), rest, (v :: taken).
        split; [rewrite Hp; reflexivity |].
        split; [rewrite Hq; reflexivity |].
        split; [cbn [List.length]; congruence |].
        split; [rewrite Hout; reflexivity |].
        unfold quiet, handed in *. cbn [combine map forallb fst snd].
        rewrite HEOF. cbn [negb andb]. exact Hstop.
Qed.

Lemma read_loop_accounts (calls : list (Buf.MultiBuffer * option error)) :
  forall queue out later how cleared,
    Wireguard.read_loop Read Is nep closed calls queue
    = (out, later, (how, cleared)) ->
    exists used rest taken,
      List.concat (map fst calls) = used ++ rest
      /\ queue = taken ++ later
      /\ List.length used = List.length taken
      /\ out = handed Read nep used taken
      /\ cleared = negb (quiet Read Is nep used taken)
      /\ (forall e, how = Wireguard.Return (Some e) ->
                    exists mb, In (mb, Some e) calls).
Proof.
  induction calls as [| [mb [e |]] calls IH];
    intros queue out later how cleared H; cbn [Wireguard.read_loop] in H.
  - inversion H; subst. exists [], [], [].
    repeat split; try reflexivity. discriminate.
  - inversion H; subst.
    exists [], (List.concat (map fst ((mb, Some e) :: calls))), [].
    repeat split; try reflexivity.
    intros e' He'. inversion He'; subst e'. exists mb. left. reflexivity.
  - destruct (Wireguard.range_mpayload Read Is nep closed mb queue)
      as [[out1 later1] stop1] eqn:Hrange.
    destruct (range_mpayload_accounts _ _ _ _ _ Hrange)
      as [used1 [rest1 [taken1 [Hmb [Hq1 [Hlen1 [Hout1 Hstop1]]]]]]].
    destruct stop1 as [[how1 cleared1] |].
    + inversion H; subst out later how cleared.
      destruct Hstop1 as [Hc Hhow].
      exists used1, (rest1 ++ List.concat (map fst calls)), taken1.
      cbn [map fst List.concat]. rewrite Hmb, <- app_assoc.
      repeat split; try assumption; try reflexivity.
      intros e He. destruct Hhow as [Hh | Hh]; rewrite Hh in He; discriminate.
    + destruct Hstop1 as [Hrest Hquiet1]. subst rest1.
      rewrite app_nil_r in Hmb.
      destruct (Wireguard.read_loop Read Is nep closed calls later1)
        as [[out2 later2] [how2 cleared2]] eqn:Hloop.
      inversion H; subst out later how cleared.
      destruct (IH _ _ _ _ _ Hloop)
        as [used2 [rest2 [taken2 [Hc2 [Hq2 [Hlen2 [Hout2 [Hcl2 Herr2]]]]]]]].
      exists (used1 ++ used2), rest2, (taken1 ++ taken2).
      cbn [map fst List.concat]. rewrite Hmb, Hc2, Hq1, Hq2, !app_assoc.
      split; [reflexivity |]. split; [reflexivity |].
      split; [rewrite !length_app; congruence |].
      split; [rewrite (handed_app _ _ _ _ Hlen1); congruence |].
      split.
      { rewrite Hcl2. unfold quiet in *. rewrite (handed_app _ _ _ _ Hlen1).
        rewrite forallb_app, Hquiet1. reflexivity. }
      intros e He. destruct (Herr2 e He) as [mb' Hin].
      exists mb'. right. exact Hin.
Qed.

End Process_accounting.

(** X21. On every input, [Process] first stores the dispatcher of the call
    in [s.info].  When the remote address does not parse it returns that
    error and touches neither the queue nor the reader.  Otherwise the
    elements it hands back are the elements taken from the head of the
    queue, as many and in the same order as the payloads read from the
    head of the stream of the reader, each filled from the payload of its
    rank; the rest of the queue is left as it was.  The connection of the
    endpoint is set to nil exactly when one of those reads reported
    [io.EOF], and an error returned is one the reader returned. *)
Theorem Process_accounts
  (Read : Buf.Buffer -> list byte -> list byte * Z * option error)
  (Is : error -> error -> bool)
  (inb : Wireguard.Inbound) (conn dispatcher : Z) :
  Wireguard.info_dispatcher (Wireguard.Process Read Is inb conn dispatcher)
  = dispatcher
  /\ match Wireguard.ParseEndpoint inb with
     | Err e =>
         Wireguard.Process Read Is inb conn dispatcher
         = Wireguard.mkProcessed dispatcher (Wireguard.Return (Some e)) []
             (Wireguard.readQueue inb) None
     | Ok nep =>
         exists used rest taken,
           List.concat (map fst (Wireguard.reads inb)) = used ++ rest
           /\ Wireguard.readQueue inb
              = taken
                ++ Wireguard.remaining
                     (Wireguard.Process Read Is inb conn dispatcher)
           /\ len used = len taken
           /\ Wireguard.delivered (Wireguard.Process Read Is inb conn dispatcher)
              = handed Read nep used taken
           /\ Wireguard.nep_conn (Wireguard.Process Read Is inb conn dispatcher)
              = (if quiet Read Is nep used taken then Some conn else None)
           /\ (forall e,
                 Wireguard.ending (Wireguard.Process Read Is inb conn dispatcher)
                 = Wireguard.Return (Some e) ->
                 exists mb, In (mb, Some e) (Wireguard.reads inb))
     end.
Proof.
  unfold Wireguard.Process.
  destruct (Wireguard.ParseEndpoint inb) as [nep | e];
    [| split; reflexivity].
  destruct (Wireguard.read_loop Read Is nep (Wireguard.queueClosed inb)
              (Wireguard.reads inb) (Wireguard.readQueue inb))
    as [[out later] [how cleared]] eqn:Hloop.
  split; [reflexivity |].
  destruct (read_loop_accounts _ _ _ _ _ _ _ _ _ _ Hloop)
    as [used [rest [taken [Hc [Hq [Hlen [Hout [Hcl Herr]]]]]]]].
  exists used, rest, taken.
  cbn [Wireguard.remaining Wireguard.delivered Wireguard.nep_conn
       Wireguard.ending].
  split; [exact Hc |]. split; [exact Hq |].
  split; [unfold len; rewrite Hlen; reflexivity |].
  split; [exact Hout |].
  split; [| exact Herr].
  rewrite Hcl. destruct (quiet Read Is nep used taken); reflexivity.
Qed.
